(** * NLC model (nlc_model.py): tensor-level contract of the graph

    A shallow embedding of the parts of [nlc_model.py] that carry the
    data-flow contract of the sequence-to-sequence model: mask and length
    bookkeeping, the pyramidal downscale, the attention softmax, the
    per-example reversal of the bidirectional layer, the masked loss, global
    norm clipping and the train / test steps.

    Conventions.
    - A rank-2 tensor of shape (time, batch) is a [list (list X)]: the outer
      list is the time axis (time-major), every row has [batch_size] entries.
      A rank-3 tensor (time, batch, size) is a [list (list (list X))].
    - [tf.int32] values are [Z] (with the 32-bit wrap written out where the
      graph does arithmetic on them); [tf.float32] values are modelled by the
      real numbers [R]: the development states the mathematical contract of
      the graph, rounding of the machine arithmetic is not modelled.
    - Graph operations that can fail at run time ([tf.reshape] with a shape
      that does not divide, [tf.slice] out of range, [tf.reverse_sequence]
      with a length beyond the time axis) return [option]. *)

From Stdlib Require Import List ZArith Bool Arith Lia.
From Stdlib Require Import Reals Lra.
Import ListNotations.

Set Implicit Arguments.

(** ** Option as the error monad of graph execution *)

Definition obind {A B : Type} (o : option A) (k : A -> option B) : option B :=
  match o with
  | Some a => k a
  | None => None
  end.

Notation "x <- e ;; k" := (obind e (fun x => k))
  (at level 61, e at next level, right associativity).

(** ** Tensors as nested lists *)

Section Tensor.
Variable A : Type.

(** Shape predicate of a rank-2 tensor: [t] rows of [b] entries. *)
Definition shape2 (t b : nat) (m : list (list A)) : Prop :=
  length m = t /\ Forall (fun r => length r = b) m.

(** Column [i] of a time-major tensor: the sequence of example [i]. *)
Definition column (i : nat) (m : list (list A)) : list A :=
  flat_map (fun r => match nth_error r i with
                     | Some x => [x]
                     | None => []
                     end) m.

(** [tf.transpose] of a rank-2 tensor whose second dimension is statically
    [n] (the placeholders are declared with shape [None, batch_size]). *)
Definition transpose (n : nat) (m : list (list A)) : list (list A) :=
  map (fun i => column i m) (seq 0 n).

(** Row-major layout of [r] rows of [c] entries taken from a flat buffer. *)
Fixpoint reshape_rows (r c : nat) (l : list A) : list (list A) :=
  match r with
  | O => []
  | S r' => firstn c l :: reshape_rows r' c (skipn c l)
  end.

(** [tf.reshape(x, [-1, c])] of a flat buffer: the missing dimension is
    inferred; the op fails when [c] is zero or does not divide the number
    of elements. *)
Definition reshape_m1_c (c : nat) (l : list A) : option (list (list A)) :=
  if (c =? 0)%nat then None
  else if (length l mod c =? 0)%nat
       then Some (reshape_rows (length l / c) c l)
       else None.

(** [tf.reshape(x, [r, -1])] of a flat buffer. *)
Definition reshape_r_m1 (r : nat) (l : list A) : option (list (list A)) :=
  if (r =? 0)%nat then None
  else if (length l mod r =? 0)%nat
       then Some (reshape_rows r (length l / r) l)
       else None.

(** Elementwise combination of two tensors of rank 1. *)
Fixpoint map2 (B C : Type) (f : A -> B -> C) (l : list A) (l' : list B)
  : list C :=
  match l, l' with
  | x :: r, y :: r' => f x y :: map2 f r r'
  | _, _ => []
  end.
End Tensor.

Arguments shape2 {A} t b m.
Arguments column {A} i m.
Arguments transpose {A} n m.
Arguments reshape_rows {A} r c l.
Arguments reshape_m1_c {A} c l.
Arguments reshape_r_m1 {A} r l.
Arguments map2 {A B C} f l l'.

(** ** Masks and lengths (NLCModel.__init__, lines 75-78) *)

(** Two's-complement wrap of [tf.int32] arithmetic. *)
Definition wrap32 (z : Z) : Z :=
  ((z + 2 ^ 31) mod 2 ^ 32 - 2 ^ 31)%Z.

Definition add32 (x y : Z) : Z := wrap32 (x + y).

(** [tf.reduce_sum(mask, reduction_indices=0)] on an int32 tensor of shape
    (time, batch_size): one sum per example. *)
Definition reduce_sum_axis0_i32 (batch_size : nat) (m : list (list Z))
  : list Z :=
  fold_left (map2 add32) m (repeat 0%Z batch_size).

(** [self.source_length] / [self.target_length]. *)
Definition sequence_length (batch_size : nat) (mask : list (list Z)) : list Z :=
  reduce_sum_axis0_i32 batch_size mask.

Fixpoint all_zero (l : list Z) : bool :=
  match l with
  | [] => true
  | x :: r => (x =? 0)%Z && all_zero r
  end.

(** A valid per-example mask: a run of 1s followed only by 0s. *)
Fixpoint prefix_of_ones (l : list Z) : bool :=
  match l with
  | [] => true
  | x :: r => if (x =? 1)%Z then prefix_of_ones r
              else (x =? 0)%Z && all_zero r
  end.

Fixpoint leading_ones (l : list Z) : nat :=
  match l with
  | [] => O
  | x :: r => if (x =? 1)%Z then S (leading_ones r) else O
  end.

(** Every example of the batch has a valid mask. *)
Definition valid_mask (batch_size : nat) (mask : list (list Z)) : Prop :=
  forall i, i < batch_size -> prefix_of_ones (column i mask) = true.

(** ** Downscale of the mask (NLCModel.downscale, lines 166-172) *)

Definition cast_bool (x : Z) : bool := negb (x =? 0)%Z.

Definition to_int32 (b : bool) : Z := if b then 1%Z else 0%Z.

Definition reduce_any (l : list bool) : bool := existsb (fun b => b) l.

Definition downscale_mask (batch_size : nat) (mask : list (list Z))
  : option (list (list Z)) :=
  let mask := transpose batch_size mask in
  mask <- reshape_m1_c 2 (concat mask) ;;
  let mask := map (map cast_bool) mask in
  let mask := map reduce_any mask in
  let mask := map to_int32 mask in
  let cols := (length mask / batch_size)%nat in
  mask <- reshape_r_m1 batch_size mask ;;
  Some (transpose cols mask).

(** ** Real-valued tensor primitives *)

Open Scope R_scope.

Definition Rsum (l : list R) : R := fold_right Rplus 0 l.

(** [tf.reduce_sum(x, reduction_indices=0)] on a float tensor (time, batch). *)
Definition reduce_sum_axis0 (batch_size : nat) (m : list (list R)) : list R :=
  fold_left (map2 Rplus) m (repeat 0 batch_size).

(** [tf.reduce_max(x, reduction_indices=0)].  On an empty time axis the
    value is unobservable in this graph (nothing is left to subtract it
    from); zeros stand for it. *)
Definition reduce_max_axis0 (batch_size : nat) (m : list (list R)) : list R :=
  match m with
  | [] => repeat 0 batch_size
  | r :: rs => fold_left (map2 Rmax) rs r
  end.

Definition dot (x y : list R) : R := Rsum (map2 Rmult x y).

Definition vadd (x y : list R) : list R := map2 Rplus x y.

Definition vscale (a : R) (x : list R) : list R := map (Rmult a) x.

(** [rnn_cell.linear(x, output_size, True)] on one row: [x @ W + b], with
    [W] given by its rows (one per input feature). *)
Definition matvec (output_size : nat) (x : list R) (W : list (list R))
  : list R :=
  fold_left vadd (map2 vscale x W) (repeat 0 output_size).

Definition linear (output_size : nat) (W : list (list R)) (b : list R)
  (x : list R) : list R :=
  vadd (matvec output_size x W) b.

Definition relu (x : R) : R := Rmax x 0.

(** ** Attention weights (GRUCellAttn.__call__, lines 50-58)

    The trailing axis of size one that [keep_dims=True] leaves on [weights]
    is elided: [weights] is a (time, batch) tensor here. *)

Definition attn_epsilon : R := 1 / 1000000.

(** Line 51: [reduce_sum(phi_hs * gamma_h, 2)], [gamma_h] broadcast over the
    encoder-time axis. *)
Definition attn_scores (phi_hs : list (list (list R)))
  (gamma_h : list (list R)) : list (list R) :=
  map (fun phi_t => map2 dot phi_t gamma_h) phi_hs.

(** Line 52: [exp(weights - reduce_max(weights, 0))]. *)
Definition attn_exp (batch_size : nat) (weights : list (list R))
  : list (list R) :=
  let mx := reduce_max_axis0 batch_size weights in
  map (fun w_t => map2 (fun w m => exp (w - m)) w_t mx) weights.

(** Line 53: [weights / (1e-6 + reduce_sum(weights, 0))]. *)
Definition attn_normalize (batch_size : nat) (weights : list (list R))
  : list (list R) :=
  let s := reduce_sum_axis0 batch_size weights in
  map (fun w_t => map2 (fun w z => w / (attn_epsilon + z)) w_t s) weights.

Definition attention_weights (batch_size : nat)
  (phi_hs : list (list (list R))) (gamma_h : list (list R))
  : list (list R) :=
  attn_normalize batch_size
    (attn_exp batch_size (attn_scores phi_hs gamma_h)).

(** Line 54: [reduce_sum(hs * weights, 0)]. *)
Definition attn_context (batch_size num_units : nat)
  (hs : list (list (list R))) (weights : list (list R)) : list (list R) :=
  fold_left (map2 vadd)
    (map2 (fun hs_t w_t => map2 (fun h w => vscale w h) hs_t w_t) hs weights)
    (repeat (repeat 0 num_units) batch_size).

Section GRUCellAttn.
Variable num_units batch_size : nat.
(** The inherited [GRUCell.__call__], on a batch of inputs and states. *)
Variable gru_call :
  list (list R) -> list (list R) -> list (list R) * list (list R).
(** Parameters of the "Attn2" and "AttnConcat" projections. *)
Variables (W_attn2 : list (list R)) (b_attn2 : list R).
Variables (W_concat : list (list R)) (b_concat : list R).
(** [self.hs] and [self.phi_hs], fixed at construction. *)
Variables hs phi_hs : list (list (list R)).

Definition gamma_of (gru_out : list (list R)) : list (list R) :=
  map (fun h => map tanh (linear num_units W_attn2 b_attn2 h)) gru_out.

Definition GRUCellAttn_call (inputs state : list (list R))
  : list (list R) * list (list R) :=
  let (gru_out, gru_state) := gru_call inputs state in
  let gamma_h := gamma_of gru_out in
  let weights := attention_weights batch_size phi_hs gamma_h in
  let context := attn_context batch_size num_units hs weights in
  let out :=
    map2 (fun c h => map relu (linear num_units W_concat b_concat (c ++ h)))
      context gru_out in
  (out, out).
End GRUCellAttn.

(** ** Downscale of the hidden sequence (NLCModel.downscale, lines 160-164) *)

(** [tf.reshape(x, [r, -1, c])] of a flat buffer. *)
Definition reshape_r_m1_c {A : Type} (r c : nat) (l : list A)
  : option (list (list (list A))) :=
  if (r * c =? 0)%nat then None
  else if (length l mod (r * c) =? 0)%nat
       then let m := (length l / (r * c))%nat in
            Some (map (reshape_rows m c) (reshape_rows r (m * c) l))
       else None.

Section Downscale.
Variable size batch_size : nat.
(** Parameters of the "Downscale" projection: [2 * size] rows of [size]. *)
Variables (W_down : list (list R)) (b_down : list R).

Definition downscale_inp (inp : list (list (list R)))
  : option (list (list (list R))) :=
  inp2d <- reshape_m1_c (2 * size)
             (concat (concat (transpose batch_size inp))) ;;
  let out2d := map (linear size W_down b_down) inp2d in
  let time := (length (concat out2d) / (batch_size * size))%nat in
  out3d <- reshape_r_m1_c batch_size size (concat out2d) ;;
  let out3d := transpose time out3d in
  Some (map (map (map tanh)) out3d).

Definition downscale (inp : list (list (list R))) (mask : list (list Z))
  : option (list (list (list R)) * list (list Z)) :=
  out <- downscale_inp inp ;;
  mask <- downscale_mask batch_size mask ;;
  Some (out, mask).
End Downscale.

(** ** Recurrence driver and the bidirectional layer
    (NLCModel.bidirectional_rnn, lines 175-191) *)

(** [tf.reverse_sequence(x, seq_lengths, seq_dim=0, batch_dim=1)]: for every
    example the first [seq_lengths[b]] time steps are reversed, the rest is
    copied.  The op rejects a length that is negative or beyond the time
    axis. *)
Definition reverse_prefix {A : Type} (len : nat) (l : list A) : list A :=
  rev (firstn len l) ++ skipn len l.

Definition reverse_sequence {A : Type} (batch_size : nat)
  (x : list (list A)) (seq_lengths : list Z) : option (list (list A)) :=
  if forallb (fun l => (0 <=? l)%Z && (l <=? Z.of_nat (length x))%Z)
       seq_lengths
  then Some (transpose (length x)
               (map2 (fun l col => reverse_prefix (Z.to_nat l) col)
                  seq_lengths (transpose batch_size x)))
  else None.

(** Elementwise sum of two (time, batch, size) tensors. *)
Definition tadd (x y : list (list (list R))) : list (list (list R)) :=
  map2 (map2 vadd) x y.

Section BidirectionalRnn.
Variable num_units batch_size : nat.

(** A recurrent cell applied to a batch: (inputs, state) to
    (output, new state). *)
Definition rnn_cell : Type :=
  list (list R) -> list (list R) -> list (list R) * list (list R).

Definition zero_state : list (list R) :=
  repeat (repeat 0 num_units) batch_size.

(** The per-example selection of [rnn.dynamic_rnn]: an example whose
    [sequence_length] is reached keeps [past], the others take [now]. *)
Definition copy_through (time : nat) (lengths : list Z)
  (past now : list (list R)) : list (list R) :=
  map2 (fun len pn =>
          if (len <=? Z.of_nat time)%Z then fst pn else snd pn)
    lengths (combine past now).

Fixpoint rnn_steps (cell : rnn_cell) (lengths : list Z) (time : nat)
  (inputs : list (list (list R))) (state : list (list R))
  : list (list (list R)) * list (list R) :=
  match inputs with
  | [] => ([], state)
  | x :: rest =>
      let (out, new_state) := cell x state in
      let out := copy_through time lengths zero_state out in
      let state := copy_through time lengths state new_state in
      let (outs, final) := rnn_steps cell lengths (S time) rest state in
      (out :: outs, final)
  end.

(** [rnn.dynamic_rnn(cell, inputs, time_major=True, sequence_length=...)]:
    outputs past an example's length are zero, its state is copied
    through. *)
Definition dynamic_rnn (cell : rnn_cell) (inputs : list (list (list R)))
  (lengths : list Z) : list (list (list R)) * list (list R) :=
  rnn_steps cell lengths 0 inputs zero_state.

(** The two passes run under the scopes "_FW" and "_BW": the same cell
    class with two parameter sets, hence two step functions. *)
Variables cell_fw cell_bw : rnn_cell.

Definition bidirectional_rnn (inputs : list (list (list R)))
  (lengths : list Z)
  : option (list (list (list R)) * list (list R)) :=
  let (output_fw, output_state_fw) := dynamic_rnn cell_fw inputs lengths in
  let (output_bw, output_state_bw) := dynamic_rnn cell_bw inputs lengths in
  output_bw <- reverse_sequence batch_size output_bw lengths ;;
  let outputs := tadd output_fw output_bw in
  let output_state := map2 vadd output_state_fw output_state_bw in
  Some (outputs, output_state).
End BidirectionalRnn.

(** ** Masked loss (NLCModel.setup_loss, lines 139-153) *)

(** [tf.slice(x, [1, 0], [-1, -1])]: every row but the first; out of range
    on an empty time axis. *)
Definition slice_from_row1 {A : Type} (x : list (list A))
  : option (list (list A)) :=
  match x with
  | [] => None
  | _ :: rest => Some rest
  end.

(** [tf.pad(x, [[0, 1], [0, 0]])]: one row of zeros after the last row. *)
Definition pad_row_after (batch_size : nat) (x : list (list Z))
  : list (list Z) :=
  x ++ [repeat 0%Z batch_size].

Definition softmax (logits : list R) : list R :=
  map (fun x => exp x / Rsum (map exp logits)) logits.

(** The value of the cross-entropy of one row against a class index. *)
Definition xent_value (logits : list R) (label : Z) : R :=
  ln (Rsum (map exp logits)) - nth (Z.to_nat label) logits 0.

(** One row of [tf.nn.sparse_softmax_cross_entropy_with_logits]: the label
    must be a class index. *)
Definition sparse_xent_row (logits : list R) (label : Z) : option R :=
  if (0 <=? label)%Z && (label <? Z.of_nat (length logits))%Z
  then Some (xent_value logits label)
  else None.

(** The op on a batch of rows: logits and labels must agree on the number
    of rows. *)
Fixpoint sparse_softmax_cross_entropy_with_logits
  (logits2d : list (list R)) (labels1d : list Z) : option (list R) :=
  match logits2d, labels1d with
  | [], [] => Some []
  | l :: ls, y :: ys =>
      x <- sparse_xent_row l y ;;
      xs <- sparse_softmax_cross_entropy_with_logits ls ys ;;
      Some (x :: xs)
  | _, _ => None
  end.

(** Elementwise product of two rank-1 tensors, with the broadcast of a
    tensor of one element. *)
Definition broadcast_mul (x y : list R) : option (list R) :=
  if (length x =? length y)%nat then Some (map2 Rmult x y)
  else match x, y with
       | [a], _ => Some (map (Rmult a) y)
       | _, [b] => Some (map (fun a => a * b) x)
       | _, _ => None
       end.

(** [tf.reshape(x, [-1, b, c])] of a flat buffer. *)
Definition reshape_m1_b_c {A : Type} (b c : nat) (l : list A)
  : option (list (list (list A))) :=
  if (b * c =? 0)%nat then None
  else if (length l mod (b * c) =? 0)%nat
       then Some (map (reshape_rows b c)
                    (reshape_rows (length l / (b * c)) (b * c) l))
       else None.

Section Loss.
Variable size vocab_size batch_size : nat.
(** Parameters of the "Logistic" projection. *)
Variables (W_logistic : list (list R)) (b_logistic : list R).

(** Lines 141-142. *)
Definition logits2d_of (decoder_output : list (list (list R)))
  : option (list (list R)) :=
  do2d <- reshape_m1_c size (concat (concat decoder_output)) ;;
  Some (map (linear vocab_size W_logistic b_logistic) do2d).

(** Lines 143-144: [self.outputs]. *)
Definition outputs_of (logits2d : list (list R))
  : option (list (list (list R))) :=
  let outputs2d := map softmax logits2d in
  reshape_m1_b_c batch_size vocab_size (concat outputs2d).

(** Lines 146-153: [self.losses]. *)
Definition losses_of (logits2d : list (list R))
  (target_tokens target_mask : list (list Z)) : option R :=
  targets_no_GO <- slice_from_row1 target_tokens ;;
  masks_no_GO <- slice_from_row1 target_mask ;;
  let labels1d := concat (pad_row_after batch_size targets_no_GO) in
  let mask1d := concat (pad_row_after batch_size masks_no_GO) in
  xent <- sparse_softmax_cross_entropy_with_logits logits2d labels1d ;;
  losses1d <- broadcast_mul xent (map IZR mask1d) ;;
  losses2d <- reshape_m1_c batch_size losses1d ;;
  Some (Rsum (concat losses2d) / INR batch_size).

Definition setup_loss (decoder_output : list (list (list R)))
  (target_tokens target_mask : list (list Z))
  : option (list (list (list R)) * R) :=
  logits2d <- logits2d_of decoder_output ;;
  outputs <- outputs_of logits2d ;;
  losses <- losses_of logits2d target_tokens target_mask ;;
  Some (outputs, losses).

(** The loss in the spec's words: targets and mask shifted left by one
    time step and closed by a row of zeros, per-token cross-entropies
    weighted by the shifted mask, summed and divided by the batch size. *)
Definition spec_shifted (x : list (list Z)) (t b : nat) : Z :=
  if (S t <? length x)%nat then nth b (nth (S t) x []) 0%Z else 0%Z.

Definition spec_masked_loss (logits2d : list (list R))
  (target_tokens target_mask : list (list Z)) : R :=
  Rsum (map (fun t =>
          Rsum (map (fun b =>
                  xent_value (nth (t * batch_size + b) logits2d [])
                             (spec_shifted target_tokens t b)
                  * IZR (spec_shifted target_mask t b))
               (seq 0 batch_size)))
       (seq 0 (length target_tokens)))
  / INR batch_size.
End Loss.

(** Writing one entry of a (time, batch) tensor: [x[t, b] = v]. *)
Fixpoint set_nth {A : Type} (n : nat) (v : A) (l : list A) : list A :=
  match l, n with
  | [], _ => []
  | _ :: r, O => v :: r
  | x :: r, S n' => x :: set_nth n' v r
  end.

Definition set_entry {A : Type} (t b : nat) (v : A) (x : list (list A))
  : list (list A) :=
  match nth_error x t with
  | Some row => set_nth t (set_nth b v row) x
  | None => x
  end.

(** ** Gradient clipping (tf.global_norm, tf.clip_by_global_norm) *)

Definition l2_loss (t : list R) : R := Rsum (map (fun x => x * x) t) / 2.

Definition global_norm (t_list : list (list R)) : R :=
  sqrt (2 * Rsum (map l2_loss t_list)).

Definition clip_by_global_norm (t_list : list (list R)) (clip_norm : R)
  : list (list R) * R :=
  let use_norm := global_norm t_list in
  let scale := clip_norm * Rmin (1 / use_norm) (1 / clip_norm) in
  (map (vscale scale) t_list, use_norm).

(** ** Training / inference driver (NLCModel.__init__, train, test) *)

Record feed : Type := Feed {
  source_tokens : list (list Z);
  source_mask : list (list Z);
  target_tokens : list (list Z);
  target_mask : list (list Z)
}.

(** What [session.run] hands back for one fetch. *)
Inductive value : Type :=
| V_none
| V_scalar (r : R)
| V_tensor (t : list (list (list R))).

(** The graph nodes the driver fetches. *)
Inductive fetch : Type :=
| F_updates
| F_gradient_norm
| F_losses
| F_param_norm
| F_outputs
| F_learning_rate_decay_op.

Section Driver.
(** The slots of the optimizer (moment estimates of Adam). *)
Variable opt_slots : Type.

(** The variables of the model: every trainable tensor, flattened, and
    the scalar training state. *)
Record model : Type := Model {
  params : list (list R);
  learning_rate : R;
  global_step : Z;
  slots : opt_slots
}.

Variable max_gradient_norm : R.
Variable learning_rate_decay_factor : R.
Variable forward_only : bool.

(** The forward graph up to [self.losses] and [self.outputs], as a
    function of the parameters and the fed batch. *)
Variable losses_graph : list (list R) -> feed -> option R.
Variable outputs_graph :
  list (list R) -> feed -> option (list (list (list R))).
(** [tf.gradients(self.losses, params)]: one tensor per parameter. *)
Variable gradients_graph : list (list R) -> feed -> option (list (list R)).
(** The update rule of [tf.train.AdamOptimizer], a black box: from the
    learning rate, the slots and the (gradient, parameter) pairs to the
    new slots and parameters. *)
Variable adam_apply :
  R -> opt_slots -> list (list R * list R) -> opt_slots * list (list R).

(** Line 70: [self.learning_rate.assign(self.learning_rate * factor)]. *)
Definition learning_rate_decay_op (m : model) : model :=
  Model (params m) (learning_rate m * learning_rate_decay_factor)
        (global_step m) (slots m).

(** Lines 89-91. *)
Definition gradient_norm_of (ps : list (list R)) (fd : feed) : option R :=
  gradients <- gradients_graph ps fd ;;
  let (clipped_gradients, _) :=
    clip_by_global_norm gradients max_gradient_norm in
  Some (global_norm clipped_gradients).

(** Lines 93-94: [opt.apply_gradients(zip(clipped, params), global_step)]. *)
Definition updates_op (m : model) (fd : feed) : option model :=
  gradients <- gradients_graph (params m) fd ;;
  let (clipped_gradients, _) :=
    clip_by_global_norm gradients max_gradient_norm in
  let (slots', params') :=
    adam_apply (learning_rate m) (slots m)
      (combine clipped_gradients (params m)) in
  Some (Model params' (learning_rate m) (global_step m + 1)%Z slots').

(** The value of a fetch, read from the variables the step started with:
    every fetched node is a function of the variables and the feed, and the
    graph puts no control dependency from [self.updates] to any of them (the
    order in which one step reads and assigns a variable is otherwise left
    to the engine).  The training nodes do not exist in a forward-only
    model. *)
Definition fetch_value (m : model) (fd : feed) (f : fetch) : option value :=
  match f with
  | F_updates =>
      if forward_only then None
      else _ <- gradients_graph (params m) fd ;; Some V_none
  | F_gradient_norm =>
      if forward_only then None
      else g <- gradient_norm_of (params m) fd ;; Some (V_scalar g)
  | F_losses => l <- losses_graph (params m) fd ;; Some (V_scalar l)
  | F_param_norm =>
      if forward_only then None
      else Some (V_scalar (global_norm (params m)))
  | F_outputs => o <- outputs_graph (params m) fd ;; Some (V_tensor o)
  | F_learning_rate_decay_op =>
      Some (V_scalar (learning_rate m * learning_rate_decay_factor))
  end.

(** The effect of a fetch on the variables. *)
Definition fetch_effect (m : model) (fd : feed) (f : fetch) : option model :=
  match f with
  | F_updates => if forward_only then None else updates_op m fd
  | F_learning_rate_decay_op => Some (learning_rate_decay_op m)
  | _ => Some m
  end.

Fixpoint fetch_values (m : model) (fd : feed) (fs : list fetch)
  : option (list value) :=
  match fs with
  | [] => Some []
  | f :: rest =>
      v <- fetch_value m fd f ;;
      vs <- fetch_values m fd rest ;;
      Some (v :: vs)
  end.

Fixpoint fetch_effects (m : model) (fd : feed) (fs : list fetch)
  : option model :=
  match fs with
  | [] => Some m
  | f :: rest => m' <- fetch_effect m fd f ;; fetch_effects m' fd rest
  end.

(** [session.run(output_feed, input_feed)]. *)
Definition session_run (m : model) (fs : list fetch) (fd : feed)
  : option (list value * model) :=
  outputs <- fetch_values m fd fs ;;
  m' <- fetch_effects m fd fs ;;
  Some (outputs, m').

(** Lines 193-204. *)
Definition train (m : model) (fd : feed)
  : option ((value * value * value) * model) :=
  let output_feed := [F_updates; F_gradient_norm; F_losses; F_param_norm] in
  r <- session_run m output_feed fd ;;
  let (outputs, m') := r in
  Some ((nth 1 outputs V_none, nth 2 outputs V_none, nth 3 outputs V_none),
        m').

(** Lines 206-217. *)
Definition test (m : model) (fd : feed)
  : option ((value * value) * model) :=
  let output_feed := [F_losses; F_outputs] in
  r <- session_run m output_feed fd ;;
  let (outputs, m') := r in
  Some ((nth 0 outputs V_none, nth 1 outputs V_none), m').
End Driver.

(** ** Construction of the attention cell (GRUCellAttn.__init__, lines 37-44) *)

(** [tf.reshape(x, [t, b, c])] of a flat buffer, every dimension given. *)
Definition reshape_t_b_c {A : Type} (t b c : nat) (l : list A)
  : option (list (list (list A))) :=
  if (length l =? t * (b * c))%nat
  then Some (map (reshape_rows b c) (reshape_rows t (b * c) l))
  else None.

(** [self.phi_hs]: the encoder output projected row by row ("Attn1") and
    laid out again in the shape of [self.hs], whose time dimension is read
    off the tensor and whose other dimensions are static. *)
Definition GRUCellAttn_init (num_units batch_size : nat)
  (W_attn1 : list (list R)) (b_attn1 : list R)
  (encoder_output : list (list (list R)))
  : option (list (list (list R))) :=
  let hs := encoder_output in
  hs2d <- reshape_m1_c num_units (concat (concat hs)) ;;
  let phi_hs2d :=
    map (fun h => map tanh (linear num_units W_attn1 b_attn1 h)) hs2d in
  reshape_t_b_c (length hs) batch_size num_units (concat phi_hs2d).

(** ** One example through the attention cell

    What lines 50-58 compute for a single example of the batch, from the
    example's encoder outputs [hs_b] and projections [phi_b] (one vector per
    encoder time step) and the example's row [h] of the GRU output. *)
Definition attn_example (num_units : nat)
  (W_attn2 : list (list R)) (b_attn2 : list R)
  (W_concat : list (list R)) (b_concat : list R)
  (hs_b phi_b : list (list R)) (h : list R) : list R :=
  let gamma := map tanh (linear num_units W_attn2 b_attn2 h) in
  let scores := map (fun phi => dot phi gamma) phi_b in
  let m := match scores with
           | [] => 0
           | x :: r => fold_left Rmax r x
           end in
  let e := map (fun x => exp (x - m)) scores in
  let w := map (fun x => x / (attn_epsilon + Rsum e)) e in
  let context :=
    fold_left vadd (map2 (fun v a => vscale a v) hs_b w)
      (repeat 0 num_units) in
  map relu (linear num_units W_concat b_concat (context ++ h)).

(** ** Embeddings and dropout
    (NLCModel.setup_embeddings, lines 98-103; NLCModel.dropout, lines 155-156) *)

Fixpoint omap {A B : Type} (f : A -> option B) (l : list A)
  : option (list B) :=
  match l with
  | [] => Some []
  | x :: r => y <- f x ;; ys <- omap f r ;; Some (y :: ys)
  end.

(** One index of [embedding_ops.embedding_lookup]: it must name a row of
    the table. *)
Definition embedding_row (L : list (list R)) (token : Z)
  : option (list R) :=
  if (0 <=? token)%Z && (token <? Z.of_nat (length L))%Z
  then Some (nth (Z.to_nat token) L [])
  else None.

Definition embedding_lookup (L : list (list R)) (tokens : list (list Z))
  : option (list (list (list R))) :=
  omap (omap (embedding_row L)) tokens.

(** [tf.nn.dropout(inp, keep_prob)]: [inp * (1 / keep_prob) * binary], where
    [binary] is the tensor of zeros and ones drawn for the run, of the shape
    of [inp]. *)
Definition dropout (keep_prob : R) (binary inp : list (list (list R)))
  : list (list (list R)) :=
  map2 (map2 (map2 (fun v n => v * / keep_prob * n))) inp binary.

(** ** Decoder (NLCModel.setup_decoder, lines 118-137) *)

Section Decoder.
Variable size batch_size : nat.
Variable keep_prob : R.
(** The GRU step of the plain layer under the scope "DecoderCell%d". *)
Variable decoder_cells : nat -> rnn_cell.
(** The GRU step the attention cell inherits, under "DecoderAttnCell". *)
Variable attn_gru : rnn_cell.
Variables (W_attn1 : list (list R)) (b_attn1 : list R).
Variables (W_attn2 : list (list R)) (b_attn2 : list R).
Variables (W_concat : list (list R)) (b_concat : list R).
(** The dropout draw of each layer. *)
Variable binary : nat -> list (list (list R)).

(** Lines 127-132: the loop over the [num_layers - 1] plain layers. *)
Fixpoint decoder_layers (todo i : nat) (inp : list (list (list R)))
  (target_length : list Z) : list (list (list R)) :=
  match todo with
  | O => inp
  | S todo' =>
      let (out, _) :=
        dynamic_rnn size batch_size (decoder_cells i)
          (dropout keep_prob (binary i) inp) target_length in
      decoder_layers todo' (S i) out target_length
  end.

Definition setup_decoder (num_layers : nat)
  (encoder_output decoder_inputs : list (list (list R)))
  (target_length : list Z) : option (list (list (list R))) :=
  phi_hs <- GRUCellAttn_init size batch_size W_attn1 b_attn1 encoder_output ;;
  let attn_cell :=
    GRUCellAttn_call size batch_size attn_gru W_attn2 b_attn2
      W_concat b_concat encoder_output phi_hs in
  let inp := decoder_layers (num_layers - 1) 0 decoder_inputs target_length in
  let (out, _) :=
    dynamic_rnn size batch_size attn_cell
      (dropout keep_prob (binary (num_layers - 1)) inp) target_length in
  Some out.

(** The target side of the graph, from a given encoder output to the loss:
    [target_length] (line 78), [decoder_inputs] (line 103), the decoder and
    the loss module, wired as in [__init__] (lines 80-83). *)
Definition target_losses (num_layers vocab_size : nat)
  (L_dec W_logistic : list (list R)) (b_logistic : list R)
  (encoder_output : list (list (list R)))
  (target_tokens target_mask : list (list Z)) : option R :=
  let target_length := sequence_length batch_size target_mask in
  decoder_inputs <- embedding_lookup L_dec target_tokens ;;
  decoder_output <-
    setup_decoder num_layers encoder_output decoder_inputs target_length ;;
  logits2d <-
    logits2d_of size vocab_size W_logistic b_logistic decoder_output ;;
  losses_of batch_size logits2d target_tokens target_mask.
End Decoder.

(** ** Encoder (NLCModel.setup_encoder, lines 105-116)

    [inp, mask = self.downscale(out, mask)] only builds nodes of the graph:
    the downscale of a layer is evaluated when the next layer asks for its
    input, and the downscale built after the last layer is never asked for.
    The loop below therefore carries the result of the downscale unforced
    and opens it at the start of the following iteration. *)

Section Encoder.
Variable size batch_size : nat.
Variable keep_prob : R.
(** The GRU steps of layer [i] under "EncoderCell%d_FW" and "..._BW". *)
Variables encoder_fw encoder_bw : nat -> rnn_cell.
(** The "Downscale" projection of layer [i]. *)
Variable W_down : nat -> list (list R).
Variable b_down : nat -> list R.
(** The dropout draw of each layer. *)
Variable binary : nat -> list (list (list R)).

Fixpoint encoder_layers (todo i : nat)
  (inp_mask : option (list (list (list R)) * list (list Z)))
  (out : option (list (list (list R)))) : option (list (list (list R))) :=
  match todo with
  | O => out
  | S todo' =>
      im <- inp_mask ;;
      let (inp, mask) := im in
      let srclen := reduce_sum_axis0_i32 batch_size mask in
      r <- bidirectional_rnn size batch_size (encoder_fw i) (encoder_bw i)
             (dropout keep_prob (binary i) inp) srclen ;;
      let (out, _) := r in
      encoder_layers todo' (S i)
        (downscale size batch_size (W_down i) (b_down i) out mask)
        (Some out)
  end.

(** [self.encoder_output]; with no layer at all it stays [None]. *)
Definition setup_encoder (num_layers : nat)
  (encoder_inputs : list (list (list R))) (source_mask : list (list Z))
  : option (list (list (list R))) :=
  encoder_layers num_layers 0 (Some (encoder_inputs, source_mask)) None.
End Encoder.

(** The source side of the graph, from the fed batch to the encoder
    output: [encoder_inputs] (line 102), then the encoder. *)
Definition source_encoding (size batch_size : nat) (keep_prob : R)
  (encoder_fw encoder_bw : nat -> rnn_cell)
  (W_down : nat -> list (list R)) (b_down : nat -> list R)
  (binary : nat -> list (list (list R))) (num_layers : nat)
  (L_enc : list (list R)) (source_tokens source_mask : list (list Z))
  : option (list (list (list R))) :=
  encoder_inputs <- embedding_lookup L_enc source_tokens ;;
  setup_encoder size batch_size keep_prob encoder_fw encoder_bw W_down b_down
    binary num_layers encoder_inputs source_mask.

(** ** Auxiliary notions used in the statements *)

(** The pooled value of two adjacent mask entries. *)
Definition pool_pair (x y : Z) : Z := to_int32 (cast_bool x || cast_bool y).

(** Shape predicate of a rank-3 tensor (time, batch, size). *)
Definition shape3 {A : Type} (t b c : nat) (x : list (list (list A))) : Prop :=
  length x = t /\
  Forall (fun row => length row = b /\ Forall (fun v => length v = c) row) x.

(** Entry [x[t, b]] of a tensor whose entries are feature vectors. *)
Definition at3 {A : Type} (x : list (list (list A))) (t b : nat) : list A :=
  nth b (nth t x []) [].

(** A token that is a vocabulary index. *)
Definition in_vocab (V : nat) (y : Z) : Prop := (0 <= y < Z.of_nat V)%Z.

(** A cell that works row by row on the batch: from [batch_size] input rows
    and [batch_size] state rows it yields as many output and state rows. *)
Definition cell_batch (batch_size : nat) (cell : rnn_cell) : Prop :=
  forall x s, length x = batch_size -> length s = batch_size ->
    length (fst (cell x s)) = batch_size /\
    length (snd (cell x s)) = batch_size.

(** A cell that works example by example: on [batch_size] input rows and
    state rows it yields [batch_size] output rows of [num_units] entries and
    as many state rows, and row [b] of its results depends on row [b] of
    its arguments only. *)
Definition cell_rowwise (num_units batch_size : nat) (cell : rnn_cell)
  : Prop :=
  (forall x s, length x = batch_size -> length s = batch_size ->
     shape2 batch_size num_units (fst (cell x s)) /\
     length (snd (cell x s)) = batch_size) /\
  (forall x x' s s' b,
     length x = batch_size -> length x' = batch_size ->
     length s = batch_size -> length s' = batch_size ->
     (b < batch_size)%nat ->
     nth b x [] = nth b x' [] -> nth b s [] = nth b s' [] ->
     nth b (fst (cell x s)) [] = nth b (fst (cell x' s')) [] /\
     nth b (snd (cell x s)) [] = nth b (snd (cell x' s')) []).

(** Two tensors that agree on every position inside the examples' lengths. *)
Definition agree_within (lengths : list Z) (x x' : list (list (list R)))
  : Prop :=
  forall t b, (Z.of_nat t < nth b lengths 0%Z)%Z -> at3 x t b = at3 x' t b.

(** The global norm in the words of the library's contract: the square
    root of the sum of the squares of all entries of all tensors. *)
Definition euclidean_norm (t_list : list (list R)) : R :=
  sqrt (Rsum (map (fun x => x * x) (concat t_list))).

(** Clipping by global norm in the words of the library's contract: every
    tensor becomes [t * clip_norm / max(global_norm, clip_norm)]. *)
Definition spec_clipped (t_list : list (list R)) (clip_norm : R)
  : list (list R) :=
  map (vscale (clip_norm / Rmax (euclidean_norm t_list) clip_norm)) t_list.

(** * Properties *)

Close Scope R_scope.

(** ** Nested lists: indexing lemmas *)

Section ListFacts.
Variable A : Type.
Implicit Types (l : list A) (m : list (list A)).

Lemma length_map2 (B C : Type) (f : A -> B -> C) l (l' : list B) :
  length (map2 f l l') = Nat.min (length l) (length l').
Proof.
  revert l'; induction l as [|x r IH]; intros [|y r']; simpl; auto.
Qed.

Lemma nth_map2 (B C : Type) (f : A -> B -> C) l (l' : list B) i dA dB dC :
  i < length l -> i < length l' ->
  nth i (map2 f l l') dC = f (nth i l dA) (nth i l' dB).
Proof.
  revert l' i; induction l as [|x r IH]; intros [|y r'] [|i]; simpl;
    intros; try lia; auto.
  apply IH; lia.
Qed.

Lemma column_map m i d b :
  Forall (fun r => length r = b) m -> i < b ->
  column i m = map (fun r => nth i r d) m.
Proof.
  intros Hm Hi; induction Hm as [|r m Hr _ IH]; simpl; auto.
  rewrite IH. destruct (nth_error r i) eqn:E.
  - simpl. f_equal. symmetry. apply nth_error_nth. exact E.
  - apply nth_error_None in E. lia.
Qed.

Lemma length_column m i b :
  Forall (fun r => length r = b) m -> i < b ->
  length (column i m) = length m.
Proof.
  intros Hm Hi; induction Hm as [|r m Hr _ IH]; simpl; auto.
  rewrite length_app, IH. destruct (nth_error r i) eqn:E; [reflexivity|].
  apply nth_error_None in E. lia.
Qed.

Lemma nth_column m i j b d :
  Forall (fun r => length r = b) m -> i < b ->
  nth j (column i m) d = nth i (nth j m []) d.
Proof.
  intros Hm Hi. rewrite (column_map d Hm Hi).
  destruct (Nat.lt_ge_cases j (length m)) as [Hj|Hj].
  - rewrite (nth_indep _ d (nth i [] d)) by (rewrite length_map; exact Hj).
    apply (map_nth (fun r => nth i r d)).
  - rewrite nth_overflow by (rewrite length_map; exact Hj).
    rewrite (nth_overflow m) by exact Hj. destruct i; reflexivity.
Qed.

Lemma length_transpose n m : length (transpose n m) = n.
Proof. unfold transpose. rewrite length_map, length_seq. reflexivity. Qed.

Lemma nth_transpose_row n m i :
  i < n -> nth i (transpose n m) [] = column i m.
Proof.
  intros Hi. unfold transpose.
  rewrite (nth_indep _ [] (column 0 m))
    by (rewrite length_map, length_seq; exact Hi).
  rewrite (map_nth (fun i => column i m)), seq_nth by exact Hi.
  reflexivity.
Qed.

Lemma transpose_rows n m :
  Forall (fun r => length r = n) m ->
  Forall (fun r => length r = length m) (transpose n m).
Proof.
  intros Hm. unfold transpose. apply Forall_forall. intros c Hc.
  apply in_map_iff in Hc. destruct Hc as (i & <- & Hi).
  apply in_seq in Hi. apply length_column with (b := n); [exact Hm | lia].
Qed.

Lemma nth_transpose n m i j d :
  Forall (fun r => length r = n) m -> i < n ->
  nth j (nth i (transpose n m) []) d = nth i (nth j m []) d.
Proof.
  intros Hm Hi. rewrite nth_transpose_row by exact Hi.
  apply nth_column with (b := n); assumption.
Qed.

Lemma length_reshape_rows r c l : length (reshape_rows r c l) = r.
Proof. revert l; induction r; simpl; intros; auto. Qed.

Lemma nth_reshape_rows r c l i :
  i < r -> nth i (reshape_rows r c l) [] = firstn c (skipn (i * c) l).
Proof.
  revert l i; induction r as [|r IH]; intros l [|i] Hi; simpl; try lia.
  - reflexivity.
  - rewrite IH by lia. rewrite skipn_skipn. do 2 f_equal. lia.
Qed.

Lemma reshape_rows_uniform r c l :
  r * c <= length l ->
  Forall (fun row => length row = c) (reshape_rows r c l).
Proof.
  revert l; induction r as [|r IH]; intros l Hl; simpl; constructor.
  - rewrite length_firstn. simpl in Hl. lia.
  - apply IH. rewrite length_skipn. simpl in Hl. lia.
Qed.

Lemma concat_reshape_rows r c l :
  length l = r * c -> concat (reshape_rows r c l) = l.
Proof.
  revert l; induction r as [|r IH]; intros l Hl; simpl.
  - destruct l; [reflexivity | discriminate].
  - rewrite IH by (rewrite length_skipn; simpl in Hl; lia).
    apply firstn_skipn.
Qed.

Lemma length_concat_uniform m c :
  Forall (fun r => length r = c) m -> length (concat m) = length m * c.
Proof.
  induction 1 as [|r m Hr _ IH]; simpl; auto.
  rewrite length_app, IH, Hr. reflexivity.
Qed.

Lemma skipn_concat_uniform m c i :
  Forall (fun r => length r = c) m ->
  skipn (i * c) (concat m) = concat (skipn i m).
Proof.
  intros Hm; revert i; induction Hm as [|r m Hr _ IH]; intros [|i]; simpl;
    auto.
  - apply skipn_nil.
  - rewrite skipn_app, Hr.
    replace (c + i * c - c) with (i * c) by lia.
    rewrite skipn_all2 by lia. simpl. apply IH.
Qed.

Lemma firstn_concat_uniform m c i :
  Forall (fun r => length r = c) m ->
  firstn (i * c) (concat m) = concat (firstn i m).
Proof.
  intros Hm; revert i; induction Hm as [|r m Hr _ IH]; intros [|i]; simpl;
    auto.
  - apply firstn_nil.
  - rewrite firstn_app, Hr.
    replace (c + i * c - c) with (i * c) by lia.
    rewrite firstn_all2 by lia. f_equal. apply IH.
Qed.

Lemma nth_concat_uniform m c i j d :
  Forall (fun r => length r = c) m -> j < c ->
  nth (i * c + j) (concat m) d = nth j (nth i m []) d.
Proof.
  intros Hm Hj; revert i; induction Hm as [|r m Hr _ IH]; intros i; simpl.
  - destruct (i * c + j), i, j; reflexivity.
  - destruct i as [|i]; simpl.
    + apply app_nth1. lia.
    + rewrite app_nth2 by lia. rewrite <- IH. f_equal. lia.
Qed.

Lemma nth_fold_left_map2 (f : A -> A -> A) m (init : list A) b i d :
  Forall (fun r => length r = b) m -> length init = b -> i < b ->
  nth i (fold_left (map2 f) m init) d
  = fold_left f (map (fun r => nth i r d) m) (nth i init d).
Proof.
  intros Hm; revert init; induction Hm as [|r m Hr _ IH]; intros init Hi Hb;
    simpl; auto.
  rewrite IH; try assumption.
  - f_equal. apply nth_map2; lia.
  - rewrite length_map2. lia.
Qed.

Lemma length_fold_left_map2 (f : A -> A -> A) m (init : list A) b :
  Forall (fun r => length r = b) m -> length init = b ->
  length (fold_left (map2 f) m init) = b.
Proof.
  intros Hm; revert init; induction Hm as [|r m Hr _ IH]; intros init Hi;
    simpl; auto.
  apply IH. rewrite length_map2. lia.
Qed.
End ListFacts.

(** ** Lengths from masks *)

Lemma wrap32_small z : (- 2 ^ 31 <= z < 2 ^ 31)%Z -> wrap32 z = z.
Proof. intros H. unfold wrap32. rewrite Z.mod_small; lia. Qed.

Lemma fold_add32_zeros l z :
  all_zero l = true -> (- 2 ^ 31 <= z < 2 ^ 31)%Z -> fold_left add32 l z = z.
Proof.
  revert z; induction l as [|x r IH]; simpl; intros z Hz Hr; auto.
  apply andb_true_iff in Hz. destruct Hz as [Hx Hz].
  apply Z.eqb_eq in Hx. subst x.
  unfold add32 at 2. rewrite Z.add_0_r, wrap32_small by exact Hr.
  apply IH; assumption.
Qed.

Lemma fold_add32_prefix l k :
  prefix_of_ones l = true ->
  (Z.of_nat (k + length l) < 2 ^ 31)%Z ->
  fold_left add32 l (Z.of_nat k) = Z.of_nat (k + leading_ones l).
Proof.
  revert k; induction l as [|x r IH]; simpl; intros k Hp Hb.
  - f_equal. lia.
  - destruct (x =? 1)%Z eqn:E.
    + apply Z.eqb_eq in E. subst x.
      unfold add32 at 2. rewrite wrap32_small by lia.
      replace (Z.of_nat k + 1)%Z with (Z.of_nat (S k)) by lia.
      rewrite IH by (try assumption; lia). f_equal. lia.
    + apply andb_true_iff in Hp. destruct Hp as [Hx Hz].
      apply Z.eqb_eq in Hx. subst x.
      unfold add32 at 2. rewrite Z.add_0_r, wrap32_small by lia.
      rewrite fold_add32_zeros by (try assumption; lia). f_equal. lia.
Qed.

Lemma length_sequence_length B T mask :
  shape2 T B mask -> length (sequence_length B mask) = B.
Proof.
  intros [_ Hm]. unfold sequence_length, reduce_sum_axis0_i32.
  apply length_fold_left_map2; [exact Hm | apply repeat_length].
Qed.

Lemma nth_sequence_length B T mask i :
  shape2 T B mask -> i < B ->
  nth i (sequence_length B mask) 0%Z = fold_left add32 (column i mask) 0%Z.
Proof.
  intros [_ Hm] Hi. unfold sequence_length, reduce_sum_axis0_i32.
  rewrite nth_fold_left_map2 with (b := B);
    [| exact Hm | apply repeat_length | exact Hi].
  rewrite <- (column_map 0%Z Hm Hi).
  f_equal. apply nth_repeat.
Qed.

(** C6. For a mask of shape (time, batch) whose every column is a run of 1s
    followed by 0s, the length vector obtained by summing the mask along the
    time axis has one entry per example, and entry [i] is the number of
    leading 1s of column [i]. *)
Theorem sequence_length_counts_leading_ones B T mask :
  shape2 T B mask -> (Z.of_nat T < 2 ^ 31)%Z -> valid_mask B mask ->
  length (sequence_length B mask) = B /\
  forall i, i < B ->
    nth i (sequence_length B mask) 0%Z
    = Z.of_nat (leading_ones (column i mask)).
Proof.
  intros Hs HT Hv. split; [eapply length_sequence_length; eassumption|].
  intros i Hi. rewrite (nth_sequence_length Hs Hi).
  destruct Hs as [HT' Hm].
  change 0%Z with (Z.of_nat 0).
  rewrite fold_add32_prefix.
  - reflexivity.
  - apply Hv. exact Hi.
  - rewrite (length_column Hm Hi). simpl. lia.
Qed.

Lemma sequence_length_counts_leading_ones_witness :
  nth 0 (sequence_length 2 [[1;1];[1;0];[0;0]]%Z) 0%Z = 2%Z /\
  nth 1 (sequence_length 2 [[1;1];[1;0];[0;0]]%Z) 0%Z = 1%Z.
Proof.
  assert (Hs : shape2 3 2 [[1;1];[1;0];[0;0]]%Z).
  { split; [reflexivity | repeat constructor]. }
  assert (Hv : valid_mask 2 [[1;1];[1;0];[0;0]]%Z).
  { intros [|[|i]] Hi; try reflexivity. lia. }
  destruct (@sequence_length_counts_leading_ones 2 3 _ Hs ltac:(reflexivity) Hv)
    as [_ H].
  split; [rewrite (H 0%nat) by lia | rewrite (H 1%nat) by lia]; reflexivity.
Defined.

(** ** Reshapes that pass and reshapes that fail *)

Lemma reshape_m1_c_ok (A : Type) c n (l : list A) :
  0 < c -> length l = n * c ->
  reshape_m1_c c l = Some (reshape_rows n c l).
Proof.
  intros Hc Hl. unfold reshape_m1_c.
  destruct (c =? 0)%nat eqn:E; [apply Nat.eqb_eq in E; lia|].
  rewrite Hl, Nat.Div0.mod_mul, Nat.div_mul by lia. reflexivity.
Qed.

Lemma reshape_m1_c_fail (A : Type) c q r (l : list A) :
  0 < r < c -> length l = r + q * c -> reshape_m1_c c l = None.
Proof.
  intros Hr Hl. unfold reshape_m1_c.
  destruct (c =? 0)%nat eqn:E; [reflexivity|].
  rewrite Hl, Nat.Div0.mod_add, Nat.mod_small by lia.
  destruct (r =? 0)%nat eqn:E'; [apply Nat.eqb_eq in E'; lia | reflexivity].
Qed.

Lemma reshape_r_m1_c_ok (A : Type) r c n (l : list A) :
  0 < r * c -> length l = n * (r * c) ->
  reshape_r_m1_c r c l
  = Some (map (reshape_rows n c) (reshape_rows r (n * c) l)).
Proof.
  intros Hc Hl. unfold reshape_r_m1_c.
  destruct (r * c =? 0)%nat eqn:E; [apply Nat.eqb_eq in E; lia|].
  rewrite Hl, Nat.Div0.mod_mul, Nat.div_mul by lia. reflexivity.
Qed.

Lemma reshape_r_m1_c_fail (A : Type) r c q x (l : list A) :
  0 < x < r * c -> length l = x + q * (r * c) ->
  reshape_r_m1_c r c l = None.
Proof.
  intros Hx Hl. unfold reshape_r_m1_c.
  destruct (r * c =? 0)%nat eqn:E; [reflexivity|].
  rewrite Hl, Nat.Div0.mod_add, Nat.mod_small by lia.
  destruct (x =? 0)%nat eqn:E'; [apply Nat.eqb_eq in E'; lia | reflexivity].
Qed.

Lemma reshape_r_m1_fail (A : Type) r q x (l : list A) :
  0 < x < r -> length l = x + q * r -> reshape_r_m1 r l = None.
Proof.
  intros Hx Hl. unfold reshape_r_m1.
  destruct (r =? 0)%nat eqn:E; [reflexivity|].
  rewrite Hl, Nat.Div0.mod_add, Nat.mod_small by lia.
  destruct (x =? 0)%nat eqn:E'; [apply Nat.eqb_eq in E'; lia | reflexivity].
Qed.

(** ** Downscale of the mask *)

Lemma firstn2_skipn (A : Type) (l : list A) n d :
  S n < length l -> firstn 2 (skipn n l) = [nth n l d; nth (S n) l d].
Proof.
  revert n; induction l as [|x r IH]; intros n Hn; simpl in Hn; [lia|].
  destruct n as [|n].
  - destruct r as [|y r]; simpl in *; [lia | reflexivity].
  - simpl skipn. rewrite IH by lia. reflexivity.
Qed.

Lemma nth_firstn_skipn (A : Type) (l : list A) a c j d :
  j < c -> nth j (firstn c (skipn a l)) d = nth (a + j) l d.
Proof.
  intros Hj. rewrite nth_firstn.
  destruct (j <? c)%nat eqn:E; [| apply Nat.ltb_ge in E; lia].
  apply nth_skipn.
Qed.

Lemma downscale_mask_even_gen B k mask :
  0 < B -> shape2 (2 * k) B mask ->
  exists out,
    downscale_mask B mask = Some out /\
    shape2 k B out /\
    forall j b, j < k -> b < B ->
      nth b (nth j out []) 0%Z
      = pool_pair (nth b (nth (2 * j) mask []) 0%Z)
                  (nth b (nth (2 * j + 1) mask []) 0%Z).
Proof.
  intros HB [HT Hm]. unfold downscale_mask.
  set (flat := concat (transpose B mask)).
  assert (Hcols : Forall (fun r => length r = 2 * k) (transpose B mask)).
  { rewrite <- HT. apply transpose_rows. exact Hm. }
  assert (Hflat : length flat = (B * k) * 2).
  { unfold flat. rewrite (length_concat_uniform Hcols), length_transpose. lia. }
  unfold reshape_m1_c. simpl (2 =? 0)%nat. cbv iota.
  rewrite Hflat, Nat.Div0.mod_mul, Nat.div_mul by lia. simpl obind.
  set (rows := reshape_rows (B * k) 2 flat).
  set (v := map to_int32 (map reduce_any (map (map cast_bool) rows))).
  assert (Hv : length v = B * k).
  { unfold v, rows. rewrite !length_map, length_reshape_rows. reflexivity. }
  unfold reshape_r_m1. rewrite Hv.
  destruct (B =? 0)%nat eqn:EB; [apply Nat.eqb_eq in EB; lia|].
  rewrite (Nat.mul_comm B k), Nat.Div0.mod_mul, Nat.div_mul by lia.
  simpl obind. eexists; split; [reflexivity|].
  assert (Hu : Forall (fun r => length r = k) (reshape_rows B k v)).
  { apply reshape_rows_uniform. lia. }
  split.
  - split; [apply length_transpose|].
    pose proof (transpose_rows Hu) as H.
    rewrite length_reshape_rows in H. exact H.
  - intros j b Hj Hb.
    rewrite (nth_transpose _ 0%Z Hu Hj).
    rewrite nth_reshape_rows by exact Hb.
    rewrite nth_firstn_skipn by exact Hj.
    unfold v. change 0%Z with (to_int32 false) at 1. rewrite map_nth.
    change false with (reduce_any []). rewrite map_nth.
    change (@nil bool) with (map cast_bool []). rewrite map_nth.
    unfold rows. rewrite nth_reshape_rows by nia.
    rewrite (@firstn2_skipn _ flat _ 0%Z) by nia.
    unfold flat.
    replace ((b * k + j) * 2) with (b * (2 * k) + 2 * j) by lia.
    replace (S (b * (2 * k) + 2 * j)) with (b * (2 * k) + (2 * j + 1)) by lia.
    rewrite !(nth_concat_uniform _ _ Hcols) by lia.
    rewrite !(nth_transpose _ _ Hm Hb).
    unfold pool_pair, reduce_any. simpl. rewrite orb_false_r. reflexivity.
Qed.

Lemma prefix_of_ones_binary l x :
  prefix_of_ones l = true -> In x l -> x = 0%Z \/ x = 1%Z.
Proof.
  induction l as [|y r IH]; simpl; intros Hp Hin; [contradiction|].
  destruct (y =? 1)%Z eqn:E.
  - apply Z.eqb_eq in E. destruct Hin as [->|Hin]; auto.
  - apply andb_true_iff in Hp. destruct Hp as [Hy Hz].
    apply Z.eqb_eq in Hy. destruct Hin as [->|Hin]; auto.
    left. clear IH E Hy. induction r as [|z r IH]; [contradiction|].
    simpl in Hz. apply andb_true_iff in Hz. destruct Hz as [Hz Hr].
    apply Z.eqb_eq in Hz. destruct Hin as [->|Hin]; auto.
Qed.

Lemma valid_mask_binary B T mask t b :
  shape2 T B mask -> valid_mask B mask -> t < T -> b < B ->
  nth b (nth t mask []) 0%Z = 0%Z \/ nth b (nth t mask []) 0%Z = 1%Z.
Proof.
  intros [HT Hm] Hv Ht Hb.
  apply (prefix_of_ones_binary (column b mask)); [apply Hv; exact Hb|].
  rewrite <- (nth_column _ 0%Z Hm Hb).
  apply nth_In. rewrite (length_column Hm Hb). lia.
Qed.

Lemma pool_pair_binary x y :
  (x = 0 \/ x = 1)%Z -> (y = 0 \/ y = 1)%Z ->
  pool_pair x y = 1%Z <-> x = 1%Z \/ y = 1%Z.
Proof.
  intros [-> | ->] [-> | ->]; unfold pool_pair; simpl; split; intros H; auto;
    try discriminate; destruct H; discriminate.
Qed.

Lemma downscale_mask_odd B k mask :
  0 < B -> shape2 (2 * k + 1) B mask -> downscale_mask B mask = None.
Proof.
  intros HB [HT Hm]. unfold downscale_mask. cbv zeta.
  set (flat := concat (transpose B mask)).
  assert (Hcols : Forall (fun r => length r = 2 * k + 1) (transpose B mask)).
  { rewrite <- HT. apply transpose_rows. exact Hm. }
  assert (Hflat : length flat = B * (2 * k + 1)).
  { unfold flat. rewrite (length_concat_uniform Hcols), length_transpose.
    reflexivity. }
  destruct (Nat.Even_or_Odd B) as [[c Hc] | [c Hc]].
  - rewrite (@reshape_m1_c_ok _ 2 (c * (2 * k + 1)) flat)
      by (try rewrite Hflat, Hc; lia).
    cbv beta iota delta [obind].
    rewrite (@reshape_r_m1_fail _ B k c); [reflexivity | lia |].
    rewrite !length_map, length_reshape_rows. lia.
  - rewrite (@reshape_m1_c_fail _ 2 (2 * c * k + c + k) 1 flat);
      [reflexivity | lia |]. rewrite Hflat, Hc. lia.
Qed.

(** C1 (as the code has it). For a batch size of at least one and a mask of
    [T] time steps whose columns are valid prefix-of-ones masks: when [T] is
    even the downscale of the mask succeeds, its result has [T / 2] time
    steps of [batch_size] entries, every entry is 0 or 1, and the entry at
    position [j] of example [b] is 1 exactly when the input mask of that
    example is 1 at position [2 * j] or at position [2 * j + 1]; when [T] is
    odd the operation yields no mask. *)
Theorem downscale_mask_halves_even B T mask :
  0 < B -> shape2 T B mask -> valid_mask B mask ->
  (Nat.even T = true ->
   exists out,
     downscale_mask B mask = Some out /\
     shape2 (T / 2) B out /\
     forall j b, j < T / 2 -> b < B ->
       (nth b (nth j out []) 0%Z = 0%Z \/ nth b (nth j out []) 0%Z = 1%Z) /\
       (nth b (nth j out []) 0%Z = 1%Z <->
        nth b (nth (2 * j) mask []) 0%Z = 1%Z \/
        nth b (nth (2 * j + 1) mask []) 0%Z = 1%Z)) /\
  (Nat.even T = false -> downscale_mask B mask = None).
Proof.
  intros HB Hs Hv. split; intros HT.
  - apply Nat.even_spec in HT. destruct HT as [k ->].
    replace (2 * k / 2) with k by (rewrite Nat.mul_comm, Nat.div_mul; lia).
    destruct (@downscale_mask_even_gen B k mask HB Hs)
      as (out & Hout & Hshape & Hnth).
    exists out. split; [exact Hout|]. split; [exact Hshape|].
    intros j b Hj Hb. rewrite (Hnth j b Hj Hb). split.
    + unfold pool_pair. destruct (_ || _); simpl; auto.
    + apply pool_pair_binary;
        apply (valid_mask_binary (T := 2 * k) (B := B)); auto; lia.
  - assert (Ho : Nat.odd T = true).
    { unfold Nat.odd. rewrite HT. reflexivity. }
    apply Nat.odd_spec in Ho. destruct Ho as [k ->].
    apply (@downscale_mask_odd B k mask HB Hs).
Qed.

Lemma downscale_mask_halves_even_witness :
  exists out,
    downscale_mask 2 [[1;1];[1;1];[0;1];[0;1]]%Z = Some out /\
    shape2 2 2 out.
Proof.
  assert (Hs : shape2 4 2 [[1;1];[1;1];[0;1];[0;1]]%Z).
  { split; [reflexivity | repeat constructor]. }
  assert (Hv : valid_mask 2 [[1;1];[1;1];[0;1];[0;1]]%Z).
  { intros [|[|i]] Hi; try reflexivity. lia. }
  destruct (@downscale_mask_halves_even 2 4 _ ltac:(lia) Hs Hv)
    as [Heven _].
  destruct (Heven eq_refl) as (out & Hout & Hshape & _).
  exists out. split; assumption.
Defined.

(** C1 (as stated) fails on an odd time dimension: three time steps of two
    valid examples (lengths 2 and 1) pass the pairing reshape, but the three
    pooled values cannot be laid out as two examples, so the operation yields
    no mask at all, of neither the floor nor the ceiling of 3 / 2 steps. *)
Lemma downscale_mask_odd_fails :
  shape2 3 2 [[1;1];[1;0];[0;0]]%Z /\
  prefix_of_ones (column 0 [[1;1];[1;0];[0;0]]%Z) = true /\
  prefix_of_ones (column 1 [[1;1];[1;0];[0;0]]%Z) = true /\
  downscale_mask 2 [[1;1];[1;0];[0;0]]%Z = None.
Proof.
  repeat split; try reflexivity. repeat constructor.
Qed.

(** ** Downscale of the hidden sequence *)

Lemma shape3_rows (A : Type) t b c (x : list (list (list A))) :
  shape3 t b c x -> Forall (fun row => length row = b) x.
Proof.
  intros [_ H]. eapply Forall_impl; [| exact H]. simpl. tauto.
Qed.

Lemma shape3_vectors (A : Type) t b c (x : list (list (list A))) :
  shape3 t b c x ->
  Forall (fun v => length v = c) (concat (transpose b x)).
Proof.
  intros [_ H]. apply Forall_forall. intros v Hv.
  apply in_concat in Hv. destruct Hv as (col & Hcol & Hv).
  unfold transpose in Hcol. apply in_map_iff in Hcol.
  destruct Hcol as (i & <- & _).
  unfold column in Hv. apply in_flat_map in Hv.
  destruct Hv as (row & Hrow & Hv).
  destruct (nth_error row i) eqn:E; [| contradiction].
  destruct Hv as [<- | []].
  rewrite Forall_forall in H. destruct (H row Hrow) as [_ Hr].
  rewrite Forall_forall in Hr. apply Hr. eapply nth_error_In. exact E.
Qed.

Lemma length_columns3 (A : Type) t b c (x : list (list (list A))) :
  shape3 t b c x -> length (concat (transpose b x)) = b * t.
Proof.
  intros Hs. pose proof (shape3_rows Hs) as Hr. destruct Hs as [Ht _].
  rewrite (length_concat_uniform (transpose_rows Hr)), length_transpose, Ht.
  reflexivity.
Qed.

Lemma nth_columns3 (A : Type) t b c (x : list (list (list A))) i j :
  shape3 t b c x -> i < b -> j < t ->
  nth (i * t + j) (concat (transpose b x)) [] = at3 x j i.
Proof.
  intros Hs Hi Hj. pose proof (shape3_rows Hs) as Hr. destruct Hs as [Ht _].
  pose proof (transpose_rows Hr) as Hc. rewrite Ht in Hc.
  rewrite (nth_concat_uniform _ _ Hc) by exact Hj.
  apply nth_transpose; assumption.
Qed.

Lemma Forall_skipn_keep (A : Type) (P : A -> Prop) n (l : list A) :
  Forall P l -> Forall P (skipn n l).
Proof.
  intros H; revert n; induction H as [|x l Hx Hl IH]; intros [|n]; simpl;
    try constructor; auto.
Qed.

Lemma Forall_firstn_keep (A : Type) (P : A -> Prop) n (l : list A) :
  Forall P l -> Forall P (firstn n l).
Proof.
  intros H; revert n; induction H as [|x l Hx Hl IH]; intros [|n]; simpl;
    try constructor; auto.
Qed.

(** Row [i] of the reshape to doubled width is the concatenation of the
    vectors [2 * i] and [2 * i + 1] of the flattened sequence. *)
Lemma nth_reshape_pairs (A : Type) (vs : list (list A)) s n i :
  Forall (fun v => length v = s) vs -> 2 * i + 1 < length vs -> i < n ->
  nth i (reshape_rows n (2 * s) (concat vs)) []
  = nth (2 * i) vs [] ++ nth (2 * i + 1) vs [].
Proof.
  intros Hvs Hi Hn. rewrite nth_reshape_rows by exact Hn.
  replace (i * (2 * s)) with ((2 * i) * s) by lia.
  rewrite (skipn_concat_uniform _ Hvs).
  pose proof (Forall_skipn_keep (2 * i) Hvs) as Hsk.
  rewrite (firstn_concat_uniform _ Hsk).
  rewrite (@firstn2_skipn _ vs (2 * i) []) by lia.
  simpl concat. rewrite app_nil_r. do 2 f_equal. lia.
Qed.

Lemma reshape_rows_concat (A : Type) (ws : list (list A)) c :
  Forall (fun v => length v = c) ws ->
  reshape_rows (length ws) c (concat ws) = ws.
Proof.
  induction 1 as [|w ws Hw _ IH]; simpl; [reflexivity|].
  rewrite firstn_app, skipn_app, Hw, Nat.sub_diag. simpl.
  rewrite firstn_all2, skipn_all2 by lia. simpl.
  rewrite app_nil_r, IH. reflexivity.
Qed.

Lemma nth_map_lt (A B : Type) (f : A -> B) (l : list A) i dA dB :
  i < length l -> nth i (map f l) dB = f (nth i l dA).
Proof.
  intros Hi. rewrite (nth_indep _ dB (f dA)) by (rewrite length_map; exact Hi).
  apply map_nth.
Qed.

Lemma nth_map_map_nil (A B : Type) (f : A -> B) (l : list (list A)) i :
  nth i (map (map f) l) [] = map f (nth i l []).
Proof. exact (map_nth (map f) l [] i). Qed.

Lemma reshape_rows_seq (A : Type) r c (l : list A) :
  reshape_rows r c l
  = map (fun i => firstn c (skipn (i * c) l)) (seq 0 r).
Proof.
  apply nth_ext with (d := []) (d' := []).
  - rewrite length_reshape_rows, length_map, length_seq. reflexivity.
  - intros i Hi. rewrite length_reshape_rows in Hi.
    rewrite nth_reshape_rows by exact Hi.
    rewrite (nth_map_lt _ _ 0%nat) by (rewrite length_seq; exact Hi).
    rewrite seq_nth by exact Hi. reflexivity.
Qed.

Lemma Forall_column (A : Type) (P : A -> Prop) i (m : list (list A)) :
  Forall (Forall P) m -> Forall P (column i m).
Proof.
  induction 1 as [|r m Hr _ IH]; simpl; [constructor|].
  apply Forall_app. split; [| exact IH].
  destruct (nth_error r i) eqn:E; constructor; [| constructor].
  rewrite Forall_forall in Hr. apply Hr. eapply nth_error_In. exact E.
Qed.

Lemma Forall_map2_vscale x (W : list (list R)) c :
  Forall (fun r => length r = c) W ->
  Forall (fun r => length r = c) (map2 vscale x W).
Proof.
  intros HW; revert x; induction HW as [|r W Hr _ IH]; intros [|a x]; simpl;
    constructor.
  - unfold vscale. rewrite length_map. exact Hr.
  - apply IH.
Qed.

Lemma length_linear c (W : list (list R)) bias x :
  Forall (fun r => length r = c) W -> length bias = c ->
  length (linear c W bias x) = c.
Proof.
  intros HW Hb. unfold linear, vadd at 1. rewrite length_map2.
  unfold matvec.
  change (fold_left vadd) with (fold_left (map2 Rplus)).
  rewrite (@length_fold_left_map2 R Rplus (map2 vscale x W) (repeat 0%R c) c).
  - lia.
  - apply Forall_map2_vscale. exact HW.
  - apply repeat_length.
Qed.

Section DownscaleFacts.
Variables (size B : nat) (W : list (list R)) (bias : list R).
Hypothesis Hsize : 0 < size.
Hypothesis HB : 0 < B.
Hypothesis HW : shape2 (2 * size) size W.
Hypothesis Hbias : length bias = size.

Lemma lin_rows (rows : list (list R)) :
  Forall (fun v => length v = size) (map (linear size W bias) rows).
Proof.
  apply Forall_forall. intros v Hv. apply in_map_iff in Hv.
  destruct Hv as (x & <- & _). apply length_linear; [apply HW | exact Hbias].
Qed.

Lemma downscale_inp_even k inp :
  shape3 (2 * k) B size inp ->
  exists out,
    downscale_inp size B W bias inp = Some out /\
    shape3 k B size out /\
    forall j b, j < k -> b < B ->
      at3 out j b
      = map tanh ((linear size W bias) (at3 inp (2 * j) b ++ at3 inp (2 * j + 1) b)).
Proof.
  intros Hs. unfold downscale_inp. cbv zeta.
  pose proof (shape3_vectors Hs) as Hvs.
  pose proof (length_columns3 Hs) as Hlen.
  set (vs := concat (transpose B inp)) in *.
  assert (Hflat : length (concat vs) = (B * k) * (2 * size)).
  { rewrite (length_concat_uniform Hvs), Hlen. lia. }
  rewrite (@reshape_m1_c_ok _ (2 * size) (B * k)) by (try exact Hflat; lia).
  cbv beta iota delta [obind].
  set (inp2d := reshape_rows (B * k) (2 * size) (concat vs)).
  set (out2d := map (linear size W bias) inp2d).
  assert (Hout2d : Forall (fun v => length v = size) out2d)
    by apply lin_rows.
  assert (Hn2d : length out2d = B * k).
  { unfold out2d, inp2d. rewrite length_map, length_reshape_rows.
    reflexivity. }
  assert (Hflat2 : length (concat out2d) = k * (B * size)).
  { rewrite (length_concat_uniform Hout2d), Hn2d. lia. }
  rewrite (@reshape_r_m1_c_ok _ B size k) by (try exact Hflat2; nia).
  rewrite Hflat2, Nat.div_mul by nia.
  cbv beta iota delta [obind].
  set (pre := map (reshape_rows k size)
                (reshape_rows B (k * size) (concat out2d))).
  assert (Hpre : pre = map (fun b => firstn k (skipn (b * k) out2d))
                         (seq 0 B)).
  { unfold pre. rewrite reshape_rows_seq, map_map.
    apply map_ext_in. intros b Hb. apply in_seq in Hb.
    replace (b * (k * size)) with ((b * k) * size) by lia.
    rewrite (skipn_concat_uniform _ Hout2d).
    rewrite (firstn_concat_uniform _ (Forall_skipn_keep (b * k) Hout2d)).
    set (ws := firstn k (skipn (b * k) out2d)).
    assert (Hws : length ws = k).
    { unfold ws. rewrite length_firstn, length_skipn, Hn2d. nia. }
    rewrite <- Hws at 1. apply reshape_rows_concat.
    unfold ws. apply Forall_firstn_keep, Forall_skipn_keep. exact Hout2d. }
  assert (Hprek : Forall (fun r => length r = k) pre).
  { unfold pre. apply Forall_forall. intros r Hr. apply in_map_iff in Hr.
    destruct Hr as (x & <- & _). apply length_reshape_rows. }
  assert (Hprev : Forall (Forall (fun v => length v = size)) pre).
  { rewrite Hpre. apply Forall_forall. intros r Hr. apply in_map_iff in Hr.
    destruct Hr as (b & <- & _).
    apply Forall_firstn_keep, Forall_skipn_keep. exact Hout2d. }
  assert (HpreB : length pre = B).
  { unfold pre. rewrite length_map, length_reshape_rows. reflexivity. }
  eexists; split; [reflexivity|]. split.
  - split; [rewrite length_map; apply length_transpose|].
    apply Forall_forall. intros row Hrow. apply in_map_iff in Hrow.
    destruct Hrow as (col & <- & Hcol). rewrite length_map.
    pose proof (transpose_rows Hprek) as Hc.
    rewrite Forall_forall in Hc. split; [rewrite (Hc _ Hcol); exact HpreB|].
    unfold transpose in Hcol. apply in_map_iff in Hcol.
    destruct Hcol as (j & <- & _).
    apply Forall_forall. intros v Hv. apply in_map_iff in Hv.
    destruct Hv as (u & <- & Hu). rewrite length_map.
    pose proof (Forall_column j Hprev) as Hcolv.
    rewrite Forall_forall in Hcolv. apply Hcolv. exact Hu.
  - intros j b Hj Hb. unfold at3 at 1.
    rewrite !nth_map_map_nil. f_equal.
    rewrite (nth_transpose _ [] Hprek Hj).
    rewrite Hpre.
    rewrite (nth_map_lt _ _ 0%nat) by (rewrite length_seq; exact Hb).
    rewrite seq_nth by exact Hb. simpl (0 + b)%nat.
    rewrite nth_firstn_skipn by exact Hj.
    unfold out2d.
    rewrite (nth_map_lt _ _ (@nil R))
      by (unfold inp2d; rewrite length_reshape_rows; nia).
    f_equal. unfold inp2d.
    rewrite (@nth_reshape_pairs _ vs size (B * k) (b * k + j) Hvs)
      by (try rewrite Hlen; nia).
    replace (2 * (b * k + j)) with (b * (2 * k) + 2 * j) by lia.
    replace (b * (2 * k) + 2 * j + 1) with (b * (2 * k) + (2 * j + 1))
      by lia.
    unfold vs.
    rewrite !(nth_columns3 Hs) by lia. reflexivity.
Qed.
Lemma downscale_inp_odd k inp :
  shape3 (2 * k + 1) B size inp ->
  downscale_inp size B W bias inp = None /\
  (reshape_m1_c (2 * size) (concat (concat (transpose B inp))) = None \/
   (2 <= B /\
    exists inp2d,
      reshape_m1_c (2 * size) (concat (concat (transpose B inp)))
      = Some inp2d /\
      nth k inp2d [] = at3 inp (2 * k) 0 ++ at3 inp 0 1)).
Proof.
  intros Hs. unfold downscale_inp. cbv zeta.
  pose proof (shape3_vectors Hs) as Hvs.
  pose proof (length_columns3 Hs) as Hlen.
  set (vs := concat (transpose B inp)) in *.
  pose proof (length_concat_uniform Hvs) as Hflat. rewrite Hlen in Hflat.
  destruct (Nat.Even_or_Odd B) as [[c Hc] | [c Hc]].
  - (* an even batch: the pairing reshape passes and crosses examples *)
    assert (Hrs : reshape_m1_c (2 * size) (concat vs)
                  = Some (reshape_rows (c * (2 * k + 1)) (2 * size)
                            (concat vs))).
    { apply reshape_m1_c_ok; [lia|]. rewrite Hflat, Hc. lia. }
    rewrite Hrs. cbv beta iota delta [obind].
    set (inp2d := reshape_rows (c * (2 * k + 1)) (2 * size) (concat vs)).
    set (out2d := map (linear size W bias) inp2d).
    assert (Hout2d : Forall (fun v => length v = size) out2d)
      by apply lin_rows.
    assert (Hn2d : length out2d = c * (2 * k + 1)).
    { unfold out2d, inp2d. rewrite length_map, length_reshape_rows.
      reflexivity. }
    split.
    + rewrite (@reshape_r_m1_c_fail _ B size k (c * size)); [reflexivity| |].
      * subst B. nia.
      * rewrite (length_concat_uniform Hout2d), Hn2d. subst B. lia.
    + right. split; [lia|]. exists inp2d. split; [reflexivity|].
      unfold inp2d.
      rewrite (@nth_reshape_pairs _ vs size (c * (2 * k + 1)) k Hvs)
        by (try rewrite Hlen; nia).
      rewrite <- (@nth_columns3 _ (2 * k + 1) B size inp 0 (2 * k) Hs),
              <- (@nth_columns3 _ (2 * k + 1) B size inp 1 0 Hs) by lia.
      fold vs. f_equal; f_equal; lia.
  - (* an odd batch: an odd number of vectors cannot be paired *)
    assert (Hrs : reshape_m1_c (2 * size) (concat vs) = None).
    { apply (@reshape_m1_c_fail _ (2 * size) (2 * c * k + c + k) size);
        [lia|]. rewrite Hflat, Hc. lia. }
    rewrite Hrs. split; [reflexivity | left; reflexivity].
Qed.
End DownscaleFacts.

(** C10. With a positive hidden size and batch size, the downscale of a
    (time, batch, size) tensor is defined exactly on an even time dimension.
    For an even time [T] it succeeds, has [T / 2] time steps, and the pooled
    vector at step [j] of example [b] is the projection of the time steps
    [2 * j] and [2 * j + 1] of that same example, concatenated.  For an odd
    time the operation yields no result; the pairing reshape itself either
    fails (odd batch) or, when it passes (even batch, at least two examples),
    its row [T / 2] joins the last time step of example 0 with the first time
    step of example 1. *)
Theorem downscale_defined_iff_even_time size B W bias T inp :
  0 < size -> 0 < B -> shape2 (2 * size) size W -> length bias = size ->
  shape3 T B size inp ->
  (Nat.even T = true ->
   exists out,
     downscale_inp size B W bias inp = Some out /\
     shape3 (T / 2) B size out /\
     forall j b, j < T / 2 -> b < B ->
       at3 out j b
       = map tanh (linear size W bias
                     (at3 inp (2 * j) b ++ at3 inp (2 * j + 1) b))) /\
  (Nat.even T = false ->
   downscale_inp size B W bias inp = None /\
   (forall mask, downscale size B W bias inp mask = None) /\
   (reshape_m1_c (2 * size) (concat (concat (transpose B inp))) = None \/
    (2 <= B /\
     exists inp2d,
       reshape_m1_c (2 * size) (concat (concat (transpose B inp)))
       = Some inp2d /\
       nth (T / 2) inp2d [] = at3 inp (T - 1) 0 ++ at3 inp 0 1))).
Proof.
  intros Hsize HB HW Hbias Hs. split; intros HT.
  - apply Nat.even_spec in HT. destruct HT as [k ->].
    replace (2 * k / 2) with k by (rewrite Nat.mul_comm, Nat.div_mul; lia).
    apply downscale_inp_even; assumption.
  - assert (Ho : Nat.odd T = true).
    { unfold Nat.odd. rewrite HT. reflexivity. }
    apply Nat.odd_spec in Ho. destruct Ho as [k ->].
    replace ((2 * k + 1) / 2) with k
      by (apply Nat.div_unique with (r := 1); lia).
    replace (2 * k + 1 - 1) with (2 * k) by lia.
    destruct (@downscale_inp_odd size B W bias Hsize HB HW Hbias k inp Hs)
      as [Hnone Hpair].
    split; [exact Hnone|]. split; [| exact Hpair].
    intros mask. unfold downscale. rewrite Hnone. reflexivity.
Qed.

Lemma downscale_defined_iff_even_time_witness :
  exists out,
    downscale_inp 1 1 [[1%R]; [1%R]] [0%R] [[[1%R]]; [[2%R]]] = Some out /\
    at3 out 0 0
    = map tanh (linear 1 [[1%R]; [1%R]] [0%R] ([1%R] ++ [2%R])).
Proof.
  assert (HW : shape2 (2 * 1) 1 [[1%R]; [1%R]]).
  { split; [reflexivity | repeat constructor]. }
  assert (Hs : shape3 2 1 1 [[[1%R]]; [[2%R]]]).
  { split; [reflexivity | repeat constructor]. }
  destruct (@downscale_defined_iff_even_time 1 1 _ [0%R] 2 _
              ltac:(lia) ltac:(lia) HW eq_refl Hs) as [Heven _].
  destruct (Heven eq_refl) as (out & Hout & _ & Hat).
  exists out. split; [exact Hout|].
  apply (Hat 0%nat 0%nat); simpl; lia.
Defined.

(** ** Attention weights *)

Open Scope R_scope.

Lemma fold_left_Rplus_Rsum l a : fold_left Rplus l a = a + Rsum l.
Proof.
  revert a; induction l as [|x r IH]; intros a; simpl; [lra|].
  rewrite IH. lra.
Qed.

Lemma fold_left_Rmax_ge l a : a <= fold_left Rmax l a.
Proof.
  revert a; induction l as [|x r IH]; intros a; simpl; [lra|].
  eapply Rle_trans; [apply Rmax_l | apply IH].
Qed.

Lemma fold_left_Rmax_bound l a :
  Forall (fun x => x <= fold_left Rmax l a) (a :: l).
Proof.
  constructor; [apply fold_left_Rmax_ge|].
  revert a; induction l as [|x r IH]; intros a; simpl; constructor.
  - eapply Rle_trans; [apply Rmax_r | apply fold_left_Rmax_ge].
  - apply IH.
Qed.

Lemma fold_left_Rmax_in l a : In (fold_left Rmax l a) (a :: l).
Proof.
  revert a; induction l as [|x r IH]; intros a; simpl; [auto|].
  destruct (IH (Rmax a x)) as [H | H]; [| auto].
  rewrite <- H. unfold Rmax. destruct (Rle_dec a x); auto.
Qed.

Lemma Rsum_map_div l c : Rsum (map (fun x => x / c) l) = Rsum l / c.
Proof.
  induction l as [|x r IH]; simpl; [lra|]. rewrite IH. lra.
Qed.

Lemma Rsum_nonneg l : Forall (fun x => 0 <= x) l -> 0 <= Rsum l.
Proof. induction 1; simpl; lra. Qed.

Lemma Rsum_ge_member l x :
  Forall (fun y => 0 <= y) l -> In x l -> x <= Rsum l.
Proof.
  induction 1 as [|y r Hy Hr IH]; simpl; intros Hin; [contradiction|].
  pose proof (Rsum_nonneg Hr). destruct Hin as [-> | Hin]; [lra|].
  specialize (IH Hin). lra.
Qed.

(** The softmax of one example, on its column of scores. *)
Lemma softmax_column_bounds (c : list R) M :
  In M c -> Forall (fun x => x <= M) c ->
  let e := map (fun x => exp (x - M)) c in
  Forall (fun y => 0 < y <= 1) e /\
  1 <= Rsum e /\
  1 - attn_epsilon
  < Rsum (map (fun y => y / (attn_epsilon + Rsum e)) e) < 1.
Proof.
  intros HM Hle e.
  assert (He : Forall (fun y => 0 < y <= 1) e).
  { unfold e. apply Forall_forall. intros y Hy. apply in_map_iff in Hy.
    destruct Hy as (x & <- & Hx). rewrite Forall_forall in Hle.
    specialize (Hle x Hx). split; [apply exp_pos|].
    rewrite <- exp_0. destruct (Req_dec (x - M) 0) as [-> | Hne]; [lra|].
    left. apply exp_increasing. lra. }
  assert (H1 : 1 <= Rsum e).
  { apply Rsum_ge_member.
    - eapply Forall_impl; [| exact He]. simpl. intros; lra.
    - unfold e. apply in_map_iff. exists M. split; [| exact HM].
      rewrite Rminus_diag. apply exp_0. }
  split; [exact He|]. split; [exact H1|].
  rewrite Rsum_map_div. unfold attn_epsilon in *.
  assert (Hpos : 0 < 1 / 1000000 + Rsum e) by lra.
  split.
  - apply Rmult_lt_reg_r with (r := 1 / 1000000 + Rsum e); [exact Hpos|].
    unfold Rdiv at 3. rewrite Rmult_assoc, Rinv_l by lra. nra.
  - apply Rmult_lt_reg_r with (r := 1 / 1000000 + Rsum e); [exact Hpos|].
    unfold Rdiv at 1. rewrite Rmult_assoc, Rinv_l by lra. lra.
Qed.

Lemma rows_map2_shape (A B C : Type) (f : A -> B -> C) rows (v : list B) n :
  Forall (fun r => length r = n) rows -> length v = n ->
  Forall (fun r => length r = n) (map (fun row => map2 f row v) rows).
Proof.
  intros Hr Hv. apply Forall_forall. intros r Hin. apply in_map_iff in Hin.
  destruct Hin as (row & <- & Hrow). rewrite Forall_forall in Hr.
  rewrite length_map2, (Hr _ Hrow), Hv. apply Nat.min_id.
Qed.

Lemma column_rows_map2 (A B C : Type) (f : A -> B -> C) rows (v : list B)
  n b (dA : A) (dB : B) :
  Forall (fun r => length r = n) rows -> length v = n -> (b < n)%nat ->
  column b (map (fun row => map2 f row v) rows)
  = map (fun x => f x (nth b v dB)) (column b rows).
Proof.
  intros Hr Hv Hb.
  rewrite (@column_map _ _ b (f dA dB) n
             (@rows_map2_shape _ _ _ f rows v n Hr Hv) Hb).
  rewrite (@column_map _ rows b dA n Hr Hb), !map_map.
  apply map_ext_in. intros row Hrow. rewrite Forall_forall in Hr.
  apply nth_map2; rewrite ?(Hr _ Hrow), ?Hv; exact Hb.
Qed.

Lemma nth_reduce_sum_axis0 B (m : list (list R)) b :
  Forall (fun r => length r = B) m -> (b < B)%nat ->
  nth b (reduce_sum_axis0 B m) 0 = Rsum (column b m).
Proof.
  intros Hm Hb. unfold reduce_sum_axis0.
  rewrite (@nth_fold_left_map2 R Rplus m (repeat 0 B) B b 0 Hm
             (repeat_length 0 B) Hb).
  rewrite fold_left_Rplus_Rsum, nth_repeat, (@column_map _ m b 0 B Hm Hb).
  lra.
Qed.

Lemma reduce_max_axis0_spec B (m : list (list R)) b :
  m <> [] -> Forall (fun r => length r = B) m -> (b < B)%nat ->
  In (nth b (reduce_max_axis0 B m) 0) (column b m) /\
  Forall (fun x => x <= nth b (reduce_max_axis0 B m) 0) (column b m).
Proof.
  intros Hne Hm Hb. destruct m as [|r rs]; [congruence|].
  rewrite (@column_map _ (r :: rs) b 0 B Hm Hb).
  inversion Hm as [|? ? Hr Hrs]; subst. simpl reduce_max_axis0.
  rewrite (@nth_fold_left_map2 R Rmax rs r (length r) b 0 Hrs eq_refl Hb).
  simpl map. split; [apply fold_left_Rmax_in | apply fold_left_Rmax_bound].
Qed.

Lemma length_reduce_max_axis0 B (m : list (list R)) :
  Forall (fun r => length r = B) m -> length (reduce_max_axis0 B m) = B.
Proof.
  intros Hm. destruct m as [|r rs]; simpl; [apply repeat_length|].
  inversion Hm as [|? ? Hr Hrs]; subst.
  apply length_fold_left_map2; [exact Hrs | reflexivity].
Qed.

(** C2. On a non-empty encoder-time axis, for every example [b] of the
    batch and whatever the query [gamma_h] of the decoder step: the weights
    of the example are [exp (score - M) / (1e-6 + sum of exp (score - M))]
    where [M] is the largest score of that example over the encoder-time
    axis (so every exponential lies in (0, 1] and the normalizer is at least
    [1 + 1e-6]), and they sum over the encoder-time axis to a value within
    1e-6 of 1 (strictly below 1, because of the epsilon). *)
Theorem attention_weights_stable_softmax B T phi_hs gamma_h :
  (0 < T)%nat -> shape2 T B phi_hs -> length gamma_h = B ->
  let scores := attn_scores phi_hs gamma_h in
  let weights := attention_weights B phi_hs gamma_h in
  shape2 T B weights /\
  forall b, (b < B)%nat ->
    exists M,
      In M (column b scores) /\
      Forall (fun x => x <= M) (column b scores) /\
      Forall (fun x => 0 < exp (x - M) <= 1) (column b scores) /\
      column b weights
      = map (fun x =>
               exp (x - M)
               / (attn_epsilon
                  + Rsum (map (fun y => exp (y - M)) (column b scores))))
          (column b scores) /\
      1 - attn_epsilon < Rsum (column b weights) < 1.
Proof.
  intros HT [Hlen Hphi] Hg scores weights.
  assert (Hsc : Forall (fun r => length r = B) scores).
  { apply rows_map2_shape; assumption. }
  assert (Hne : scores <> []).
  { unfold scores, attn_scores. destruct phi_hs; simpl in *; [lia|].
    discriminate. }
  set (mx := reduce_max_axis0 B scores).
  assert (Hmx : length mx = B) by (apply length_reduce_max_axis0; exact Hsc).
  set (e := attn_exp B scores).
  assert (He : Forall (fun r => length r = B) e).
  { unfold e, attn_exp. apply rows_map2_shape; assumption. }
  set (s := reduce_sum_axis0 B e).
  assert (Hs : length s = B).
  { unfold s, reduce_sum_axis0.
    apply length_fold_left_map2; [exact He | apply repeat_length]. }
  assert (Hw : Forall (fun r => length r = B) weights).
  { unfold weights, attention_weights, attn_normalize.
    apply rows_map2_shape; assumption. }
  split.
  - split; [| exact Hw].
    unfold weights, attention_weights, attn_normalize, attn_exp.
    rewrite !length_map. unfold scores, attn_scores.
    rewrite length_map. exact Hlen.
  - intros b Hb. exists (nth b mx 0).
    destruct (@reduce_max_axis0_spec B scores b Hne Hsc Hb) as [Hin Hle].
    fold mx in Hin, Hle.
    assert (Hce : column b e
                  = map (fun x => exp (x - nth b mx 0)) (column b scores)).
    { unfold e, attn_exp. fold mx.
      apply (@column_rows_map2 _ _ _ (fun w m => exp (w - m)) scores mx B b
               0 0 Hsc Hmx Hb). }
    assert (Hcw : column b weights
                  = map (fun x => x / (attn_epsilon + nth b s 0))
                      (column b e)).
    { unfold weights, attention_weights, attn_normalize. fold e. fold s.
      apply (@column_rows_map2 _ _ _ (fun w z => w / (attn_epsilon + z))
               e s B b 0 0 He Hs Hb). }
    assert (Hsb : nth b s 0 = Rsum (column b e)).
    { apply nth_reduce_sum_axis0; assumption. }
    destruct (@softmax_column_bounds (column b scores) (nth b mx 0) Hin Hle)
      as (Hexp & _ & Hsum).
    split; [exact Hin|]. split; [exact Hle|]. split.
    { rewrite Forall_map in Hexp. exact Hexp. }
    split.
    + rewrite Hcw, Hsb, Hce, map_map. reflexivity.
    + rewrite Hcw, Hsb, Hce. exact Hsum.
Qed.

Lemma attention_weights_stable_softmax_witness :
  1 - attn_epsilon
  < Rsum (column 0 (attention_weights 1 [[[1]]] [[1]])) < 1.
Proof.
  assert (Hs : shape2 1 1 [[[1]]]).
  { split; [reflexivity | repeat constructor]. }
  destruct (@attention_weights_stable_softmax 1 1 [[[1]]] [[1]]
              ltac:(lia) Hs eq_refl) as [_ H].
  destruct (H 0%nat ltac:(lia)) as (M & _ & _ & _ & _ & Hsum).
  exact Hsum.
Defined.

(** ** Masked loss *)

Lemma Rsum_app l l' : Rsum (l ++ l') = Rsum l + Rsum l'.
Proof. induction l as [|x r IH]; simpl; [lra|]. rewrite IH. lra. Qed.

Lemma firstn_as_seq (A : Type) (l : list A) n d :
  (n <= length l)%nat -> firstn n l = map (fun i => nth i l d) (seq 0 n).
Proof.
  intros Hn. apply nth_ext with (d := d) (d' := d).
  - rewrite length_firstn, length_map, length_seq. lia.
  - intros i Hi. rewrite length_firstn in Hi.
    rewrite (nth_map_lt _ _ 0%nat) by (rewrite length_seq; lia).
    rewrite seq_nth by lia. rewrite nth_firstn.
    destruct (i <? n)%nat eqn:E; [reflexivity|].
    apply Nat.ltb_ge in E. lia.
Qed.

Lemma Rsum_blocks l T B :
  length l = (T * B)%nat ->
  Rsum l
  = Rsum (map (fun t =>
                 Rsum (map (fun b => nth (t * B + b) l 0) (seq 0 B)))
            (seq 0 T)).
Proof.
  revert l; induction T as [|T IH]; intros l Hl.
  - destruct l; [reflexivity | discriminate].
  - rewrite <- (firstn_skipn B l) at 1. rewrite Rsum_app.
    simpl seq. simpl map. simpl Rsum at 3. f_equal.
    + rewrite (@firstn_as_seq _ l B 0) by (simpl in Hl; lia). reflexivity.
    + rewrite (IH (skipn B l)) by (rewrite length_skipn; simpl in Hl; lia).
      rewrite <- seq_shift, map_map. f_equal.
      apply map_ext. intros t. f_equal. apply map_ext. intros b.
      rewrite nth_skipn. f_equal. lia.
Qed.

Lemma sparse_xent_ok V (logits2d : list (list R)) (labels1d : list Z) :
  length logits2d = length labels1d ->
  Forall (fun r => length r = V) logits2d ->
  Forall (in_vocab V) labels1d ->
  sparse_softmax_cross_entropy_with_logits logits2d labels1d
  = Some (map2 xent_value logits2d labels1d).
Proof.
  revert labels1d; induction logits2d as [|l ls IH]; intros [|y ys] Hlen Hl Hy;
    simpl in *; try discriminate; [reflexivity|].
  inversion Hl as [|? ? Hl1 Hl2]; subst.
  inversion Hy as [|? ? Hy1 Hy2]; subst.
  unfold sparse_xent_row. unfold in_vocab in Hy1.
  destruct (0 <=? y)%Z eqn:E1; [| apply Z.leb_gt in E1; lia].
  destruct (y <? Z.of_nat (length l))%Z eqn:E2; [| apply Z.ltb_ge in E2; lia].
  simpl. rewrite IH by (try assumption; lia). reflexivity.
Qed.

Lemma pad_row_after_shape B T rows :
  shape2 T B rows -> shape2 (S T) B (pad_row_after B rows).
Proof.
  intros [HT Hr]. unfold pad_row_after. split.
  - rewrite length_app, HT. simpl. lia.
  - apply Forall_app. split; [exact Hr|].
    constructor; [apply repeat_length | constructor].
Qed.

Lemma nth_pad_row_after B (r0 : list Z) rows t b :
  (t <= length rows)%nat ->
  nth b (nth t (pad_row_after B rows) []) 0%Z
  = (if (S t <? length (r0 :: rows))%nat
     then nth b (nth (S t) (r0 :: rows) []) 0%Z else 0%Z).
Proof.
  intros Ht. unfold pad_row_after. simpl length.
  destruct (S t <? S (length rows))%nat eqn:E.
  - apply Nat.ltb_lt in E. rewrite app_nth1 by lia. reflexivity.
  - apply Nat.ltb_ge in E. rewrite app_nth2 by lia.
    replace (t - length rows)%nat with 0%nat by lia. simpl.
    apply nth_repeat.
Qed.

Lemma Forall_concat (A : Type) (P : A -> Prop) (m : list (list A)) :
  Forall (Forall P) m -> Forall P (concat m).
Proof.
  induction 1 as [|r m Hr _ IH]; simpl; [constructor|].
  apply Forall_app. split; assumption.
Qed.

(** The loss as the graph computes it is the loss in the spec's words. *)
Lemma losses_of_spec V B T logits2d tokens mask :
  (0 < B)%nat -> (0 < T)%nat -> (0 < V)%nat ->
  shape2 T B tokens -> shape2 T B mask -> shape2 (T * B) V logits2d ->
  Forall (Forall (in_vocab V)) tokens ->
  losses_of B logits2d tokens mask
  = Some (spec_masked_loss B logits2d tokens mask).
Proof.
  intros HB HT HV [Htl Htr] [Hml Hmr] [Hll Hlr] Hvoc.
  destruct tokens as [|r0 toks]; [simpl in Htl; lia|].
  destruct mask as [|m0 ms]; [simpl in Hml; lia|].
  unfold losses_of. simpl slice_from_row1. cbv beta iota delta [obind].
  pose proof (Forall_inv_tail Htr) as Htoks.
  pose proof (Forall_inv_tail Hmr) as Hms.
  pose proof (Forall_inv_tail Hvoc) as Hvtoks.
  simpl in Htl, Hml.
  destruct (@pad_row_after_shape B (length toks) toks (conj eq_refl Htoks))
    as [HLl HLr].
  destruct (@pad_row_after_shape B (length ms) ms (conj eq_refl Hms))
    as [HMl HMr].
  set (labels := pad_row_after B toks) in *.
  set (masks := pad_row_after B ms) in *.
  assert (Hnl : length (concat labels) = (T * B)%nat).
  { rewrite (length_concat_uniform HLr), HLl. f_equal. lia. }
  assert (Hnm : length (concat masks) = (T * B)%nat).
  { rewrite (length_concat_uniform HMr), HMl. f_equal. lia. }
  assert (Hlab : Forall (in_vocab V) (concat labels)).
  { apply Forall_concat. unfold labels, pad_row_after.
    apply Forall_app. split; [exact Hvtoks|].
    constructor; [| constructor].
    apply Forall_forall. intros y Hy. apply repeat_spec in Hy. subst y.
    unfold in_vocab. lia. }
  rewrite (@sparse_xent_ok V logits2d (concat labels)) by
    (try assumption; lia).
  set (xent := map2 xent_value logits2d (concat labels)).
  assert (Hnx : length xent = (T * B)%nat).
  { unfold xent. rewrite length_map2, Hll, Hnl. apply Nat.min_id. }
  unfold broadcast_mul. rewrite length_map, Hnx, Hnm, Nat.eqb_refl.
  set (losses1d := map2 Rmult xent (map IZR (concat masks))).
  assert (Hn1 : length losses1d = (T * B)%nat).
  { unfold losses1d. rewrite length_map2, length_map, Hnx, Hnm.
    apply Nat.min_id. }
  rewrite (@reshape_m1_c_ok _ B T losses1d HB Hn1).
  cbv beta iota delta [obind].
  rewrite (@concat_reshape_rows _ T B losses1d Hn1).
  unfold spec_masked_loss. do 2 f_equal.
  rewrite (@Rsum_blocks losses1d T B Hn1).
  replace (length (r0 :: toks)) with T by (simpl; lia).
  f_equal. apply map_ext_in. intros t Ht. apply in_seq in Ht.
  f_equal. apply map_ext_in. intros b Hb. apply in_seq in Hb.
  assert (Hi : (t * B + b < T * B)%nat) by nia.
  unfold losses1d.
  rewrite (@nth_map2 _ _ _ Rmult xent (map IZR (concat masks))
             (t * B + b) 0 0 0)
    by (rewrite ?length_map; lia).
  unfold xent.
  rewrite (@nth_map2 _ _ _ xent_value logits2d (concat labels)
             (t * B + b) [] 0%Z 0) by lia.
  rewrite (map_nth IZR).
  rewrite (nth_concat_uniform _ _ HLr), (nth_concat_uniform _ _ HMr) by lia.
  unfold labels, masks.
  rewrite (@nth_pad_row_after B r0 toks t b),
          (@nth_pad_row_after B m0 ms t b) by lia.
  unfold spec_shifted. reflexivity.
Qed.

(** C4. On a well-formed batch ([T >= 1] time steps, [B >= 1] examples,
    target tokens that are vocabulary indices, one row of [V] logits per
    position) the loss graph drops the first row of the target tokens and of
    the target mask, closes each with one row of zeros so that both are back
    at [T] rows (position [t] then holds the entry of position [t + 1], the
    last position holds 0), and yields the sum over all positions of the
    cross-entropy against the shifted token times the shifted mask, divided
    by the batch size. *)
Theorem losses_shift_mask_sum_over_batch V B T logits2d tokens mask :
  (0 < B)%nat -> (0 < T)%nat -> (0 < V)%nat ->
  shape2 T B tokens -> shape2 T B mask -> shape2 (T * B) V logits2d ->
  Forall (Forall (in_vocab V)) tokens ->
  slice_from_row1 tokens = Some (tl tokens) /\
  slice_from_row1 mask = Some (tl mask) /\
  shape2 T B (pad_row_after B (tl tokens)) /\
  shape2 T B (pad_row_after B (tl mask)) /\
  (forall t b, (t < T)%nat ->
     nth b (nth t (pad_row_after B (tl tokens)) []) 0%Z
     = spec_shifted tokens t b /\
     nth b (nth t (pad_row_after B (tl mask)) []) 0%Z
     = spec_shifted mask t b) /\
  losses_of B logits2d tokens mask
  = Some (spec_masked_loss B logits2d tokens mask).
Proof.
  intros HB HT HV Ht Hm Hl Hvoc.
  split; [| split; [| split; [| split; [| split]]]].
  - destruct Ht as [Htl _]. destruct tokens; [simpl in Htl; lia|reflexivity].
  - destruct Hm as [Hml _]. destruct mask; [simpl in Hml; lia|reflexivity].
  - destruct Ht as [Htl Htr]. destruct tokens as [|r0 toks];
      [simpl in Htl; lia|]. simpl in Htl. rewrite <- Htl.
    apply pad_row_after_shape. split; [reflexivity|].
    apply (Forall_inv_tail Htr).
  - destruct Hm as [Hml Hmr]. destruct mask as [|m0 ms];
      [simpl in Hml; lia|]. simpl in Hml. rewrite <- Hml.
    apply pad_row_after_shape. split; [reflexivity|].
    apply (Forall_inv_tail Hmr).
  - intros t b Htt. destruct Ht as [Htl _], Hm as [Hml _].
    destruct tokens as [|r0 toks]; [simpl in Htl; lia|].
    destruct mask as [|m0 ms]; [simpl in Hml; lia|].
    simpl in Htl, Hml. simpl tl. unfold spec_shifted.
    split; apply nth_pad_row_after; lia.
  - apply (@losses_of_spec V B T); assumption.
Qed.

Lemma losses_shift_mask_sum_over_batch_witness :
  losses_of 1 [[0; 0]; [0; 0]] [[0]; [1]]%Z [[1]; [1]]%Z
  = Some (spec_masked_loss 1 [[0; 0]; [0; 0]] [[0]; [1]]%Z [[1]; [1]]%Z).
Proof.
  assert (Ht : shape2 2 1 [[0]; [1]]%Z).
  { split; [reflexivity | repeat constructor]. }
  assert (Hm : shape2 2 1 [[1]; [1]]%Z).
  { split; [reflexivity | repeat constructor]. }
  assert (Hl : shape2 (2 * 1) 2 [[0; 0]; [0; 0]]).
  { split; [reflexivity | repeat constructor]. }
  assert (Hv : Forall (Forall (in_vocab 2)) [[0]; [1]]%Z).
  { repeat match goal with |- Forall _ _ => constructor end;
      unfold in_vocab; simpl; lia. }
  apply (@losses_shift_mask_sum_over_batch 2 1 2 _ _ _
           ltac:(lia) ltac:(lia) ltac:(lia) Ht Hm Hl Hv).
Defined.

(** Writing one entry of a tensor. *)

Lemma length_set_nth (A : Type) i (v : A) l :
  length (set_nth i v l) = length l.
Proof.
  revert i; induction l as [|x r IH]; intros [|i]; simpl; auto.
Qed.

Lemma nth_set_nth_neq (A : Type) i j (v d : A) l :
  i <> j -> nth j (set_nth i v l) d = nth j l d.
Proof.
  revert i j; induction l as [|x r IH]; intros [|i] [|j] H; simpl; auto;
    try congruence.
Qed.

Lemma nth_set_nth_eq (A : Type) i (v d : A) l :
  (i < length l)%nat -> nth i (set_nth i v l) d = v.
Proof.
  revert i; induction l as [|x r IH]; intros [|i] H; simpl in *;
    auto; try lia.
  apply IH. lia.
Qed.

Lemma Forall_set_nth (A : Type) (P : A -> Prop) i v l :
  Forall P l -> P v -> Forall P (set_nth i v l).
Proof.
  intros Hl Hv; revert i; induction Hl as [|x r Hx Hr IH]; intros [|i];
    simpl; try constructor; auto.
Qed.

Lemma Forall_set_entry (A : Type) (R : list A -> Prop)
  t b v (x : list (list A)) :
  (forall row, R row -> R (set_nth b v row)) ->
  Forall R x -> Forall R (set_entry t b v x).
Proof.
  intros HR Hx. unfold set_entry. destruct (nth_error x t) eqn:E; [| exact Hx].
  apply Forall_set_nth; [exact Hx|]. apply HR.
  rewrite Forall_forall in Hx. apply Hx. eapply nth_error_In. exact E.
Qed.

Lemma length_set_entry (A : Type) t b (v : A) x :
  length (set_entry t b v x) = length x.
Proof.
  unfold set_entry. destruct (nth_error x t); [apply length_set_nth|].
  reflexivity.
Qed.

Lemma nth_set_entry_other (A : Type) t b (v d : A) x t' b' :
  t' <> t \/ b' <> b ->
  nth b' (nth t' (set_entry t b v x) []) d = nth b' (nth t' x []) d.
Proof.
  intros H. unfold set_entry. destruct (nth_error x t) eqn:E; [| reflexivity].
  destruct (Nat.eq_dec t' t) as [-> | Hne].
  - destruct H as [H | H]; [congruence|].
    rewrite nth_set_nth_eq by (apply nth_error_Some; congruence).
    rewrite nth_set_nth_neq by congruence.
    rewrite (nth_error_nth _ _ [] E). reflexivity.
  - rewrite nth_set_nth_neq by congruence. reflexivity.
Qed.

Lemma nth_set_entry_zero t b (x : list (list Z)) :
  nth b (nth t (set_entry t b 0%Z x) []) 0%Z = 0%Z.
Proof.
  unfold set_entry. destruct (nth_error x t) eqn:E.
  - rewrite nth_set_nth_eq by (apply nth_error_Some; congruence).
    destruct (Nat.lt_ge_cases b (length l)) as [Hb | Hb].
    + apply nth_set_nth_eq. exact Hb.
    + apply nth_overflow. rewrite length_set_nth. exact Hb.
  - apply nth_error_None in E. rewrite (nth_overflow x) by exact E.
    destruct b; reflexivity.
Qed.

Lemma shape2_set_entry (A : Type) T B t b (v : A) x :
  shape2 T B x -> shape2 T B (set_entry t b v x).
Proof.
  intros [Hl Hr]. split; [rewrite length_set_entry; exact Hl|].
  apply Forall_set_entry; [| exact Hr].
  intros row Hrow. rewrite length_set_nth. exact Hrow.
Qed.

Lemma spec_shifted_set_entry_other t b v x t' b' :
  S t' <> t \/ b' <> b ->
  spec_shifted (set_entry t b v x) t' b' = spec_shifted x t' b'.
Proof.
  intros H. unfold spec_shifted. rewrite length_set_entry.
  destruct (S t' <? length x)%nat; [| reflexivity].
  apply nth_set_entry_other. exact H.
Qed.

Lemma spec_shifted_set_entry_zero t b x t' :
  S t' = t -> spec_shifted (set_entry t b 0%Z x) t' b = 0%Z.
Proof.
  intros <-. unfold spec_shifted.
  destruct (S t' <? _)%nat; [apply nth_set_entry_zero | reflexivity].
Qed.

(** The loss graph of lines 146-153 for given logits: on a well-formed
    batch, once the target-mask entry of position [(t, b)] is 0, the loss is
    produced and is the same whatever vocabulary index the target token of
    that position holds: in the sum the cross-entropy of the position is
    multiplied by 0. *)
Lemma losses_of_masked_token V B T logits2d tokens mask t b v :
  (0 < B)%nat -> (0 < T)%nat -> (0 < V)%nat ->
  shape2 T B tokens -> shape2 T B mask -> shape2 (T * B) V logits2d ->
  Forall (Forall (in_vocab V)) tokens -> in_vocab V v ->
  let mask' := set_entry t b 0%Z mask in
  exists loss,
    losses_of B logits2d tokens mask' = Some loss /\
    losses_of B logits2d (set_entry t b v tokens) mask' = Some loss.
Proof.
  intros HB HT HV Ht Hm Hl Hvoc Hv mask'.
  assert (Hm' : shape2 T B mask') by (apply shape2_set_entry; exact Hm).
  assert (Ht' : shape2 T B (set_entry t b v tokens))
    by (apply shape2_set_entry; exact Ht).
  assert (Hvoc' : Forall (Forall (in_vocab V)) (set_entry t b v tokens)).
  { apply Forall_set_entry; [| exact Hvoc].
    intros row Hrow. apply Forall_set_nth; assumption. }
  exists (spec_masked_loss B logits2d tokens mask'). split.
  - apply (@losses_of_spec V B T); assumption.
  - rewrite (@losses_of_spec V B T) by assumption.
    unfold spec_masked_loss. rewrite length_set_entry.
    do 3 f_equal. apply map_ext_in. intros t' _.
    f_equal. apply map_ext_in. intros b' _.
    destruct (Nat.eq_dec (S t') t) as [Et | Et].
    + destruct (Nat.eq_dec b' b) as [-> | Eb].
      * unfold mask'. rewrite (spec_shifted_set_entry_zero _ _ Et).
        rewrite !Rmult_0_r. reflexivity.
      * rewrite spec_shifted_set_entry_other by (right; exact Eb).
        reflexivity.
    + rewrite spec_shifted_set_entry_other by (left; exact Et).
      reflexivity.
Qed.

(** ** The bidirectional layer *)

Close Scope R_scope.

Lemma length_reverse_prefix (A : Type) n (l : list A) :
  length (reverse_prefix n l) = length l.
Proof.
  unfold reverse_prefix.
  rewrite length_app, length_rev, length_firstn, length_skipn. lia.
Qed.

Lemma nth_reverse_prefix (A : Type) n (l : list A) t d :
  n <= length l ->
  nth t (reverse_prefix n l) d
  = nth (if t <? n then n - 1 - t else t) l d.
Proof.
  intros Hn. unfold reverse_prefix.
  assert (Hf : length (firstn n l) = n) by (rewrite length_firstn; lia).
  destruct (t <? n) eqn:E.
  - apply Nat.ltb_lt in E.
    rewrite app_nth1 by (rewrite length_rev; lia).
    rewrite rev_nth by lia. rewrite Hf, nth_firstn.
    destruct (n - S t <? n) eqn:E'; [| apply Nat.ltb_ge in E'; lia].
    f_equal. lia.
  - apply Nat.ltb_ge in E.
    rewrite app_nth2 by (rewrite length_rev; lia).
    rewrite length_rev, Hf, nth_skipn. f_equal. lia.
Qed.

Lemma reverse_sequence_spec (A : Type) B T (x : list (list A)) lens :
  shape2 T B x -> length lens = B ->
  Forall (fun l => (0 <= l <= Z.of_nat T)%Z) lens ->
  exists y,
    reverse_sequence B x lens = Some y /\
    shape2 T B y /\
    forall t b d, t < T -> b < B ->
      nth b (nth t y []) d
      = nth b (nth (if t <? Z.to_nat (nth b lens 0%Z)
                    then Z.to_nat (nth b lens 0%Z) - 1 - t else t) x []) d.
Proof.
  intros [HT Hx] Hl Hr. unfold reverse_sequence.
  assert (Hall : forallb (fun l => (0 <=? l)%Z && (l <=? Z.of_nat (length x))%Z)
                   lens = true).
  { apply forallb_forall. intros l Hin. rewrite Forall_forall in Hr.
    specialize (Hr l Hin). rewrite HT.
    apply andb_true_iff. split; [apply Z.leb_le | apply Z.leb_le]; lia. }
  rewrite Hall, HT.
  set (cols := map2 (fun l col => reverse_prefix (Z.to_nat l) col) lens
                 (transpose B x)).
  assert (Hcb : length cols = B).
  { unfold cols. rewrite length_map2, length_transpose, Hl. apply Nat.min_id. }
  assert (Hnth : forall b, b < B ->
            nth b cols []
            = reverse_prefix (Z.to_nat (nth b lens 0%Z)) (column b x)).
  { intros b Hb. unfold cols.
    rewrite (@nth_map2 _ _ _ (fun l col => reverse_prefix (Z.to_nat l) col)
               lens (transpose B x) b 0%Z [] [])
      by (rewrite ?length_transpose; lia).
    rewrite nth_transpose_row by exact Hb. reflexivity. }
  assert (Hct : Forall (fun c => length c = T) cols).
  { apply Forall_forall. intros c Hc.
    destruct (In_nth _ _ [] Hc) as (b & Hb & <-). rewrite Hcb in Hb.
    rewrite (Hnth b Hb), length_reverse_prefix, <- HT.
    apply (@length_column _ x b B Hx Hb). }
  eexists. split; [reflexivity|]. split.
  - split; [apply length_transpose|].
    pose proof (transpose_rows Hct) as H. rewrite Hcb in H. exact H.
  - intros t b d Ht Hb.
    rewrite (@nth_transpose _ T cols t b d Hct Ht).
    rewrite (Hnth b Hb).
    assert (Hlen : Z.to_nat (nth b lens 0%Z) <= length (column b x)).
    { rewrite (@length_column _ x b B Hx Hb), HT.
      rewrite Forall_forall in Hr.
      assert (Hin : In (nth b lens 0%Z) lens) by (apply nth_In; lia).
      specialize (Hr _ Hin). lia. }
    rewrite (@nth_reverse_prefix _ _ (column b x) t d Hlen).
    apply (@nth_column _ x b _ B d Hx Hb).
Qed.

Lemma length_copy_through B time lengths (past now : list (list R)) :
  length lengths = B -> length past = B -> length now = B ->
  length (copy_through time lengths past now) = B.
Proof.
  intros Hl Hp Hn. unfold copy_through.
  rewrite length_map2, length_combine, Hl, Hp, Hn, !Nat.min_id.
  reflexivity.
Qed.

Lemma rnn_steps_shape num_units B (cell : rnn_cell) lengths :
  length lengths = B -> cell_batch B cell ->
  forall inputs time state,
    Forall (fun x => length x = B) inputs -> length state = B ->
    shape2 (length inputs) B
      (fst (rnn_steps num_units B cell lengths time inputs state)).
Proof.
  intros Hl Hc. induction inputs as [|x rest IH]; intros time state Hin Hst;
    simpl.
  - split; [reflexivity | constructor].
  - pose proof (Forall_inv Hin) as Hx.
    pose proof (Forall_inv_tail Hin) as Hrest.
    destruct (Hc x state Hx Hst) as [Hout Hnew].
    destruct (cell x state) as [out new_state]. simpl in Hout, Hnew.
    assert (Hst' : length (copy_through time lengths state new_state) = B)
      by (apply length_copy_through; assumption).
    specialize (IH (S time) (copy_through time lengths state new_state)
                  Hrest Hst').
    destruct (rnn_steps num_units B cell lengths (S time) rest
                (copy_through time lengths state new_state))
      as [outs final].
    simpl in *. destruct IH as [IH1 IH2]. split; [simpl; lia|].
    constructor; [| exact IH2].
    apply length_copy_through; try assumption.
    unfold zero_state. apply repeat_length.
Qed.

Lemma tadd_shape T B x y :
  shape2 T B x -> shape2 T B y -> shape2 T B (tadd x y).
Proof.
  intros [Hx1 Hx2] [Hy1 Hy2]. unfold tadd. split.
  - rewrite length_map2. lia.
  - apply Forall_forall. intros r Hr.
    destruct (In_nth _ _ [] Hr) as (t & Ht & <-).
    rewrite length_map2 in Ht.
    rewrite (@nth_map2 _ _ _ (map2 vadd) x y t [] [] []) by lia.
    rewrite length_map2.
    rewrite Forall_forall in Hx2, Hy2.
    rewrite (Hx2 (nth t x [])) by (apply nth_In; lia).
    rewrite (Hy2 (nth t y [])) by (apply nth_In; lia).
    apply Nat.min_id.
Qed.

Lemma at3_tadd T B x y t b :
  shape2 T B x -> shape2 T B y -> t < T -> b < B ->
  at3 (tadd x y) t b = vadd (at3 x t b) (at3 y t b).
Proof.
  intros [Hx1 Hx2] [Hy1 Hy2] Ht Hb. unfold at3, tadd.
  rewrite (@nth_map2 _ _ _ (map2 vadd) x y t [] [] []) by lia.
  rewrite Forall_forall in Hx2, Hy2.
  apply nth_map2.
  - rewrite (Hx2 (nth t x [])) by (apply nth_In; lia). exact Hb.
  - rewrite (Hy2 (nth t y [])) by (apply nth_In; lia). exact Hb.
Qed.

(** C5. In a bidirectional layer over [T] time steps of [B] examples, with
    per-example lengths between 0 and [T] and cells that work row by row on
    the batch: the layer yields a (time, batch) sequence
    whose entry at step [t] of example [b] is the elementwise sum of the
    forward output at [(t, b)] and of the backward output of the same
    example taken at step [len b - 1 - t] when [t] is below the example's
    length [len b], and at step [t] itself (left as emitted) beyond it. *)
Theorem bidirectional_rnn_adds_reversed_backward
  num_units B (cell_fw cell_bw : rnn_cell) inputs lengths T :
  shape2 T B inputs -> length lengths = B ->
  Forall (fun l => (0 <= l <= Z.of_nat T)%Z) lengths ->
  cell_batch B cell_fw -> cell_batch B cell_bw ->
  let output_fw := fst (dynamic_rnn num_units B cell_fw inputs lengths) in
  let output_bw := fst (dynamic_rnn num_units B cell_bw inputs lengths) in
  exists outputs output_state,
    bidirectional_rnn num_units B cell_fw cell_bw inputs lengths
    = Some (outputs, output_state) /\
    shape2 T B outputs /\
    forall t b, t < T -> b < B ->
      let len := Z.to_nat (nth b lengths 0%Z) in
      at3 outputs t b
      = vadd (at3 output_fw t b)
             (at3 output_bw (if t <? len then len - 1 - t else t) b).
Proof.
  intros [HT Hin] Hl Hr Hfw Hbw output_fw output_bw.
  assert (Hz : length (zero_state num_units B) = B)
    by (unfold zero_state; apply repeat_length).
  pose proof (@rnn_steps_shape num_units B cell_fw lengths Hl Hfw inputs 0
                (zero_state num_units B) Hin Hz) as Hsf.
  pose proof (@rnn_steps_shape num_units B cell_bw lengths Hl Hbw inputs 0
                (zero_state num_units B) Hin Hz) as Hsb.
  rewrite HT in Hsf, Hsb.
  fold (dynamic_rnn num_units B cell_fw inputs lengths) in Hsf.
  fold (dynamic_rnn num_units B cell_bw inputs lengths) in Hsb.
  fold output_fw in Hsf. fold output_bw in Hsb.
  unfold bidirectional_rnn.
  destruct (dynamic_rnn num_units B cell_fw inputs lengths)
    as [ofw sfw] eqn:Efw.
  destruct (dynamic_rnn num_units B cell_bw inputs lengths)
    as [obw sbw] eqn:Ebw.
  simpl in output_fw, output_bw. subst output_fw output_bw.
  destruct (@reverse_sequence_spec _ B T obw lengths Hsb Hl Hr)
    as (rev_bw & Hrev & Hshape & Hnth).
  rewrite Hrev. cbv beta iota delta [obind].
  eexists. eexists. split; [reflexivity|]. split.
  - apply tadd_shape; assumption.
  - intros t b Ht Hb.
    rewrite (@at3_tadd T B ofw rev_bw t b Hsf Hshape Ht Hb).
    f_equal. unfold at3. apply Hnth; assumption.
Qed.

Lemma bidirectional_rnn_adds_reversed_backward_witness :
  exists outputs output_state,
    bidirectional_rnn 1 1
      (fun x s => (x, x)) (fun x s => (map2 vadd x s, map2 vadd x s))
      [[[1%R]]; [[2%R]]] [2%Z]
    = Some (outputs, output_state) /\
    shape2 2 1 outputs.
Proof.
  assert (Hs : shape2 2 1 [[[1%R]]; [[2%R]]]).
  { split; [reflexivity | repeat constructor]. }
  assert (Hr : Forall (fun l => (0 <= l <= Z.of_nat 2)%Z) [2%Z]).
  { constructor; [simpl; lia | constructor]. }
  assert (Hfw : cell_batch 1 (fun x s : list (list R) => (x, x))).
  { intros x s Hx _. split; exact Hx. }
  assert (Hbw : cell_batch 1
                  (fun x s : list (list R) =>
                     (map2 vadd x s, map2 vadd x s))).
  { intros x s Hx Hst. simpl. rewrite length_map2, Hx, Hst.
    split; reflexivity. }
  destruct (@bidirectional_rnn_adds_reversed_backward 1 1 _ _
              [[[1%R]]; [[2%R]]] [2%Z] 2 Hs eq_refl Hr Hfw Hbw)
    as (outputs & st & Hrun & Hshape & _).
  exists outputs, st. split; assumption.
Defined.

(** ** Gradient clipping and the driver *)

Open Scope R_scope.

Lemma l2_loss_nonneg t : 0 <= l2_loss t.
Proof.
  unfold l2_loss.
  assert (H : 0 <= Rsum (map (fun x => x * x) t)).
  { apply Rsum_nonneg. apply Forall_forall. intros y Hy.
    apply in_map_iff in Hy. destruct Hy as (x & <- & _). nra. }
  lra.
Qed.

Lemma l2_loss_vscale s t : l2_loss (vscale s t) = s * s * l2_loss t.
Proof.
  unfold l2_loss, vscale. rewrite map_map.
  assert (H : Rsum (map (fun x => s * x * (s * x)) t)
              = s * s * Rsum (map (fun x => x * x) t)).
  { induction t as [|x r IH]; simpl; [lra|]. rewrite IH. lra. }
  rewrite H. lra.
Qed.

Lemma sum_l2_loss_nonneg ts : 0 <= Rsum (map l2_loss ts).
Proof.
  apply Rsum_nonneg. apply Forall_forall. intros y Hy.
  apply in_map_iff in Hy. destruct Hy as (t & <- & _). apply l2_loss_nonneg.
Qed.

Lemma global_norm_nonneg ts : 0 <= global_norm ts.
Proof. unfold global_norm. apply sqrt_pos. Qed.

Lemma global_norm_vscale s ts :
  global_norm (map (vscale s) ts) = Rabs s * global_norm ts.
Proof.
  unfold global_norm. rewrite map_map.
  assert (H : Rsum (map (fun t => l2_loss (vscale s t)) ts)
              = s * s * Rsum (map l2_loss ts)).
  { induction ts as [|t r IH]; simpl; [lra|].
    rewrite IH, l2_loss_vscale. lra. }
  rewrite H. pose proof (sum_l2_loss_nonneg ts) as Hn.
  replace (2 * (s * s * Rsum (map l2_loss ts)))
    with (Rsqr s * (2 * Rsum (map l2_loss ts))) by (unfold Rsqr; lra).
  rewrite sqrt_mult; [| apply Rle_0_sqr | lra].
  rewrite sqrt_Rsqr_abs. reflexivity.
Qed.

(** After clipping, the global norm is the smaller of the raw norm and the
    threshold. *)
Lemma clip_by_global_norm_bound ts c :
  0 < c -> global_norm (fst (clip_by_global_norm ts c)) <= c.
Proof.
  intros Hc. unfold clip_by_global_norm. simpl fst.
  rewrite global_norm_vscale.
  pose proof (global_norm_nonneg ts) as Hn.
  set (gn := global_norm ts) in *.
  assert (Hinv : 0 <= 1 / gn).
  { destruct (Req_dec gn 0) as [-> | Hne].
    - unfold Rdiv. rewrite Rinv_0. lra.
    - apply Rlt_le. apply Rdiv_lt_0_compat; lra. }
  assert (Hinc : 0 < 1 / c) by (apply Rdiv_lt_0_compat; lra).
  assert (Hmin : 0 <= Rmin (1 / gn) (1 / c)).
  { apply Rmin_glb; lra. }
  rewrite Rabs_pos_eq by (apply Rmult_le_pos; lra).
  destruct (Req_dec gn 0) as [Hz | Hne]; [rewrite Hz; lra|].
  assert (Hle : Rmin (1 / gn) (1 / c) * gn <= 1).
  { apply Rle_trans with (1 / gn * gn).
    - apply Rmult_le_compat_r; [lra | apply Rmin_l].
    - unfold Rdiv. rewrite Rmult_1_l, Rinv_l by exact Hne. lra. }
  rewrite Rmult_assoc. nra.
Qed.

Lemma Rsum_zero_all l :
  Forall (fun x => 0 <= x) l -> Rsum l = 0 -> Forall (fun x => x = 0) l.
Proof.
  induction 1 as [|x r Hx Hr IH]; simpl; intros H; constructor.
  - pose proof (Rsum_nonneg Hr). lra.
  - apply IH. pose proof (Rsum_nonneg Hr). lra.
Qed.

Lemma l2_loss_zero t : l2_loss t = 0 -> Forall (fun x => x = 0) t.
Proof.
  unfold l2_loss. intros H.
  assert (Hs : Rsum (map (fun x => x * x) t) = 0) by lra.
  assert (Hn : Forall (fun y => 0 <= y) (map (fun x => x * x) t)).
  { apply Forall_forall. intros y Hy. apply in_map_iff in Hy.
    destruct Hy as (x & <- & _). nra. }
  pose proof (Rsum_zero_all Hn Hs) as Hz.
  rewrite Forall_map in Hz.
  eapply Forall_impl; [| exact Hz]. simpl. intros x Hx. nra.
Qed.

Lemma global_norm_zero ts :
  global_norm ts = 0 -> Forall (Forall (fun x => x = 0)) ts.
Proof.
  unfold global_norm. intros H.
  pose proof (sum_l2_loss_nonneg ts) as Hn.
  assert (Hs : Rsum (map l2_loss ts) = 0).
  { apply sqrt_eq_0 in H; lra. }
  assert (Hl : Forall (fun y => 0 <= y) (map l2_loss ts)).
  { apply Forall_forall. intros y Hy. apply in_map_iff in Hy.
    destruct Hy as (t & <- & _). apply l2_loss_nonneg. }
  pose proof (Rsum_zero_all Hl Hs) as Hz. rewrite Forall_map in Hz.
  eapply Forall_impl; [| exact Hz]. simpl. intros t Ht.
  apply l2_loss_zero. exact Ht.
Qed.

Lemma vscale_one t : vscale 1 t = t.
Proof.
  unfold vscale. induction t as [|x r IH]; simpl; [reflexivity|].
  rewrite IH. f_equal. lra.
Qed.

Lemma vscale_zeros s t : Forall (fun x => x = 0) t -> vscale s t = t.
Proof.
  unfold vscale. induction 1 as [|x r Hx _ IH]; simpl; [reflexivity|].
  rewrite IH, Hx. f_equal. lra.
Qed.

Lemma clip_scale_within gn c :
  0 < gn <= c -> c * Rmin (1 / gn) (1 / c) = 1.
Proof.
  intros [Hg Hc]. rewrite Rmin_right.
  - unfold Rdiv. rewrite Rmult_1_l. apply Rinv_r. lra.
  - unfold Rdiv. rewrite !Rmult_1_l. apply Rinv_le_contravar; lra.
Qed.

Lemma clip_scale_beyond gn c :
  0 < c < gn -> c * Rmin (1 / gn) (1 / c) = c / gn.
Proof.
  intros [Hc Hg]. rewrite Rmin_left.
  - unfold Rdiv. lra.
  - unfold Rdiv. rewrite !Rmult_1_l. apply Rinv_le_contravar; lra.
Qed.

(** Clipping by global norm, exactly. *)
Lemma clip_by_global_norm_min ts c :
  0 < c ->
  global_norm (fst (clip_by_global_norm ts c)) = Rmin (global_norm ts) c /\
  (global_norm ts <= c -> fst (clip_by_global_norm ts c) = ts) /\
  snd (clip_by_global_norm ts c) = global_norm ts.
Proof.
  intros Hc. unfold clip_by_global_norm. simpl fst. simpl snd.
  pose proof (global_norm_nonneg ts) as Hn.
  assert (Hsame : global_norm ts <= c ->
                  map (vscale (c * Rmin (1 / global_norm ts) (1 / c))) ts
                  = ts).
  { intros Hle. destruct (Req_dec (global_norm ts) 0) as [Hz | Hnz].
    - pose proof (global_norm_zero ts Hz) as Hall.
      rewrite <- (map_id ts) at 3. apply map_ext_in. intros t Ht.
      apply vscale_zeros. rewrite Forall_forall in Hall. apply Hall. exact Ht.
    - rewrite clip_scale_within by lra.
      rewrite <- (map_id ts) at 2. apply map_ext. apply vscale_one. }
  split; [| split; [exact Hsame | reflexivity]].
  destruct (Rle_dec (global_norm ts) c) as [Hle | Hgt].
  - rewrite (Hsame Hle). rewrite Rmin_left by exact Hle. reflexivity.
  - assert (Hgt' : c < global_norm ts) by lra.
    rewrite global_norm_vscale, clip_scale_beyond by lra.
    rewrite Rmin_right by lra.
    rewrite Rabs_pos_eq by (apply Rlt_le, Rdiv_lt_0_compat; lra).
    unfold Rdiv. rewrite Rmult_assoc, Rinv_l by lra. lra.
Qed.

(** The global norm of the library is the norm of the contract. *)
Lemma global_norm_euclidean ts : global_norm ts = euclidean_norm ts.
Proof.
  unfold global_norm, euclidean_norm. f_equal.
  induction ts as [|t r IH]; simpl; [lra|].
  rewrite map_app, Rsum_app. unfold l2_loss at 1. lra.
Qed.

(** The clipped gradients are the gradients scaled by
    [clip_norm / max(global_norm, clip_norm)]. *)
Lemma clip_by_global_norm_spec ts c :
  0 < c -> fst (clip_by_global_norm ts c) = spec_clipped ts c.
Proof.
  intros Hc. unfold spec_clipped. rewrite <- global_norm_euclidean.
  destruct (Rle_dec (global_norm ts) c) as [Hle | Hgt].
  - destruct (@clip_by_global_norm_min ts c Hc) as (_ & Hsame & _).
    rewrite (Hsame Hle). rewrite Rmax_right by exact Hle.
    unfold Rdiv. rewrite Rinv_r by lra.
    rewrite <- (map_id ts) at 1. apply map_ext. intros t.
    symmetry. apply vscale_one.
  - unfold clip_by_global_norm. simpl fst.
    rewrite clip_scale_beyond by lra. rewrite Rmax_left by lra. reflexivity.
Qed.

Section DriverFacts.
Variable opt_slots : Type.
Variables max_gradient_norm learning_rate_decay_factor : R.
Variable forward_only : bool.
Variable losses_graph : list (list R) -> feed -> option R.
Variable outputs_graph :
  list (list R) -> feed -> option (list (list (list R))).
Variable gradients_graph : list (list R) -> feed -> option (list (list R)).
Variable adam_apply :
  R -> opt_slots -> list (list R * list R) -> opt_slots * list (list R).

(** C7. In a model built for training with a positive
    [max_gradient_norm], on any batch for which the loss and its
    gradients [g] are computed, the train step returns the triple
    (gradient_norm, loss, parameter_norm) and advances the global step by
    one.  The gradients are clipped to
    [g * max_gradient_norm / max(norm g, max_gradient_norm)], where the norm
    is the square root of the sum of the squares of all their entries; the
    reported gradient_norm is that norm of the clipped gradients, which is
    the smaller of [norm g] and [max_gradient_norm], hence at most
    [max_gradient_norm] whatever the raw gradients are; the reported
    parameter_norm is that norm of the parameters the step started with;
    and the optimizer is applied to the clipped gradients paired with the
    parameters. *)
Theorem train_reports_clipped_gradient_norm (m : model opt_slots) fd g l :
  forward_only = false -> 0 < max_gradient_norm ->
  gradients_graph (params m) fd = Some g ->
  losses_graph (params m) fd = Some l ->
  exists gn pn m',
    train max_gradient_norm learning_rate_decay_factor forward_only
      losses_graph outputs_graph gradients_graph adam_apply m fd
    = Some ((V_scalar gn, V_scalar l, V_scalar pn), m') /\
    gn = global_norm (fst (clip_by_global_norm g max_gradient_norm)) /\
    gn <= max_gradient_norm /\
    global_step m' = (global_step m + 1)%Z /\
    learning_rate m' = learning_rate m /\
    fst (clip_by_global_norm g max_gradient_norm)
    = spec_clipped g max_gradient_norm /\
    gn = euclidean_norm (spec_clipped g max_gradient_norm) /\
    gn = Rmin (euclidean_norm g) max_gradient_norm /\
    pn = euclidean_norm (params m) /\
    (slots m', params m')
    = adam_apply (learning_rate m) (slots m)
        (combine (spec_clipped g max_gradient_norm) (params m)).
Proof.
  intros Hfo Hmax Hg Hl.
  pose proof (@clip_by_global_norm_spec g max_gradient_norm Hmax) as Hspec.
  destruct (@clip_by_global_norm_min g max_gradient_norm Hmax)
    as (Hmin & _ & _).
  unfold train, session_run. simpl fetch_values.
  unfold gradient_norm_of. rewrite Hfo, Hg, Hl.
  cbv beta iota delta [obind].
  simpl fetch_effects. unfold updates_op. rewrite Hg.
  cbv beta iota delta [obind].
  destruct (clip_by_global_norm g max_gradient_norm) as [clipped raw] eqn:E.
  simpl fst in Hspec, Hmin. subst clipped.
  destruct (adam_apply (learning_rate m) (slots m)
              (combine (spec_clipped g max_gradient_norm) (params m)))
    as [slots' params'] eqn:Ea.
  cbv beta iota delta [obind]. simpl nth.
  eexists. eexists. eexists. split; [reflexivity|].
  split; [reflexivity|].
  split; [rewrite Hmin; apply Rmin_r|].
  split; [reflexivity|]. split; [reflexivity|]. split; [reflexivity|].
  split; [apply global_norm_euclidean|].
  split; [rewrite Hmin, global_norm_euclidean; reflexivity|].
  split; [apply global_norm_euclidean | reflexivity].
Qed.

(** C9. On any batch for which the forward graph yields a loss and the
    output distributions, the test step returns the pair
    (loss, output distributions) and leaves the whole model unchanged:
    parameters, learning rate, global step and optimizer slots. *)
Theorem test_returns_loss_outputs_and_keeps_model (m : model opt_slots)
  fd l o :
  losses_graph (params m) fd = Some l ->
  outputs_graph (params m) fd = Some o ->
  test max_gradient_norm learning_rate_decay_factor forward_only
    losses_graph outputs_graph gradients_graph adam_apply m fd = Some ((V_scalar l, V_tensor o), m).
Proof.
  intros Hl Ho. unfold test, session_run. simpl.
  rewrite Hl, Ho. reflexivity.
Qed.

(** The test step never changes the model, also when it fails. *)
Lemma test_frame (m m' : model opt_slots) fd r :
  test max_gradient_norm learning_rate_decay_factor forward_only
    losses_graph outputs_graph gradients_graph adam_apply m fd = Some (r, m') -> m' = m.
Proof.
  unfold test, session_run. simpl.
  destruct (losses_graph (params m) fd); simpl; [| discriminate].
  destruct (outputs_graph (params m) fd); simpl; [| discriminate].
  intros H. inversion H. reflexivity.
Qed.
End DriverFacts.

Lemma learning_rate_decay_iter (opt_slots : Type) factor
  (m : model opt_slots) n :
  let m' := Nat.iter n (learning_rate_decay_op factor) m in
  learning_rate m' = learning_rate m * factor ^ n /\
  params m' = params m /\ global_step m' = global_step m /\
  slots m' = slots m.
Proof.
  induction n as [|n IH]; simpl.
  - repeat split. lra.
  - destruct IH as (IH1 & IH2 & IH3 & IH4). simpl in *.
    repeat split; try assumption. rewrite IH1. lra.
Qed.

(** C8. Running the decay operation replaces the learning rate by its
    product with the decay factor and changes nothing else; [n] runs from
    the rate [r] leave the rate [r * factor ^ n]; from the rate 0.1 with the
    factor 0.5 one run leaves 0.05 and [n] runs leave [0.1 * 0.5 ^ n]. *)
Theorem learning_rate_decay_multiplies (opt_slots : Type)
  max_gradient_norm factor forward_only losses_graph outputs_graph
  gradients_graph adam_apply (m : model opt_slots) fd :
  session_run max_gradient_norm factor forward_only losses_graph
    outputs_graph gradients_graph adam_apply m [F_learning_rate_decay_op] fd
  = Some ([V_scalar (learning_rate m * factor)],
          learning_rate_decay_op factor m) /\
  learning_rate (learning_rate_decay_op factor m)
  = learning_rate m * factor /\
  (forall n,
     learning_rate (Nat.iter n (learning_rate_decay_op factor) m)
     = learning_rate m * factor ^ n) /\
  (forall ps gs (sl : opt_slots),
     learning_rate (learning_rate_decay_op 0.5 (Model ps 0.1 gs sl)) = 0.05) /\
  (forall ps gs (sl : opt_slots) n,
     learning_rate
       (Nat.iter n (learning_rate_decay_op 0.5) (Model ps 0.1 gs sl))
     = 0.1 * 0.5 ^ n).
Proof.
  split; [reflexivity|]. split; [reflexivity|]. split; [| split].
  - intros n. apply (learning_rate_decay_iter factor m n).
  - intros ps gs sl. simpl. lra.
  - intros ps gs sl n.
    apply (learning_rate_decay_iter 0.5 (Model ps 0.1 gs sl) n).
Qed.

Lemma train_reports_clipped_gradient_norm_witness :
  exists gn pn m',
    train (opt_slots := unit) 1 0.5 false
      (fun _ _ => Some 7) (fun _ _ => Some [])
      (fun _ _ => Some [[3; 4]]) (fun _ s gps => (s, map snd gps))
      (Model [[1; 2]] 0.1 0%Z tt) (Feed [] [] [] [])
    = Some ((V_scalar gn, V_scalar 7, V_scalar pn), m') /\
    gn <= 1 /\
    gn = Rmin (euclidean_norm [[3; 4]]) 1 /\
    pn = euclidean_norm [[1; 2]] /\
    global_step m' = 1%Z.
Proof.
  destruct (@train_reports_clipped_gradient_norm unit 1 0.5 false
              (fun _ _ => Some 7) (fun _ _ => Some [])
              (fun _ _ => Some [[3; 4]]) (fun _ s gps => (s, map snd gps))
              (Model [[1; 2]] 0.1 0%Z tt) (Feed [] [] [] []) [[3; 4]] 7
              eq_refl ltac:(lra) eq_refl eq_refl)
    as (gn & pn & m' & Hrun & _ & Hle & Hstep & _ & _ & _ & Hmin & Hpn & _).
  exists gn, pn, m'. repeat split; assumption.
Defined.

Lemma test_returns_loss_outputs_and_keeps_model_witness :
  test (opt_slots := unit) 1 0.5 false
    (fun _ _ => Some 7) (fun _ _ => Some [[[1]]])
    (fun _ _ => Some [[3; 4]]) (fun _ s gps => (s, map snd gps))
    (Model [[1; 2]] 0.1 0%Z tt) (Feed [] [] [] [])
  = Some ((V_scalar 7, V_tensor [[[1]]]), Model [[1; 2]] 0.1 0%Z tt).
Proof.
  apply (@test_returns_loss_outputs_and_keeps_model unit 1 0.5 false
           (fun _ _ => Some 7) (fun _ _ => Some [[[1]]])
           (fun _ _ => Some [[3; 4]]) (fun _ s gps => (s, map snd gps))
           (Model [[1; 2]] 0.1 0%Z tt) (Feed [] [] [] []) 7 [[[1]]]
           eq_refl eq_refl).
Defined.

(** * Further properties of the graph *)

(** ** The downscaled mask stays a valid mask *)

Close Scope R_scope.

Lemma leading_ones_le l : leading_ones l <= length l.
Proof.
  induction l as [|x r IH]; simpl; [lia|]. destruct (x =? 1)%Z; lia.
Qed.

Lemma all_zero_nth l i : all_zero l = true -> nth i l 0%Z = 0%Z.
Proof.
  revert i; induction l as [|x r IH]; intros [|i] H; simpl in *; auto;
    apply andb_true_iff in H; destruct H as [Hx Hr].
  - apply Z.eqb_eq. exact Hx.
  - apply IH. exact Hr.
Qed.

Lemma prefix_of_ones_nth l i :
  prefix_of_ones l = true ->
  nth i l 0%Z = if i <? leading_ones l then 1%Z else 0%Z.
Proof.
  revert i; induction l as [|x r IH]; intros i H; simpl in *.
  - destruct i; reflexivity.
  - destruct (x =? 1)%Z eqn:E.
    + apply Z.eqb_eq in E. destruct i as [|i]; [exact E|].
      rewrite (IH i H). reflexivity.
    + apply andb_true_iff in H. destruct H as [Hx Hr].
      apply Z.eqb_eq in Hx. destruct i as [|i]; [exact Hx|].
      apply all_zero_nth. exact Hr.
Qed.

Lemma all_zero_from_nth l :
  (forall i, i < length l -> nth i l 0%Z = 0%Z) -> all_zero l = true.
Proof.
  induction l as [|x r IH]; intros H; simpl; [reflexivity|].
  apply andb_true_iff. split.
  - apply Z.eqb_eq. apply (H 0). simpl. lia.
  - apply IH. intros i Hi. apply (H (S i)). simpl. lia.
Qed.

Lemma prefix_of_ones_from_nth l n :
  n <= length l ->
  (forall i, i < length l -> nth i l 0%Z = if i <? n then 1%Z else 0%Z) ->
  prefix_of_ones l = true /\ leading_ones l = n.
Proof.
  revert n; induction l as [|x r IH]; intros n Hn H; simpl in *.
  - split; [reflexivity | lia].
  - destruct n as [|n].
    + assert (Hx : x = 0%Z) by (apply (H 0); lia). subst x. simpl.
      split; [| reflexivity].
      apply all_zero_from_nth. intros i Hi. apply (H (S i)). lia.
    + assert (Hx : x = 1%Z) by (apply (H 0); lia). subst x. simpl.
      destruct (IH n) as [IH1 IH2]; [lia | | split; [exact IH1 | lia]].
      intros i Hi. apply (H (S i)). lia.
Qed.

Lemma pool_pair_prefix n j :
  pool_pair (if 2 * j <? n then 1%Z else 0%Z)
            (if 2 * j + 1 <? n then 1%Z else 0%Z)
  = if j <? (n + 1) / 2 then 1%Z else 0%Z.
Proof.
  assert (Hd : 2 * ((n + 1) / 2) <= n + 1 < 2 * ((n + 1) / 2) + 2).
  { pose proof (Nat.div_mod_eq (n + 1) 2) as E.
    pose proof (Nat.mod_upper_bound (n + 1) 2). lia. }
  destruct (2 * j <? n) eqn:E1; destruct (2 * j + 1 <? n) eqn:E2;
    destruct (j <? (n + 1) / 2) eqn:E3; try reflexivity;
    repeat match goal with
    | H : (_ <? _) = true |- _ => apply Nat.ltb_lt in H
    | H : (_ <? _) = false |- _ => apply Nat.ltb_ge in H
    end; lia.
Qed.

(** The downscale of a valid mask, with the lengths it encodes. *)
Lemma downscale_mask_valid_gen B k mask :
  0 < B -> shape2 (2 * k) B mask -> valid_mask B mask ->
  exists out,
    downscale_mask B mask = Some out /\
    shape2 k B out /\
    valid_mask B out /\
    forall b, b < B ->
      leading_ones (column b out) = (leading_ones (column b mask) + 1) / 2.
Proof.
  intros HB Hs Hv.
  destruct (@downscale_mask_even_gen B k mask HB Hs)
    as (out & Hout & Hshape & Hnth).
  exists out. split; [exact Hout|]. split; [exact Hshape|].
  destruct Hs as [HT Hm]. destruct Hshape as [Hk Ho].
  assert (Hcol : forall b, b < B ->
            prefix_of_ones (column b out) = true /\
            leading_ones (column b out)
            = (leading_ones (column b mask) + 1) / 2).
  { intros b Hb.
    pose proof (leading_ones_le (column b mask)) as Hle.
    rewrite (@length_column _ mask b B Hm Hb), HT in Hle.
    apply prefix_of_ones_from_nth.
    - rewrite (@length_column _ out b B Ho Hb), Hk.
      pose proof (Nat.div_mod_eq (leading_ones (column b mask) + 1) 2).
      pose proof (Nat.mod_upper_bound (leading_ones (column b mask) + 1) 2).
      lia.
    - intros j Hj. rewrite (@length_column _ out b B Ho Hb), Hk in Hj.
      rewrite (@nth_column _ out b j B 0%Z Ho Hb).
      rewrite (Hnth j b Hj Hb).
      rewrite <- !(@nth_column _ mask b _ B 0%Z Hm Hb).
      rewrite !(@prefix_of_ones_nth (column b mask) _ (Hv b Hb)).
      apply pool_pair_prefix. }
  split.
  - intros b Hb. apply (Hcol b Hb).
  - intros b Hb. apply (Hcol b Hb).
Qed.

Lemma sequence_length_of_valid B T mask b :
  shape2 T B mask -> (Z.of_nat T < 2 ^ 31)%Z -> valid_mask B mask -> b < B ->
  nth b (sequence_length B mask) 0%Z
  = Z.of_nat (leading_ones (column b mask)).
Proof.
  intros Hs HT Hv Hb. rewrite (nth_sequence_length Hs Hb).
  destruct Hs as [HT' Hm]. change 0%Z with (Z.of_nat 0).
  rewrite fold_add32_prefix; [reflexivity | apply Hv; exact Hb |].
  rewrite (@length_column _ mask b B Hm Hb). simpl. lia.
Qed.

(** X1. On an even time dimension the downscale turns a mask whose columns
    are runs of 1s followed by 0s into a mask of half as many time steps
    whose columns are again runs of 1s followed by 0s. *)
Theorem downscale_mask_keeps_valid B k mask :
  0 < B -> shape2 (2 * k) B mask -> valid_mask B mask ->
  exists out,
    downscale_mask B mask = Some out /\
    shape2 k B out /\
    valid_mask B out.
Proof.
  intros HB Hs Hv.
  destruct (@downscale_mask_valid_gen B k mask HB Hs Hv)
    as (out & Hout & Hshape & Hvalid & _).
  exists out. auto.
Qed.

Lemma downscale_mask_keeps_valid_witness :
  exists out,
    downscale_mask 2 [[1;1];[1;1];[0;1];[0;1]]%Z = Some out /\
    shape2 2 2 out /\ valid_mask 2 out.
Proof.
  assert (Hs : shape2 (2 * 2) 2 [[1;1];[1;1];[0;1];[0;1]]%Z).
  { split; [reflexivity | repeat constructor]. }
  assert (Hv : valid_mask 2 [[1;1];[1;1];[0;1];[0;1]]%Z).
  { intros [|[|i]] Hi; try reflexivity. lia. }
  exact (@downscale_mask_keeps_valid 2 2 _ ltac:(lia) Hs Hv).
Defined.

(** X2. The lengths read off the downscaled mask are the lengths read off
    the input mask halved and rounded up: an example with [n] valid steps
    has [(n + 1) / 2] valid steps after one downscale. *)
Theorem downscale_halves_sequence_length B k mask :
  0 < B -> shape2 (2 * k) B mask -> valid_mask B mask ->
  (Z.of_nat (2 * k) < 2 ^ 31)%Z ->
  exists out,
    downscale_mask B mask = Some out /\
    forall b, b < B ->
      nth b (sequence_length B out) 0%Z
      = ((nth b (sequence_length B mask) 0%Z + 1) / 2)%Z.
Proof.
  intros HB Hs Hv HT.
  destruct (@downscale_mask_valid_gen B k mask HB Hs Hv)
    as (out & Hout & Hshape & Hvalid & Hlen).
  exists out. split; [exact Hout|]. intros b Hb.
  rewrite (@sequence_length_of_valid B k out b Hshape) by (auto; lia).
  rewrite (@sequence_length_of_valid B (2 * k) mask b Hs HT Hv Hb).
  rewrite (Hlen b Hb), Nat2Z.inj_div, Nat2Z.inj_add. reflexivity.
Qed.

Lemma downscale_halves_sequence_length_witness :
  exists out,
    downscale_mask 2 [[1;1];[1;1];[0;1];[0;1]]%Z = Some out /\
    nth 0 (sequence_length 2 out) 0%Z = 1%Z /\
    nth 1 (sequence_length 2 out) 0%Z = 2%Z.
Proof.
  assert (Hs : shape2 (2 * 2) 2 [[1;1];[1;1];[0;1];[0;1]]%Z).
  { split; [reflexivity | repeat constructor]. }
  assert (Hv : valid_mask 2 [[1;1];[1;1];[0;1];[0;1]]%Z).
  { intros [|[|i]] Hi; try reflexivity. lia. }
  destruct (@downscale_halves_sequence_length 2 2 _ ltac:(lia) Hs Hv
              ltac:(reflexivity)) as (out & Hout & Hlen).
  exists out. split; [exact Hout|].
  split; [rewrite (Hlen 0) by lia | rewrite (Hlen 1) by lia]; reflexivity.
Defined.

(** ** Past an example's length the bidirectional layer emits zeros *)

Lemma nth_copy_through B time lengths (past now : list (list R)) b :
  length lengths = B -> length past = B -> length now = B -> b < B ->
  nth b (copy_through time lengths past now) []
  = if (nth b lengths 0%Z <=? Z.of_nat time)%Z
    then nth b past [] else nth b now [].
Proof.
  intros Hl Hp Hn Hb. unfold copy_through.
  rewrite (@nth_map2 _ _ _
             (fun (len : Z) (pn : list R * list R) =>
                if (len <=? Z.of_nat time)%Z then fst pn else snd pn)
             lengths (combine past now) b 0%Z ([], []) [])
    by (rewrite ?length_combine; lia).
  rewrite combine_nth by lia. reflexivity.
Qed.

Lemma nth_zero_state num_units B b :
  b < B -> nth b (zero_state num_units B) [] = repeat 0%R num_units.
Proof.
  intros Hb. unfold zero_state.
  rewrite (nth_indep _ [] (repeat 0%R num_units))
    by (rewrite repeat_length; exact Hb).
  apply nth_repeat.
Qed.

Lemma rnn_steps_zero_beyond num_units B (cell : rnn_cell) lengths :
  length lengths = B -> cell_batch B cell ->
  forall inputs time state,
    Forall (fun x => length x = B) inputs -> length state = B ->
    forall i b, i < length inputs -> b < B ->
      (nth b lengths 0 <= Z.of_nat (time + i))%Z ->
      at3 (fst (rnn_steps num_units B cell lengths time inputs state)) i b
      = repeat 0%R num_units.
Proof.
  intros Hl Hc. induction inputs as [|x rest IH];
    intros time state Hin Hst i b Hi Hb Hlen; simpl in Hi; [lia|].
  pose proof (Forall_inv Hin) as Hx.
  pose proof (Forall_inv_tail Hin) as Hrest.
  simpl. destruct (Hc x state Hx Hst) as [Hout Hnew].
  destruct (cell x state) as [out new_state]. simpl in Hout, Hnew.
  assert (Hst' : length (copy_through time lengths state new_state) = B)
    by (apply length_copy_through; assumption).
  specialize (IH (S time) (copy_through time lengths state new_state)
                Hrest Hst').
  destruct (rnn_steps num_units B cell lengths (S time) rest
              (copy_through time lengths state new_state))
    as [outs final].
  simpl in *. destruct i as [|i]; unfold at3; simpl.
  - rewrite (@nth_copy_through B time lengths (zero_state num_units B) out b)
      by (try assumption; unfold zero_state; apply repeat_length).
    destruct (nth b lengths 0 <=? Z.of_nat time)%Z eqn:E;
      [| apply Z.leb_gt in E; lia].
    apply nth_zero_state. exact Hb.
  - apply (IH i b); lia.
Qed.

Lemma vadd_zeros n : vadd (repeat 0%R n) (repeat 0%R n) = repeat 0%R n.
Proof.
  induction n as [|n IH]; simpl; [reflexivity|].
  unfold vadd in *. simpl. rewrite IH. f_equal. lra.
Qed.

(** X3. In a bidirectional layer, at every time step at or past an
    example's length the layer's output for that example is the zero vector:
    both passes emit zeros there and the per-example reversal leaves those
    steps where they are. *)
Theorem bidirectional_rnn_zero_past_length
  num_units B (cell_fw cell_bw : rnn_cell) inputs lengths T :
  shape2 T B inputs -> length lengths = B ->
  Forall (fun l => (0 <= l <= Z.of_nat T)%Z) lengths ->
  cell_batch B cell_fw -> cell_batch B cell_bw ->
  exists outputs output_state,
    bidirectional_rnn num_units B cell_fw cell_bw inputs lengths
    = Some (outputs, output_state) /\
    forall t b, t < T -> b < B ->
      (nth b lengths 0 <= Z.of_nat t)%Z ->
      at3 outputs t b = repeat 0%R num_units.
Proof.
  intros [HT Hin] Hl Hr Hfw Hbw.
  assert (Hz : length (zero_state num_units B) = B)
    by (unfold zero_state; apply repeat_length).
  pose proof (@rnn_steps_shape num_units B cell_fw lengths Hl Hfw inputs 0
                (zero_state num_units B) Hin Hz) as Hsf.
  pose proof (@rnn_steps_shape num_units B cell_bw lengths Hl Hbw inputs 0
                (zero_state num_units B) Hin Hz) as Hsb.
  pose proof (@rnn_steps_zero_beyond num_units B cell_fw lengths Hl Hfw
                inputs 0 (zero_state num_units B) Hin Hz) as Hzf.
  pose proof (@rnn_steps_zero_beyond num_units B cell_bw lengths Hl Hbw
                inputs 0 (zero_state num_units B) Hin Hz) as Hzb.
  rewrite HT in Hsf, Hsb, Hzf, Hzb.
  unfold bidirectional_rnn, dynamic_rnn.
  destruct (rnn_steps num_units B cell_fw lengths 0 inputs
              (zero_state num_units B)) as [ofw sfw].
  destruct (rnn_steps num_units B cell_bw lengths 0 inputs
              (zero_state num_units B)) as [obw sbw].
  simpl in Hsf, Hsb, Hzf, Hzb.
  destruct (@reverse_sequence_spec _ B T obw lengths Hsb Hl Hr)
    as (rev_bw & Hrev & Hshape & Hnth).
  rewrite Hrev. cbv beta iota delta [obind].
  eexists. eexists. split; [reflexivity|].
  intros t b Ht Hb Hlen.
  rewrite (@at3_tadd T B ofw rev_bw t b Hsf Hshape Ht Hb).
  rewrite (Hzf t b Ht Hb) by (simpl; exact Hlen).
  unfold at3 at 1. rewrite (Hnth t b [] Ht Hb).
  destruct (t <? Z.to_nat (nth b lengths 0%Z)) eqn:E;
    [apply Nat.ltb_lt in E; lia|].
  fold (at3 obw t b). rewrite (Hzb t b Ht Hb) by (simpl; exact Hlen).
  apply vadd_zeros.
Qed.

Lemma bidirectional_rnn_zero_past_length_witness :
  exists outputs output_state,
    bidirectional_rnn 1 1
      (fun x s => (x, x)) (fun x s => (map2 vadd x s, map2 vadd x s))
      [[[1%R]]; [[2%R]]] [1%Z]
    = Some (outputs, output_state) /\
    at3 outputs 1 0 = [0%R].
Proof.
  assert (Hs : shape2 2 1 [[[1%R]]; [[2%R]]]).
  { split; [reflexivity | repeat constructor]. }
  assert (Hr : Forall (fun l => (0 <= l <= Z.of_nat 2)%Z) [1%Z]).
  { constructor; [simpl; lia | constructor]. }
  assert (Hfw : cell_batch 1 (fun x s : list (list R) => (x, x))).
  { intros x s Hx _. split; exact Hx. }
  assert (Hbw : cell_batch 1
                  (fun x s : list (list R) =>
                     (map2 vadd x s, map2 vadd x s))).
  { intros x s Hx Hst. simpl. rewrite length_map2, Hx, Hst.
    split; reflexivity. }
  destruct (@bidirectional_rnn_zero_past_length 1 1 _ _
              [[[1%R]]; [[2%R]]] [1%Z] 2 Hs eq_refl Hr Hfw Hbw)
    as (outputs & st & Hrun & Hzero).
  exists outputs, st. split; [exact Hrun|].
  apply (Hzero 1 0); simpl; lia.
Defined.

(** ** What clipping does to the gradients *)

Open Scope R_scope.

(** X4. In a model built with a positive [max_gradient_norm], on a batch
    whose gradients are [g]: the gradient norm the graph reports is the
    smaller of the global norm of [g] and [max_gradient_norm]; and when the
    global norm of [g] is within the threshold the optimizer is applied to
    [g] itself, unscaled. *)
Theorem gradient_norm_is_min_and_small_gradients_pass
  (opt_slots : Type) max_gradient_norm gradients_graph
  (adam_apply :
     R -> opt_slots -> list (list R * list R) -> opt_slots * list (list R))
  (m : model opt_slots) fd g :
  0 < max_gradient_norm ->
  gradients_graph (params m) fd = Some g ->
  gradient_norm_of max_gradient_norm gradients_graph (params m) fd
  = Some (Rmin (global_norm g) max_gradient_norm) /\
  (global_norm g <= max_gradient_norm ->
   updates_op max_gradient_norm gradients_graph adam_apply m fd
   = Some (Model
             (snd (adam_apply (learning_rate m) (slots m)
                     (combine g (params m))))
             (learning_rate m) (global_step m + 1)%Z
             (fst (adam_apply (learning_rate m) (slots m)
                     (combine g (params m)))))).
Proof.
  intros Hmax Hg.
  destruct (@clip_by_global_norm_min g max_gradient_norm Hmax)
    as (Hnorm & Hsame & _).
  split.
  - unfold gradient_norm_of. rewrite Hg. cbv beta iota delta [obind].
    destruct (clip_by_global_norm g max_gradient_norm) as [clipped raw].
    simpl in Hnorm. rewrite Hnorm. reflexivity.
  - intros Hle. specialize (Hsame Hle).
    unfold updates_op. rewrite Hg. cbv beta iota delta [obind].
    destruct (clip_by_global_norm g max_gradient_norm) as [clipped raw].
    simpl in Hsame. subst clipped.
    destruct (adam_apply (learning_rate m) (slots m) (combine g (params m)))
      as [slots' params']. reflexivity.
Qed.

Lemma gradient_norm_is_min_and_small_gradients_pass_witness :
  gradient_norm_of 1 (fun _ _ => Some [[3; 4]]) [[1; 2]] (Feed [] [] [] [])
  = Some (Rmin (global_norm [[3; 4]]) 1).
Proof.
  destruct (@gradient_norm_is_min_and_small_gradients_pass unit 1
              (fun _ _ => Some [[3; 4]]) (fun _ s gps => (s, map snd gps))
              (Model [[1; 2]] 0.1 0%Z tt) (Feed [] [] [] []) [[3; 4]]
              ltac:(lra) eq_refl) as [H _].
  exact H.
Defined.

(** ** The output distributions *)

Lemma reshape_blocks (A : Type) (rows : list (list A)) r m c :
  Forall (fun v => length v = c) rows -> length rows = (r * m)%nat ->
  map (reshape_rows m c) (reshape_rows r (m * c) (concat rows))
  = map (fun i => firstn m (skipn (i * m) rows)) (seq 0 r).
Proof.
  intros Hrows Hlen. rewrite reshape_rows_seq, map_map.
  apply map_ext_in. intros i Hi. apply in_seq in Hi.
  replace (i * (m * c))%nat with ((i * m) * c)%nat by lia.
  rewrite (skipn_concat_uniform _ Hrows).
  rewrite (firstn_concat_uniform _ (Forall_skipn_keep (i * m) Hrows)).
  set (ws := firstn m (skipn (i * m) rows)).
  assert (Hws : length ws = m).
  { unfold ws. rewrite length_firstn, length_skipn, Hlen. nia. }
  rewrite <- Hws at 1. apply reshape_rows_concat.
  unfold ws. apply Forall_firstn_keep, Forall_skipn_keep. exact Hrows.
Qed.

Lemma at3_blocks (A : Type) (rows : list (list A)) r m t b :
  (t < r)%nat -> (b < m)%nat ->
  at3 (map (fun i => firstn m (skipn (i * m) rows)) (seq 0 r)) t b
  = nth (t * m + b) rows [].
Proof.
  intros Ht Hb. unfold at3.
  rewrite (nth_map_lt _ _ 0%nat) by (rewrite length_seq; exact Ht).
  rewrite seq_nth by exact Ht. simpl (0 + t)%nat.
  apply nth_firstn_skipn. exact Hb.
Qed.

Lemma shape3_blocks (A : Type) (rows : list (list A)) r m c :
  Forall (fun v => length v = c) rows -> length rows = (r * m)%nat ->
  shape3 r m c (map (fun i => firstn m (skipn (i * m) rows)) (seq 0 r)).
Proof.
  intros Hrows Hlen. split; [rewrite length_map, length_seq; reflexivity|].
  apply Forall_forall. intros blk Hblk. apply in_map_iff in Hblk.
  destruct Hblk as (i & <- & Hi). apply in_seq in Hi. split.
  - rewrite length_firstn, length_skipn, Hlen. nia.
  - apply Forall_firstn_keep, Forall_skipn_keep. exact Hrows.
Qed.

Lemma exp_sum_pos l : l <> [] -> 0 < Rsum (map exp l).
Proof.
  destruct l as [|x r]; [congruence|]. intros _. simpl.
  assert (H : 0 <= Rsum (map exp r)).
  { apply Rsum_nonneg. apply Forall_forall. intros y Hy.
    apply in_map_iff in Hy. destruct Hy as (z & <- & _).
    apply Rlt_le, exp_pos. }
  pose proof (exp_pos x). lra.
Qed.

Lemma softmax_distribution l :
  l <> [] ->
  length (softmax l) = length l /\
  Forall (fun p => 0 < p) (softmax l) /\
  Rsum (softmax l) = 1.
Proof.
  intros Hne. pose proof (exp_sum_pos Hne) as Hpos. unfold softmax.
  split; [apply length_map|]. split.
  - apply Forall_forall. intros p Hp. apply in_map_iff in Hp.
    destruct Hp as (x & <- & _). apply Rdiv_lt_0_compat; [apply exp_pos|].
    exact Hpos.
  - rewrite <- (map_map exp (fun y => y / Rsum (map exp l))).
    rewrite Rsum_map_div. unfold Rdiv. apply Rinv_r. lra.
Qed.

Lemma shape3_flat_rows (A : Type) t b c (x : list (list (list A))) :
  shape3 t b c x ->
  Forall (fun v => length v = c) (concat x) /\
  length (concat x) = (t * b)%nat /\
  forall i j, (j < b)%nat -> nth (i * b + j) (concat x) [] = at3 x i j.
Proof.
  intros Hs. pose proof (shape3_rows Hs) as Hr. destruct Hs as [Ht Hx].
  split; [| split].
  - apply Forall_concat. eapply Forall_impl; [| exact Hx]. simpl. tauto.
  - rewrite (length_concat_uniform Hr), Ht. reflexivity.
  - intros i j Hj. apply (nth_concat_uniform _ _ Hr). exact Hj.
Qed.

(** The logits of every position, from the decoder output. *)
Lemma logits2d_of_rows size V W bias T B decoder_output :
  (0 < size)%nat -> shape3 T B size decoder_output ->
  logits2d_of size V W bias decoder_output
  = Some (map (linear V W bias) (concat decoder_output)).
Proof.
  intros Hsize Hs.
  destruct (shape3_flat_rows Hs) as (Hv & Hlen & _).
  unfold logits2d_of.
  rewrite (@reshape_m1_c_ok _ size (length (concat decoder_output)))
    by (try apply (length_concat_uniform Hv); lia).
  cbv beta iota delta [obind].
  rewrite (reshape_rows_concat Hv). reflexivity.
Qed.

(** X5. From a decoder output of shape (T, B, size) the loss module yields
    one output distribution per position: the outputs have shape
    (T, B, vocab_size), the distribution at position [(t, b)] is the softmax
    of the affine projection of the decoder output at [(t, b)], all its
    entries are positive and they sum to 1. *)
Theorem outputs_are_distributions size V B W bias T decoder_output :
  (0 < size)%nat -> (0 < B)%nat -> (0 < V)%nat ->
  Forall (fun r => length r = V) W -> length bias = V ->
  shape3 T B size decoder_output ->
  exists logits2d outputs,
    logits2d_of size V W bias decoder_output = Some logits2d /\
    outputs_of V B logits2d = Some outputs /\
    shape3 T B V outputs /\
    forall t b, (t < T)%nat -> (b < B)%nat ->
      at3 outputs t b
      = softmax (linear V W bias (at3 decoder_output t b)) /\
      Forall (fun p => 0 < p) (at3 outputs t b) /\
      Rsum (at3 outputs t b) = 1.
Proof.
  intros Hsize HB HV HW Hbias Hs.
  destruct (shape3_flat_rows Hs) as (Hv & Hlen & Hnth).
  set (vs := concat decoder_output) in *.
  set (logits2d := map (linear V W bias) vs).
  set (outputs2d := map softmax logits2d).
  assert (Hlog : Forall (fun r => length r = V) logits2d).
  { apply Forall_forall. intros r Hr. apply in_map_iff in Hr.
    destruct Hr as (x & <- & _). apply length_linear; assumption. }
  assert (Hout : Forall (fun r => length r = V) outputs2d).
  { apply Forall_forall. intros r Hr. apply in_map_iff in Hr.
    destruct Hr as (x & <- & Hx). unfold softmax. rewrite length_map.
    rewrite Forall_forall in Hlog. apply Hlog. exact Hx. }
  assert (Hn : length outputs2d = (T * B)%nat).
  { unfold outputs2d, logits2d. rewrite !length_map. exact Hlen. }
  exists logits2d.
  exists (map (fun i => firstn B (skipn (i * B) outputs2d)) (seq 0 T)).
  split; [apply (@logits2d_of_rows size V W bias T B _ Hsize Hs)|]. split.
  - unfold outputs_of. fold outputs2d. unfold reshape_m1_b_c.
    destruct (B * V =? 0)%nat eqn:E; [apply Nat.eqb_eq in E; nia|].
    rewrite (length_concat_uniform Hout), Hn.
    replace (T * B * V)%nat with (T * (B * V))%nat by lia.
    rewrite Nat.Div0.mod_mul, Nat.div_mul by nia.
    rewrite (@reshape_blocks _ outputs2d T B V Hout Hn). reflexivity.
  - split; [apply shape3_blocks; assumption|].
    intros t b Ht Hb. rewrite (@at3_blocks _ outputs2d T B t b Ht Hb).
    unfold outputs2d.
    rewrite (nth_map_lt _ _ (@nil R))
      by (unfold logits2d; rewrite length_map, Hlen; nia).
    unfold logits2d.
    rewrite (nth_map_lt _ _ (@nil R)) by (rewrite Hlen; nia).
    rewrite (Hnth t b Hb).
    assert (Hne : linear V W bias (at3 decoder_output t b) <> []).
    { intros E.
      pose proof (@length_linear V W bias (at3 decoder_output t b) HW Hbias)
        as Hl. rewrite E in Hl. simpl in Hl. lia. }
    destruct (softmax_distribution Hne) as (_ & Hp & H1).
    split; [reflexivity | split; assumption].
Qed.

Lemma outputs_are_distributions_witness :
  exists logits2d outputs,
    logits2d_of 1 2 [[1; 2]] [0; 0] [[[1]]] = Some logits2d /\
    outputs_of 2 1 logits2d = Some outputs /\
    Rsum (at3 outputs 0 0) = 1.
Proof.
  assert (Hs : shape3 1 1 1 [[[1]]]).
  { split; [reflexivity | repeat constructor]. }
  destruct (@outputs_are_distributions 1 2 1 [[1; 2]] [0; 0] 1 [[[1]]]
              ltac:(lia) ltac:(lia) ltac:(lia)
              ltac:(repeat constructor) eq_refl Hs)
    as (logits2d & outputs & Hl & Ho & _ & Hd).
  exists logits2d, outputs. split; [exact Hl|]. split; [exact Ho|].
  apply (Hd 0%nat 0%nat); lia.
Defined.

(** ** Sign of the loss *)

Lemma xent_value_nonneg V l y :
  length l = V -> in_vocab V y -> 0 <= xent_value l y.
Proof.
  intros Hl [Hy0 Hy1]. unfold xent_value.
  set (i := Z.to_nat y). assert (Hi : (i < length l)%nat) by (unfold i; lia).
  assert (Hmem : exp (nth i l 0) <= Rsum (map exp l)).
  { apply Rsum_ge_member.
    - apply Forall_forall. intros z Hz. apply in_map_iff in Hz.
      destruct Hz as (x & <- & _). apply Rlt_le, exp_pos.
    - apply in_map. apply nth_In. exact Hi. }
  pose proof (exp_pos (nth i l 0)) as Hpos.
  assert (Hln : nth i l 0 <= ln (Rsum (map exp l))).
  { rewrite <- (ln_exp (nth i l 0)) at 1.
    destruct Hmem as [Hlt | Heq].
    - apply Rlt_le. apply ln_increasing; assumption.
    - rewrite Heq. lra. }
  lra.
Qed.

Lemma Rsum_map_zero (A : Type) (f : A -> R) l :
  (forall x, In x l -> f x = 0) -> Rsum (map f l) = 0.
Proof.
  induction l as [|x r IH]; intros H; simpl; [reflexivity|].
  rewrite IH by (intros y Hy; apply H; right; exact Hy).
  rewrite (H x) by (left; reflexivity). lra.
Qed.

Lemma nth2_Forall (A : Type) (P : A -> Prop) (x : list (list A)) t b d :
  Forall (Forall P) x -> P d -> P (nth b (nth t x []) d).
Proof.
  intros Hx Hd.
  destruct (Nat.lt_ge_cases t (length x)) as [Ht | Ht].
  - assert (Hrow : Forall P (nth t x [])).
    { rewrite Forall_forall in Hx. apply Hx. apply nth_In. exact Ht. }
    destruct (Nat.lt_ge_cases b (length (nth t x []))) as [Hb | Hb].
    + rewrite Forall_forall in Hrow. apply Hrow. apply nth_In. exact Hb.
    + rewrite nth_overflow by exact Hb. exact Hd.
  - rewrite (nth_overflow x) by exact Ht. destruct b; exact Hd.
Qed.

Lemma spec_shifted_Forall (P : Z -> Prop) x t b :
  Forall (Forall P) x -> P 0%Z -> P (spec_shifted x t b).
Proof.
  intros Hx H0. unfold spec_shifted.
  destruct (S t <? length x)%nat; [| exact H0].
  apply nth2_Forall; assumption.
Qed.

(** X6. On a well-formed batch whose target mask has no negative entry the
    loss is produced and is never negative; and when the mask is 0 from its
    second row on, the loss is 0. *)
Theorem loss_is_nonnegative V B T logits2d tokens mask :
  (0 < B)%nat -> (0 < T)%nat -> (0 < V)%nat ->
  shape2 T B tokens -> shape2 T B mask -> shape2 (T * B) V logits2d ->
  Forall (Forall (in_vocab V)) tokens ->
  Forall (Forall (fun m => (0 <= m)%Z)) mask ->
  exists loss,
    losses_of B logits2d tokens mask = Some loss /\
    0 <= loss /\
    ((forall t b, (1 <= t)%nat -> nth b (nth t mask []) 0%Z = 0%Z) ->
     loss = 0).
Proof.
  intros HB HT HV Ht Hm Hl Hvoc Hnn.
  exists (spec_masked_loss B logits2d tokens mask).
  split; [apply (@losses_of_spec V B T); assumption|].
  unfold spec_masked_loss.
  assert (HBpos : 0 < INR B) by (apply lt_0_INR; exact HB).
  destruct Hl as [Hll Hlr]. destruct Ht as [Htl _]. split.
  - apply Rmult_le_pos; [| apply Rlt_le, Rinv_0_lt_compat; exact HBpos].
    apply Rsum_nonneg. apply Forall_forall. intros y Hy.
    apply in_map_iff in Hy. destruct Hy as (t & <- & Ht).
    apply in_seq in Ht.
    apply Rsum_nonneg. apply Forall_forall. intros z Hz.
    apply in_map_iff in Hz. destruct Hz as (b & <- & Hb).
    apply in_seq in Hb.
    apply Rmult_le_pos.
    + apply (@xent_value_nonneg V).
      * rewrite Forall_forall in Hlr. apply Hlr. apply nth_In.
        rewrite Hll. nia.
      * apply (@spec_shifted_Forall (in_vocab V) tokens t b Hvoc).
        unfold in_vocab. lia.
    + apply IZR_le.
      apply (@spec_shifted_Forall (fun m => (0 <= m)%Z) mask t b Hnn).
      lia.
  - intros Hzero.
    assert (Hz : Rsum
               (map (fun t =>
                  Rsum (map (fun b =>
                    xent_value (nth (t * B + b) logits2d [])
                      (spec_shifted tokens t b)
                    * IZR (spec_shifted mask t b)) (seq 0 B)))
                  (seq 0 (length tokens))) = 0).
    { apply Rsum_map_zero. intros t _. apply Rsum_map_zero. intros b _.
      assert (Hs : spec_shifted mask t b = 0%Z).
      { unfold spec_shifted.
        destruct (S t <? length mask)%nat; [| reflexivity].
        apply Hzero. lia. }
      rewrite Hs. lra. }
    rewrite Hz. unfold Rdiv. lra.
Qed.

Lemma loss_is_nonnegative_witness :
  exists loss,
    losses_of 1 [[0; 0]; [0; 0]] [[0]; [1]]%Z [[1]; [1]]%Z = Some loss /\
    0 <= loss.
Proof.
  assert (Ht : shape2 2 1 [[0]; [1]]%Z).
  { split; [reflexivity | repeat constructor]. }
  assert (Hm : shape2 2 1 [[1]; [1]]%Z).
  { split; [reflexivity | repeat constructor]. }
  assert (Hl : shape2 (2 * 1) 2 [[0; 0]; [0; 0]]).
  { split; [reflexivity | repeat constructor]. }
  assert (Hv : Forall (Forall (in_vocab 2)) [[0]; [1]]%Z).
  { repeat match goal with |- Forall _ _ => constructor end;
      unfold in_vocab; simpl; lia. }
  assert (Hn : Forall (Forall (fun m => (0 <= m)%Z)) [[1]; [1]]%Z).
  { repeat match goal with |- Forall _ _ => constructor end; lia. }
  destruct (@loss_is_nonnegative 2 1 2 _ _ _
              ltac:(lia) ltac:(lia) ltac:(lia) Ht Hm Hl Hv Hn)
    as (loss & Hloss & Hpos & _).
  exists loss. split; assumption.
Defined.

(** ** The projected encoder output of the attention cell *)

(** The projection held by the cell, entry by entry. *)
Lemma GRUCellAttn_init_rows num_units B W bias T hs :
  (0 < num_units)%nat ->
  Forall (fun r => length r = num_units) W -> length bias = num_units ->
  shape3 T B num_units hs ->
  exists phi_hs,
    GRUCellAttn_init num_units B W bias hs = Some phi_hs /\
    shape3 T B num_units phi_hs /\
    forall t b, (t < T)%nat -> (b < B)%nat ->
      at3 phi_hs t b = map tanh (linear num_units W bias (at3 hs t b)).
Proof.
  intros Hn HW Hbias Hs.
  destruct (shape3_flat_rows Hs) as (Hv & Hlen & Hnth).
  pose proof Hs as [HT _].
  unfold GRUCellAttn_init. cbv zeta.
  rewrite (@reshape_m1_c_ok _ num_units (length (concat hs)))
    by (try apply (length_concat_uniform Hv); lia).
  cbv beta iota delta [obind].
  rewrite (reshape_rows_concat Hv).
  set (phi := map (fun h => map tanh (linear num_units W bias h))
                (concat hs)).
  assert (Hphi : Forall (fun r => length r = num_units) phi).
  { apply Forall_forall. intros r Hr. apply in_map_iff in Hr.
    destruct Hr as (x & <- & _). rewrite length_map.
    apply length_linear; assumption. }
  assert (Hpl : length phi = (T * B)%nat).
  { unfold phi. rewrite length_map. exact Hlen. }
  unfold reshape_t_b_c.
  rewrite (length_concat_uniform Hphi), Hpl, HT.
  replace (T * B * num_units)%nat with (T * (B * num_units))%nat by lia.
  rewrite Nat.eqb_refl.
  rewrite (@reshape_blocks _ phi T B num_units Hphi Hpl).
  eexists. split; [reflexivity|]. split.
  - apply shape3_blocks; assumption.
  - intros t b Ht Hb. rewrite (@at3_blocks _ phi T B t b Ht Hb).
    unfold phi.
    rewrite (nth_map_lt _ _ (@nil R)) by (rewrite Hlen; nia).
    rewrite (Hnth t b Hb). reflexivity.
Qed.

(** X7. Built on an encoder output of shape (T, B, num_units), the
    attention cell holds a projection [phi_hs] of the same shape whose entry
    at [(t, b)] is the hyperbolic tangent of the affine projection of the
    encoder output at [(t, b)]: the two reshapes around the projection
    cancel. *)
Theorem GRUCellAttn_init_projects_rows num_units B W bias T hs :
  (0 < num_units)%nat ->
  Forall (fun r => length r = num_units) W -> length bias = num_units ->
  shape3 T B num_units hs ->
  exists phi_hs,
    GRUCellAttn_init num_units B W bias hs = Some phi_hs /\
    shape3 T B num_units phi_hs /\
    forall t b, (t < T)%nat -> (b < B)%nat ->
      at3 phi_hs t b = map tanh (linear num_units W bias (at3 hs t b)).
Proof.
  intros Hn HW Hbias Hs.
  apply (@GRUCellAttn_init_rows num_units B W bias T hs Hn HW Hbias Hs).
Qed.

Lemma GRUCellAttn_init_projects_rows_witness :
  exists phi_hs,
    GRUCellAttn_init 1 1 [[2]] [0] [[[1]]; [[3]]] = Some phi_hs /\
    at3 phi_hs 1 0 = map tanh (linear 1 [[2]] [0] [3]).
Proof.
  assert (Hs : shape3 2 1 1 [[[1]]; [[3]]]).
  { split; [reflexivity | repeat constructor]. }
  destruct (@GRUCellAttn_init_projects_rows 1 1 [[2]] [0] 2 _
              ltac:(lia) ltac:(repeat constructor) eq_refl Hs)
    as (phi & Hphi & _ & Hat).
  exists phi. split; [exact Hphi|]. apply (Hat 1%nat 0%nat); lia.
Defined.

(** ** The attention cell works example by example *)

Lemma column_map2_rows (A B C : Type) (g : A -> B -> C)
  (X : list (list A)) (Y : list (list B)) n b :
  Forall (fun r => length r = n) X -> Forall (fun r => length r = n) Y ->
  (b < n)%nat ->
  column b (map2 (map2 g) X Y) = map2 g (column b X) (column b Y).
Proof.
  intros HX; revert Y; induction HX as [|x X Hx _ IH]; intros [|y Y] HY Hb;
    simpl; try reflexivity.
  - destruct (_ ++ column b X); reflexivity.
  - pose proof (Forall_inv HY) as Hy. pose proof (Forall_inv_tail HY) as HY'.
    unfold column in *. simpl. rewrite (IH Y HY' Hb).
    destruct (nth_error x b) as [a|] eqn:Ea;
      [| apply nth_error_None in Ea; lia].
    destruct (nth_error y b) as [c|] eqn:Ec;
      [| apply nth_error_None in Ec; lia].
    assert (E : nth_error (map2 g x y) b = Some (g a c)).
    { clear - Ea Ec. revert y b Ea Ec.
      induction x as [|x0 x IHx]; intros [|y0 y] [|b] Ea Ec; simpl in *;
        try discriminate.
      - congruence.
      - apply IHx; assumption. }
    rewrite E. reflexivity.
Qed.

Lemma map2_rows_uniform (A B C : Type) (g : A -> B -> C)
  (X : list (list A)) (Y : list (list B)) n :
  Forall (fun r => length r = n) X -> Forall (fun r => length r = n) Y ->
  Forall (fun r => length r = n) (map2 (map2 g) X Y).
Proof.
  intros HX; revert Y; induction HX as [|x X Hx _ IH]; intros [|y Y] HY;
    simpl; constructor.
  - rewrite length_map2, Hx, (Forall_inv HY). apply Nat.min_id.
  - apply IH. apply (Forall_inv_tail HY).
Qed.

Lemma nth_reduce_max_axis0 B (m : list (list R)) b :
  Forall (fun r => length r = B) m -> (b < B)%nat ->
  nth b (reduce_max_axis0 B m) 0
  = match column b m with
    | [] => 0
    | x :: r => fold_left Rmax r x
    end.
Proof.
  intros Hm Hb. rewrite (@column_map _ m b 0 B Hm Hb).
  destruct m as [|r rs]; simpl.
  - apply nth_repeat.
  - pose proof (Forall_inv Hm) as Hr. pose proof (Forall_inv_tail Hm) as Hrs.
    apply (@nth_fold_left_map2 R Rmax rs r B b 0 Hrs Hr Hb).
Qed.

(** The weights of one example, as the graph computes them. *)
Lemma column_attention_weights B T (phi_hs : list (list (list R)))
  (gamma_h : list (list R)) b :
  shape2 T B phi_hs -> length gamma_h = B -> (b < B)%nat ->
  let scores := map (fun phi => dot phi (nth b gamma_h [])) (column b phi_hs) in
  let m := match scores with
           | [] => 0
           | x :: r => fold_left Rmax r x
           end in
  let e := map (fun x => exp (x - m)) scores in
  Forall (fun r => length r = B) (attention_weights B phi_hs gamma_h) /\
  length (attention_weights B phi_hs gamma_h) = T /\
  column b (attention_weights B phi_hs gamma_h)
  = map (fun x => x / (attn_epsilon + Rsum e)) e.
Proof.
  intros [Hlen Hphi] Hg Hb scores m e.
  set (sc := attn_scores phi_hs gamma_h).
  assert (Hsc : Forall (fun r => length r = B) sc).
  { apply rows_map2_shape; assumption. }
  assert (Hcs : column b sc = scores).
  { apply (@column_rows_map2 _ _ _ dot phi_hs gamma_h B b [] [] Hphi Hg Hb). }
  set (mx := reduce_max_axis0 B sc).
  assert (Hmx : length mx = B) by (apply length_reduce_max_axis0; exact Hsc).
  assert (Hm : nth b mx 0 = m).
  { unfold mx. rewrite (nth_reduce_max_axis0 Hsc Hb), Hcs. reflexivity. }
  set (ex := attn_exp B sc).
  assert (Hex : Forall (fun r => length r = B) ex).
  { unfold ex, attn_exp. apply rows_map2_shape; assumption. }
  assert (Hce : column b ex = e).
  { unfold ex, attn_exp. fold mx.
    rewrite (@column_rows_map2 _ _ _ (fun w m => exp (w - m)) sc mx B b
               0 0 Hsc Hmx Hb).
    rewrite Hcs, Hm. reflexivity. }
  set (s := reduce_sum_axis0 B ex).
  assert (Hs : length s = B).
  { unfold s, reduce_sum_axis0.
    apply length_fold_left_map2; [exact Hex | apply repeat_length]. }
  assert (Hsb : nth b s 0 = Rsum e).
  { unfold s. rewrite (nth_reduce_sum_axis0 Hex Hb), Hce. reflexivity. }
  unfold attention_weights, attn_normalize. fold sc. fold ex. fold s.
  split; [apply rows_map2_shape; assumption|]. split.
  - unfold ex, attn_exp, sc, attn_scores. rewrite !length_map. exact Hlen.
  - rewrite (@column_rows_map2 _ _ _ (fun w z => w / (attn_epsilon + z))
               ex s B b 0 0 Hex Hs Hb).
    rewrite Hce, Hsb. reflexivity.
Qed.

Lemma nth_attn_context B T n (hs : list (list (list R)))
  (weights : list (list R)) b :
  shape2 T B hs -> Forall (fun r => length r = B) weights ->
  length (attn_context B n hs weights) = B /\
  ((b < B)%nat ->
   nth b (attn_context B n hs weights) []
   = fold_left vadd
       (map2 (fun v a => vscale a v) (column b hs) (column b weights))
       (repeat 0 n)).
Proof.
  intros [_ Hhs] Hw. unfold attn_context.
  set (rows := map2 (fun hs_t w_t => map2 (fun h w => vscale w h) hs_t w_t)
                 hs weights).
  assert (Hrows : Forall (fun r => length r = B) rows).
  { apply (@map2_rows_uniform _ _ _ (fun h w => vscale w h) hs weights B);
      assumption. }
  assert (Hinit : length (repeat (repeat 0 n) B) = B) by apply repeat_length.
  split.
  - apply (@length_fold_left_map2 _ vadd rows _ B Hrows Hinit).
  - intros Hb.
    rewrite (@nth_fold_left_map2 _ vadd rows (repeat (repeat 0 n) B) B b []
               Hrows Hinit Hb).
    rewrite <- (@column_map _ rows b [] B Hrows Hb).
    unfold rows.
    change (map2 (fun hs_t w_t => map2 (fun h w => vscale w h) hs_t w_t)
              hs weights)
      with (map2 (map2 (fun (h : list R) (w : R) => vscale w h)) hs weights).
    rewrite (@column_map2_rows _ _ _ (fun h w => vscale w h) hs weights B b
               Hhs Hw Hb).
    f_equal.
    rewrite (nth_indep _ [] (repeat 0 n)) by (rewrite repeat_length; exact Hb).
    apply nth_repeat.
Qed.

(** The cell, row by row. *)
Lemma GRUCellAttn_call_rows
  n B gru_call W2 b2 Wc bc hs phi_hs inputs state T :
  shape2 T B hs -> shape2 T B phi_hs ->
  length (fst (gru_call inputs state)) = B ->
  let r := GRUCellAttn_call n B gru_call W2 b2 Wc bc hs phi_hs inputs state in
  snd r = fst r /\
  length (fst r) = B /\
  forall b, (b < B)%nat ->
    nth b (fst r) []
    = attn_example n W2 b2 Wc bc (column b hs) (column b phi_hs)
        (nth b (fst (gru_call inputs state)) []).
Proof.
  intros Hhs Hphi Hgru. unfold GRUCellAttn_call.
  destruct (gru_call inputs state) as [gru_out gru_state]. simpl in Hgru.
  cbv zeta. simpl fst. simpl snd.
  set (gamma_h := gamma_of n W2 b2 gru_out).
  assert (Hg : length gamma_h = B).
  { unfold gamma_h, gamma_of. rewrite length_map. exact Hgru. }
  set (weights := attention_weights B phi_hs gamma_h).
  set (context := attn_context B n hs weights).
  assert (Hw : Forall (fun r => length r = B) weights).
  { destruct Hphi as [Hl Hp]. unfold weights, attention_weights,
      attn_normalize. apply rows_map2_shape.
    - unfold attn_exp. apply rows_map2_shape.
      + apply rows_map2_shape; assumption.
      + apply length_reduce_max_axis0. apply rows_map2_shape; assumption.
    - unfold reduce_sum_axis0. apply length_fold_left_map2;
        [| apply repeat_length].
      unfold attn_exp. apply rows_map2_shape.
      + apply rows_map2_shape; assumption.
      + apply length_reduce_max_axis0. apply rows_map2_shape; assumption. }
  assert (Hc : length context = B).
  { unfold context. apply (@nth_attn_context B T n hs weights 0 Hhs Hw). }
  split; [reflexivity|]. split.
  - rewrite length_map2, Hc, Hgru. apply Nat.min_id.
  - intros b Hb.
    rewrite (@nth_map2 _ _ _
               (fun c h => map relu (linear n Wc bc (c ++ h)))
               context gru_out b [] [] []) by lia.
    unfold attn_example. cbv zeta. do 3 f_equal.
    unfold context.
    destruct (@nth_attn_context B T n hs weights b Hhs Hw) as [_ Hctx].
    rewrite (Hctx Hb). do 2 f_equal.
    destruct (@column_attention_weights B T phi_hs gamma_h b Hphi Hg Hb)
      as (_ & _ & Hcol).
    unfold weights. rewrite Hcol.
    unfold gamma_h, gamma_of.
    rewrite (nth_map_lt _ _ (@nil R)) by lia.
    reflexivity.
Qed.

(** X8. The attention cell treats the examples of a batch independently and
    emits its output as its new state: with an encoder output and a
    projection of (T, B) vectors and a GRU step that yields [B] rows, the
    cell returns the same tensor of [B] rows twice, and row [b] is what the
    attention readout computes from the encoder outputs, the projections and
    the GRU output of example [b] alone. *)
Theorem GRUCellAttn_call_per_example
  n B gru_call W2 b2 Wc bc hs phi_hs inputs state T :
  shape2 T B hs -> shape2 T B phi_hs ->
  length (fst (gru_call inputs state)) = B ->
  let r := GRUCellAttn_call n B gru_call W2 b2 Wc bc hs phi_hs inputs state in
  snd r = fst r /\
  length (fst r) = B /\
  forall b, (b < B)%nat ->
    nth b (fst r) []
    = attn_example n W2 b2 Wc bc (column b hs) (column b phi_hs)
        (nth b (fst (gru_call inputs state)) []).
Proof.
  intros Hhs Hphi Hgru.
  apply (@GRUCellAttn_call_rows n B gru_call W2 b2 Wc bc hs phi_hs inputs
           state T Hhs Hphi Hgru).
Qed.

Lemma GRUCellAttn_call_per_example_witness :
  nth 0 (fst (GRUCellAttn_call 1 1 (fun x s => (x, x)) [[1]] [0] [[1]; [1]]
                [0] [[[1]]] [[[2]]] [[3]] [[0]])) []
  = attn_example 1 [[1]] [0] [[1]; [1]] [0] [[1]] [[2]] [3].
Proof.
  assert (H1 : shape2 1 1 [[[1]]]).
  { split; [reflexivity | repeat constructor]. }
  assert (H2 : shape2 1 1 [[[2]]]).
  { split; [reflexivity | repeat constructor]. }
  destruct (@GRUCellAttn_call_per_example 1 1 (fun x s => (x, x))
              [[1]] [0] [[1]; [1]] [0] [[[1]]] [[[2]]] [[3]] [[0]] 1
              H1 H2 eq_refl) as (_ & _ & H).
  apply (H 0%nat). lia.
Defined.

(** ** Inputs past an example's length never reach the decoder output *)

Close Scope R_scope.

Lemma copy_through_ext B time lengths (past past' now now' : list (list R)) :
  length lengths = B ->
  length past = B -> length past' = B -> length now = B -> length now' = B ->
  (forall b, b < B ->
     if (nth b lengths 0%Z <=? Z.of_nat time)%Z
     then nth b past [] = nth b past' []
     else nth b now [] = nth b now' []) ->
  copy_through time lengths past now = copy_through time lengths past' now'.
Proof.
  intros Hl Hp Hp' Hn Hn' H.
  apply nth_ext with (d := []) (d' := []).
  - rewrite !(@length_copy_through B); auto.
  - intros b Hb. rewrite (@length_copy_through B) in Hb by assumption.
    rewrite !(@nth_copy_through B) by assumption.
    specialize (H b Hb).
    destruct (nth b lengths 0%Z <=? Z.of_nat time)%Z; exact H.
Qed.

Lemma rnn_steps_agree n B (cell : rnn_cell) lengths :
  length lengths = B -> cell_rowwise n B cell ->
  forall inputs inputs' time state,
    Forall (fun x => length x = B) inputs ->
    Forall (fun x => length x = B) inputs' ->
    length inputs = length inputs' -> length state = B ->
    (forall i b, b < B -> (Z.of_nat (time + i) < nth b lengths 0%Z)%Z ->
       at3 inputs i b = at3 inputs' i b) ->
    rnn_steps n B cell lengths time inputs state
    = rnn_steps n B cell lengths time inputs' state.
Proof.
  intros Hl [Hshape Hrow].
  induction inputs as [|x rest IH]; intros [|x' rest'] time state
    Hin Hin' Hlen Hst Hag; simpl in Hlen; try discriminate; [reflexivity|].
  pose proof (Forall_inv Hin) as Hx. pose proof (Forall_inv Hin') as Hx'.
  simpl.
  destruct (Hshape x state Hx Hst) as [[Ho _] Hs1].
  destruct (Hshape x' state Hx' Hst) as [[Ho' _] Hs1'].
  assert (Hz : length (zero_state n B) = B)
    by (unfold zero_state; apply repeat_length).
  assert (Hrows : forall b, b < B ->
            (Z.of_nat time < nth b lengths 0%Z)%Z ->
            nth b (fst (cell x state)) [] = nth b (fst (cell x' state)) [] /\
            nth b (snd (cell x state)) [] = nth b (snd (cell x' state)) []).
  { intros b Hb Hlt. apply Hrow; try assumption; [| reflexivity].
    apply (Hag 0 b Hb). rewrite Nat.add_0_r. exact Hlt. }
  destruct (cell x state) as [out new_state].
  destruct (cell x' state) as [out' new_state']. simpl in *.
  assert (E1 : copy_through time lengths (zero_state n B) out
               = copy_through time lengths (zero_state n B) out').
  { apply (@copy_through_ext B); try assumption. intros b Hb.
    destruct (nth b lengths 0%Z <=? Z.of_nat time)%Z eqn:E; [reflexivity|].
    apply Z.leb_gt in E. apply (Hrows b Hb E). }
  assert (E2 : copy_through time lengths state new_state
               = copy_through time lengths state new_state').
  { apply (@copy_through_ext B); try assumption. intros b Hb.
    destruct (nth b lengths 0%Z <=? Z.of_nat time)%Z eqn:E; [reflexivity|].
    apply Z.leb_gt in E. apply (Hrows b Hb E). }
  rewrite E1, E2.
  rewrite (IH rest' (S time) (copy_through time lengths state new_state')).
  - reflexivity.
  - apply (Forall_inv_tail Hin).
  - apply (Forall_inv_tail Hin').
  - lia.
  - apply (@length_copy_through B); assumption.
  - intros i b Hb Hlt. apply (Hag (S i) b Hb).
    replace (time + S i) with (S time + i) by lia. exact Hlt.
Qed.

Lemma rnn_steps_shape3 n B (cell : rnn_cell) lengths :
  length lengths = B -> cell_rowwise n B cell ->
  forall inputs time state,
    Forall (fun x => length x = B) inputs -> length state = B ->
    shape3 (length inputs) B n
      (fst (rnn_steps n B cell lengths time inputs state)).
Proof.
  intros Hl [Hshape _].
  induction inputs as [|x rest IH]; intros time state Hin Hst; simpl.
  - split; [reflexivity | constructor].
  - pose proof (Forall_inv Hin) as Hx.
    destruct (Hshape x state Hx Hst) as [[Ho Hov] Hs1].
    destruct (cell x state) as [out new_state]. simpl in Ho, Hov, Hs1.
    assert (Hz : length (zero_state n B) = B)
      by (unfold zero_state; apply repeat_length).
    assert (Hst' : length (copy_through time lengths state new_state) = B)
      by (apply (@length_copy_through B); assumption).
    specialize (IH (S time) (copy_through time lengths state new_state)
                  (Forall_inv_tail Hin) Hst').
    destruct (rnn_steps n B cell lengths (S time) rest
                (copy_through time lengths state new_state))
      as [outs final].
    simpl in *. destruct IH as [IH1 IH2]. split; [simpl; lia|].
    constructor; [| exact IH2]. split.
    + apply (@length_copy_through B); assumption.
    + apply Forall_forall. intros v Hv.
      destruct (In_nth _ _ [] Hv) as (b & Hb & <-).
      rewrite (@length_copy_through B) in Hb by assumption.
      rewrite (@nth_copy_through B) by assumption.
      destruct (nth b lengths 0%Z <=? Z.of_nat time)%Z.
      * rewrite nth_zero_state by exact Hb. apply repeat_length.
      * rewrite Forall_forall in Hov. apply Hov. apply nth_In. lia.
Qed.

Lemma nth_map2_nil (A B C : Type) (F : list A -> list B -> list C)
  (X : list (list A)) (Y : list (list B)) t :
  length X = length Y -> F [] [] = [] ->
  nth t (map2 F X Y) [] = F (nth t X []) (nth t Y []).
Proof.
  intros Hlen HF. destruct (Nat.lt_ge_cases t (length X)) as [Ht | Ht].
  - apply nth_map2; lia.
  - rewrite !nth_overflow; try lia; [congruence|].
    rewrite length_map2. lia.
Qed.

Lemma at3_dropout keep_prob T B n binary x t b :
  shape3 T B n x -> shape3 T B n binary ->
  at3 (dropout keep_prob binary x) t b
  = map2 (fun v k => (v * / keep_prob * k)%R) (at3 x t b) (at3 binary t b).
Proof.
  intros Hx Hb. unfold at3, dropout.
  pose proof (shape3_rows Hx) as Hxr. pose proof (shape3_rows Hb) as Hbr.
  destruct Hx as [HxT _], Hb as [HbT _].
  rewrite (@nth_map2_nil _ _ _
             (map2 (map2 (fun v k => (v * / keep_prob * k)%R))) x binary t)
    by (try reflexivity; lia).
  apply nth_map2_nil; [| reflexivity].
  destruct (Nat.lt_ge_cases t T) as [Ht | Ht].
  - rewrite Forall_forall in Hxr, Hbr.
    rewrite (Hxr (nth t x [])) by (apply nth_In; lia).
    rewrite (Hbr (nth t binary [])) by (apply nth_In; lia). reflexivity.
  - rewrite !nth_overflow by lia. reflexivity.
Qed.

Lemma shape3_map2 (g : R -> R -> R) T B n x y :
  shape3 T B n x -> shape3 T B n y ->
  shape3 T B n (map2 (map2 (map2 g)) x y).
Proof.
  intros [HxT Hx] [HyT Hy]. split; [rewrite length_map2; lia|].
  apply Forall_forall. intros row Hrow.
  destruct (In_nth _ _ [] Hrow) as (t & Ht & <-).
  rewrite length_map2 in Ht.
  rewrite (@nth_map2 _ _ _ (map2 (map2 g)) x y t [] [] []) by lia.
  rewrite Forall_forall in Hx, Hy.
  destruct (Hx (nth t x [])) as [Hx1 Hx2]; [apply nth_In; lia|].
  destruct (Hy (nth t y [])) as [Hy1 Hy2]; [apply nth_In; lia|].
  split; [rewrite length_map2; lia|].
  apply Forall_forall. intros v Hv.
  destruct (In_nth _ _ [] Hv) as (b & Hb & <-).
  rewrite length_map2 in Hb.
  rewrite (@nth_map2 _ _ _ (map2 g) _ _ b [] [] []) by lia.
  rewrite Forall_forall in Hx2, Hy2. rewrite length_map2.
  rewrite (Hx2 (nth b (nth t x []) [])) by (apply nth_In; lia).
  rewrite (Hy2 (nth b (nth t y []) [])) by (apply nth_In; lia).
  apply Nat.min_id.
Qed.

Lemma shape3_dropout keep_prob T B n binary x :
  shape3 T B n x -> shape3 T B n binary ->
  shape3 T B n (dropout keep_prob binary x).
Proof. intros Hx Hb. unfold dropout. apply shape3_map2; assumption. Qed.

Lemma agree_within_dropout keep_prob T B n binary lengths x x' :
  shape3 T B n x -> shape3 T B n x' -> shape3 T B n binary ->
  agree_within lengths x x' ->
  agree_within lengths (dropout keep_prob binary x)
    (dropout keep_prob binary x').
Proof.
  intros Hx Hx' Hb Hag t b Hlt.
  rewrite (@at3_dropout keep_prob T B n binary x t b Hx Hb).
  rewrite (@at3_dropout keep_prob T B n binary x' t b Hx' Hb).
  rewrite (Hag t b Hlt). reflexivity.
Qed.

(** One recurrent layer does not see what lies past the lengths. *)
Lemma dynamic_rnn_agree n B (cell : rnn_cell) lengths T x x' :
  length lengths = B -> cell_rowwise n B cell ->
  shape3 T B n x -> shape3 T B n x' -> agree_within lengths x x' ->
  dynamic_rnn n B cell x lengths = dynamic_rnn n B cell x' lengths.
Proof.
  intros Hl Hc Hx Hx' Hag. unfold dynamic_rnn.
  apply (@rnn_steps_agree n B cell lengths Hl Hc).
  - apply (shape3_rows Hx).
  - apply (shape3_rows Hx').
  - destruct Hx as [-> _], Hx' as [-> _]. reflexivity.
  - unfold zero_state. apply repeat_length.
  - intros i b _ Hlt. apply Hag. exact Hlt.
Qed.

Lemma dynamic_rnn_shape3 n B (cell : rnn_cell) lengths T x :
  length lengths = B -> cell_rowwise n B cell -> shape3 T B n x ->
  shape3 T B n (fst (dynamic_rnn n B cell x lengths)).
Proof.
  intros Hl Hc Hx. unfold dynamic_rnn.
  pose proof (@rnn_steps_shape3 n B cell lengths Hl Hc x 0
                (zero_state n B) (shape3_rows Hx)) as H.
  destruct Hx as [HT _]. rewrite HT in H. apply H.
  unfold zero_state. apply repeat_length.
Qed.

Lemma agree_within_refl lengths x : agree_within lengths x x.
Proof. intros t b _. reflexivity. Qed.

Lemma GRUCellAttn_call_rowwise n B gru W2 b2 Wc bc hs phi_hs T :
  cell_rowwise n B gru -> shape2 T B hs -> shape2 T B phi_hs ->
  Forall (fun r => length r = n) Wc -> length bc = n ->
  cell_rowwise n B (GRUCellAttn_call n B gru W2 b2 Wc bc hs phi_hs).
Proof.
  intros [Gshape Grow] Hhs Hphi HWc Hbc. split.
  - intros x s Hx Hs. destruct (Gshape x s Hx Hs) as [[Hg _] _].
    destruct (@GRUCellAttn_call_rows n B gru W2 b2 Wc bc hs phi_hs x s T
                Hhs Hphi Hg) as (Hsnd & Hlen & Hrows).
    cbv zeta in Hsnd, Hlen, Hrows. rewrite Hsnd.
    split; [| exact Hlen]. split; [exact Hlen|].
    apply Forall_forall. intros v Hv.
    destruct (In_nth _ _ [] Hv) as (b & Hb & <-). rewrite Hlen in Hb.
    rewrite (Hrows b Hb). unfold attn_example. cbv zeta.
    rewrite length_map. apply length_linear; assumption.
  - intros x x' s s' b Hx Hx' Hs Hs' Hb Ex Es.
    destruct (Gshape x s Hx Hs) as [[Hg _] _].
    destruct (Gshape x' s' Hx' Hs') as [[Hg' _] _].
    destruct (@GRUCellAttn_call_rows n B gru W2 b2 Wc bc hs phi_hs x s T
                Hhs Hphi Hg) as (Hsnd & _ & Hrows).
    destruct (@GRUCellAttn_call_rows n B gru W2 b2 Wc bc hs phi_hs x' s' T
                Hhs Hphi Hg') as (Hsnd' & _ & Hrows').
    cbv zeta in Hsnd, Hrows, Hsnd', Hrows'.
    rewrite Hsnd, Hsnd', (Hrows b Hb), (Hrows' b Hb).
    destruct (Grow x x' s s' b Hx Hx' Hs Hs' Hb Ex Es) as [E _].
    rewrite E. split; reflexivity.
Qed.

Section DecoderFacts.
Variables size B : nat.
Variable keep_prob : R.
Variable decoder_cells : nat -> rnn_cell.
Variable attn_gru : rnn_cell.
Variables (W1 : list (list R)) (b1 : list R).
Variables (W2 : list (list R)) (b2 : list R).
Variables (Wc : list (list R)) (bc : list R).
Variable binary : nat -> list (list (list R)).
Variables T Te : nat.
Variable lengths : list Z.
Hypothesis Hsize : 0 < size.
Hypothesis Hlengths : length lengths = B.
Hypothesis Hcells : forall i, cell_rowwise size B (decoder_cells i).
Hypothesis Hgru : cell_rowwise size B attn_gru.
Hypothesis Hbinary : forall i, shape3 T B size (binary i).
Hypothesis HW1 : Forall (fun r => length r = size) W1.
Hypothesis Hb1 : length b1 = size.
Hypothesis HWc : Forall (fun r => length r = size) Wc.
Hypothesis Hbc : length bc = size.

Lemma decoder_layers_agree todo :
  forall i x x',
    shape3 T B size x -> shape3 T B size x' ->
    agree_within lengths x x' ->
    shape3 T B size
      (decoder_layers size B keep_prob decoder_cells binary todo i x lengths)
    /\ agree_within lengths
         (decoder_layers size B keep_prob decoder_cells binary todo i x
            lengths)
         (decoder_layers size B keep_prob decoder_cells binary todo i x'
            lengths).
Proof.
  induction todo as [|todo IH]; intros i x x' Hx Hx' Hag; simpl.
  - split; assumption.
  - pose proof (@shape3_dropout keep_prob T B size (binary i) x Hx
                  (Hbinary i)) as Hd.
    pose proof (@shape3_dropout keep_prob T B size (binary i) x' Hx'
                  (Hbinary i)) as Hd'.
    pose proof (@agree_within_dropout keep_prob T B size (binary i) lengths
                  x x' Hx Hx' (Hbinary i) Hag) as Hda.
    rewrite <- (@dynamic_rnn_agree size B (decoder_cells i) lengths T _ _
                  Hlengths (Hcells i) Hd Hd' Hda).
    pose proof (@dynamic_rnn_shape3 size B (decoder_cells i) lengths T _
                  Hlengths (Hcells i) Hd) as Hout.
    destruct (dynamic_rnn size B (decoder_cells i)
                (dropout keep_prob (binary i) x) lengths) as [out st].
    simpl in Hout.
    apply (IH (S i) out out Hout Hout (agree_within_refl lengths out)).
Qed.

Lemma setup_decoder_agree num_layers hs x x' :
  shape3 Te B size hs ->
  shape3 T B size x -> shape3 T B size x' -> agree_within lengths x x' ->
  exists out,
    setup_decoder size B keep_prob decoder_cells attn_gru W1 b1 W2 b2 Wc bc
      binary num_layers hs x lengths = Some out /\
    setup_decoder size B keep_prob decoder_cells attn_gru W1 b1 W2 b2 Wc bc
      binary num_layers hs x' lengths = Some out /\
    shape3 T B size out.
Proof.
  intros Hhs Hx Hx' Hag. unfold setup_decoder.
  destruct (@GRUCellAttn_init_rows size B W1 b1 Te hs Hsize HW1 Hb1 Hhs)
    as (phi & Hphi & Hps & _).
  rewrite Hphi. cbv beta iota zeta delta [obind].
  destruct (@decoder_layers_agree (num_layers - 1) 0 x x' Hx Hx' Hag)
    as [Hd Hda].
  destruct (@decoder_layers_agree (num_layers - 1) 0 x' x' Hx' Hx'
              (agree_within_refl lengths x')) as [Hd' _].
  set (y := decoder_layers size B keep_prob decoder_cells binary
              (num_layers - 1) 0 x lengths) in *.
  set (y' := decoder_layers size B keep_prob decoder_cells binary
               (num_layers - 1) 0 x' lengths) in *.
  assert (Hcell : cell_rowwise size B
                    (GRUCellAttn_call size B attn_gru W2 b2 Wc bc hs phi)).
  { apply (@GRUCellAttn_call_rowwise size B attn_gru W2 b2 Wc bc hs phi Te);
      try assumption.
    - destruct Hhs as [H1 H2]. split; [exact H1|].
      eapply Forall_impl; [| exact H2]. simpl. tauto.
    - destruct Hps as [H1 H2]. split; [exact H1|].
      eapply Forall_impl; [| exact H2]. simpl. tauto. }
  pose proof (@shape3_dropout keep_prob T B size (binary (num_layers - 1)) y
                Hd (Hbinary _)) as Hy.
  pose proof (@shape3_dropout keep_prob T B size (binary (num_layers - 1)) y'
                Hd' (Hbinary _)) as Hy'.
  pose proof (@agree_within_dropout keep_prob T B size
                (binary (num_layers - 1)) lengths y y' Hd Hd' (Hbinary _) Hda)
    as Hya.
  rewrite <- (@dynamic_rnn_agree size B _ lengths T _ _
                Hlengths Hcell Hy Hy' Hya).
  pose proof (@dynamic_rnn_shape3 size B _ lengths T _
                Hlengths Hcell Hy) as Hout.
  destruct (dynamic_rnn size B
              (GRUCellAttn_call size B attn_gru W2 b2 Wc bc hs phi)
              (dropout keep_prob (binary (num_layers - 1)) y) lengths)
    as [out st].
  exists out. simpl in Hout. auto.
Qed.
End DecoderFacts.

(** ** Padding tokens and the loss, through the whole target side *)

Lemma omap_ok (A B : Type) (f : A -> option B) (g : A -> B) l :
  (forall x, In x l -> f x = Some (g x)) -> omap f l = Some (map g l).
Proof.
  induction l as [|x r IH]; intros H; simpl; [reflexivity|].
  rewrite (H x) by (left; reflexivity).
  rewrite IH by (intros y Hy; apply H; right; exact Hy). reflexivity.
Qed.

Lemma embedding_lookup_ok V (L : list (list R)) tokens :
  length L = V -> Forall (Forall (in_vocab V)) tokens ->
  embedding_lookup L tokens
  = Some (map (map (fun tok => nth (Z.to_nat tok) L [])) tokens).
Proof.
  intros HL Hvoc. unfold embedding_lookup.
  apply omap_ok. intros row Hrow. rewrite Forall_forall in Hvoc.
  specialize (Hvoc row Hrow). apply omap_ok. intros tok Htok.
  rewrite Forall_forall in Hvoc. destruct (Hvoc tok Htok) as [H0 H1].
  unfold embedding_row. rewrite HL.
  destruct (0 <=? tok)%Z eqn:E0; [| apply Z.leb_gt in E0; lia].
  destruct (tok <? Z.of_nat V)%Z eqn:E1; [| apply Z.ltb_ge in E1; lia].
  reflexivity.
Qed.

Lemma embedded_shape3 V n (L : list (list R)) T B tokens :
  shape2 V n L -> shape2 T B tokens -> Forall (Forall (in_vocab V)) tokens ->
  shape3 T B n (map (map (fun tok => nth (Z.to_nat tok) L [])) tokens).
Proof.
  intros [HL HLr] [HT Hrows] Hvoc. split; [rewrite length_map; exact HT|].
  apply Forall_forall. intros r Hr. apply in_map_iff in Hr.
  destruct Hr as (row & <- & Hrow). rewrite Forall_forall in Hrows, Hvoc.
  split; [rewrite length_map; apply Hrows; exact Hrow|].
  apply Forall_forall. intros v Hv. apply in_map_iff in Hv.
  destruct Hv as (tok & <- & Htok).
  specialize (Hvoc row Hrow). rewrite Forall_forall in Hvoc.
  destruct (Hvoc tok Htok) as [H0 H1].
  rewrite Forall_forall in HLr. apply HLr. apply nth_In. lia.
Qed.

Lemma map_set_nth (A B : Type) (g : A -> B) i v l :
  map g (set_nth i v l) = set_nth i (g v) (map g l).
Proof.
  revert i; induction l as [|x r IH]; intros [|i]; simpl; auto.
  rewrite IH. reflexivity.
Qed.

Lemma map_set_entry (A B : Type) (g : A -> B) t b v (x : list (list A)) :
  map (map g) (set_entry t b v x) = set_entry t b (g v) (map (map g) x).
Proof.
  unfold set_entry. rewrite nth_error_map.
  destruct (nth_error x t) as [row|]; simpl; [| reflexivity].
  rewrite map_set_nth, map_set_nth. reflexivity.
Qed.

Lemma agree_within_set_entry lengths (x : list (list (list R))) t b w :
  (nth b lengths 0 <= Z.of_nat t)%Z ->
  agree_within lengths x (set_entry t b w x).
Proof.
  intros Hle t' b' Hlt. unfold at3. symmetry.
  apply nth_set_entry_other.
  destruct (Nat.eq_dec t' t) as [-> | Ht]; [| left; exact Ht].
  right. intros ->. lia.
Qed.

Lemma spec_masked_loss_zero_mask B logits2d tokens mask t b v :
  nth b (nth t mask []) 0%Z = 0%Z ->
  spec_masked_loss B logits2d (set_entry t b v tokens) mask
  = spec_masked_loss B logits2d tokens mask.
Proof.
  intros Hz. unfold spec_masked_loss. rewrite length_set_entry.
  do 2 f_equal. apply map_ext_in. intros t' _.
  f_equal. apply map_ext_in. intros b' _.
  destruct (Nat.eq_dec (S t') t) as [Et | Et].
  - destruct (Nat.eq_dec b' b) as [-> | Eb].
    + assert (Hs : spec_shifted mask t' b = 0%Z).
      { unfold spec_shifted. rewrite Et.
        destruct (t <? length mask); [exact Hz | reflexivity]. }
      rewrite Hs, !Rmult_0_r. reflexivity.
    + rewrite spec_shifted_set_entry_other by (right; exact Eb).
      reflexivity.
  - rewrite spec_shifted_set_entry_other by (left; exact Et).
    reflexivity.
Qed.

(** The target side of the graph does not read a token stored at or past
    an example's length: the decoder copies its state through there, and
    the loss multiplies the position by the 0 of the mask. *)
Lemma target_losses_padding_token
  size B keep_prob decoder_cells attn_gru W1 b1 W2 b2 Wc bc binary
  num_layers V L_dec Wl bl hs T Te tokens mask t b v :
  0 < size -> 0 < B -> 0 < T -> 0 < V -> (Z.of_nat T < 2 ^ 31)%Z ->
  (forall i, cell_rowwise size B (decoder_cells i)) ->
  cell_rowwise size B attn_gru ->
  (forall i, shape3 T B size (binary i)) ->
  Forall (fun r => length r = size) W1 -> length b1 = size ->
  Forall (fun r => length r = size) Wc -> length bc = size ->
  shape2 V size L_dec ->
  Forall (fun r => length r = V) Wl -> length bl = V ->
  shape3 Te B size hs ->
  shape2 T B tokens -> shape2 T B mask -> valid_mask B mask ->
  Forall (Forall (in_vocab V)) tokens -> in_vocab V v ->
  b < B -> leading_ones (column b mask) <= t ->
  exists loss,
    target_losses size B keep_prob decoder_cells attn_gru W1 b1 W2 b2 Wc bc
      binary num_layers V L_dec Wl bl hs tokens mask = Some loss /\
    target_losses size B keep_prob decoder_cells attn_gru W1 b1 W2 b2 Wc bc
      binary num_layers V L_dec Wl bl hs (set_entry t b v tokens) mask
    = Some loss.
Proof.
  intros Hsize HB HT HV HT31 Hcells Hgru Hbin HW1 Hb1 HWc Hbc HL HWl Hbl Hhs
    Htok Hmask Hvalid Hvoc Hv Hb Hlen.
  set (lengths := sequence_length B mask).
  assert (Hl : length lengths = B)
    by (apply (@length_sequence_length B T mask Hmask)).
  assert (Hlb : nth b lengths 0%Z = Z.of_nat (leading_ones (column b mask))).
  { apply (@sequence_length_of_valid B T mask b Hmask HT31 Hvalid Hb). }
  assert (Htok' : shape2 T B (set_entry t b v tokens))
    by (apply shape2_set_entry; exact Htok).
  assert (Hvoc' : Forall (Forall (in_vocab V)) (set_entry t b v tokens)).
  { apply Forall_set_entry; [| exact Hvoc].
    intros row Hrow. apply Forall_set_nth; assumption. }
  set (g := fun tok : Z => nth (Z.to_nat tok) L_dec []).
  set (x := map (map g) tokens).
  assert (Hx : shape3 T B size x)
    by (apply (@embedded_shape3 V size L_dec T B tokens HL Htok Hvoc)).
  assert (Hx' : shape3 T B size (map (map g) (set_entry t b v tokens)))
    by (apply (@embedded_shape3 V size L_dec T B _ HL Htok' Hvoc')).
  assert (Hag : agree_within lengths x (map (map g) (set_entry t b v tokens))).
  { rewrite map_set_entry. apply agree_within_set_entry. lia. }
  destruct (@setup_decoder_agree size B keep_prob decoder_cells attn_gru
              W1 b1 W2 b2 Wc bc binary T Te lengths Hsize Hl Hcells Hgru
              Hbin HW1 Hb1 HWc Hbc num_layers hs x _ Hhs Hx Hx' Hag)
    as (out & Hrun & Hrun' & Hout).
  destruct (shape3_flat_rows Hout) as (Hov & Hol & _).
  set (logits2d := map (linear V Wl bl) (concat out)).
  assert (Hlog : shape2 (T * B) V logits2d).
  { split; [unfold logits2d; rewrite length_map; exact Hol|].
    apply Forall_forall. intros r Hr. apply in_map_iff in Hr.
    destruct Hr as (y & <- & _). apply length_linear; assumption. }
  assert (Hzero : nth b (nth t mask []) 0%Z = 0%Z).
  { destruct Hmask as [_ Hrows].
    rewrite <- (@nth_column _ mask b t B 0%Z Hrows Hb).
    rewrite (@prefix_of_ones_nth (column b mask) t (Hvalid b Hb)).
    destruct (t <? leading_ones (column b mask)) eqn:E;
      [apply Nat.ltb_lt in E; lia | reflexivity]. }
  exists (spec_masked_loss B logits2d tokens mask).
  unfold target_losses. cbv zeta. fold lengths.
  destruct HL as [HLlen _].
  rewrite (@embedding_lookup_ok V L_dec tokens HLlen Hvoc).
  rewrite (@embedding_lookup_ok V L_dec _ HLlen Hvoc').
  cbv beta iota delta [obind]. fold g. fold x.
  rewrite Hrun, Hrun'. cbv beta iota delta [obind].
  rewrite (@logits2d_of_rows size V Wl bl T B out Hsize Hout).
  cbv beta iota delta [obind]. fold logits2d.
  split.
  - apply (@losses_of_spec V B T); assumption.
  - rewrite (@losses_of_spec V B T) by assumption.
    rewrite (spec_masked_loss_zero_mask B logits2d tokens mask t b v Hzero).
    reflexivity.
Qed.

(** X9. Through the whole target side of the graph (embedding lookup,
    dropout, the plain decoder layers, the attention layer, the logits and
    the masked loss), with cells that work example by example and a
    well-formed batch whose target mask is valid: the token stored at a
    position at or past an example's length has no influence on the loss.
    The loss is produced and is the same whatever vocabulary index that
    position holds, although the token also enters the decoder as its
    input. *)
Theorem padding_token_never_reaches_loss
  size B keep_prob decoder_cells attn_gru W1 b1 W2 b2 Wc bc binary
  num_layers V L_dec Wl bl hs T Te tokens mask t b v :
  0 < size -> 0 < B -> 0 < T -> 0 < V -> (Z.of_nat T < 2 ^ 31)%Z ->
  (forall i, cell_rowwise size B (decoder_cells i)) ->
  cell_rowwise size B attn_gru ->
  (forall i, shape3 T B size (binary i)) ->
  Forall (fun r => length r = size) W1 -> length b1 = size ->
  Forall (fun r => length r = size) Wc -> length bc = size ->
  shape2 V size L_dec ->
  Forall (fun r => length r = V) Wl -> length bl = V ->
  shape3 Te B size hs ->
  shape2 T B tokens -> shape2 T B mask -> valid_mask B mask ->
  Forall (Forall (in_vocab V)) tokens -> in_vocab V v ->
  b < B -> leading_ones (column b mask) <= t ->
  exists loss,
    target_losses size B keep_prob decoder_cells attn_gru W1 b1 W2 b2 Wc bc
      binary num_layers V L_dec Wl bl hs tokens mask = Some loss /\
    target_losses size B keep_prob decoder_cells attn_gru W1 b1 W2 b2 Wc bc
      binary num_layers V L_dec Wl bl hs (set_entry t b v tokens) mask
    = Some loss.
Proof.
  intros Hsize HB HT HV HT31 Hcells Hgru Hbin HW1 Hb1 HWc Hbc HL HWl Hbl Hhs
    Htok Hmask Hvalid Hvoc Hv Hb Hlen.
  apply (@target_losses_padding_token size B keep_prob decoder_cells attn_gru
           W1 b1 W2 b2 Wc bc binary num_layers V L_dec Wl bl hs T Te
           tokens mask t b v); assumption.
Qed.

Lemma cell_rowwise_map n B (f : list R -> list R) :
  (forall r, length (f r) = n) ->
  cell_rowwise n B (fun x s => (map f x, map f x)).
Proof.
  intros Hf. split.
  - intros x s Hx _. simpl.
    split; [| rewrite length_map; exact Hx].
    split; [rewrite length_map; exact Hx|].
    apply Forall_forall. intros v Hv.
    apply in_map_iff in Hv. destruct Hv as (r & <- & _). apply Hf.
  - intros x x' s s' b Hx Hx' _ _ Hb E _. simpl.
    rewrite !(nth_map_lt _ _ (@nil R)) by lia. rewrite E.
    split; reflexivity.
Qed.

Lemma padding_token_never_reaches_loss_witness :
  exists loss,
    target_losses 1 1 1%R
      (fun _ x s => (map (fun r => [Rsum r]) x, map (fun r => [Rsum r]) x))
      (fun x s => (map (fun r => [Rsum r]) x, map (fun r => [Rsum r]) x))
      [[1%R]] [0%R] [[1%R]] [0%R] [[1%R]; [1%R]] [0%R]
      (fun _ => [[[1%R]]; [[1%R]]]) 2 2 [[0%R]; [1%R]] [[1%R; 0%R]]
      [0%R; 0%R] [[[1%R]]] [[0]; [1]]%Z [[1]; [0]]%Z = Some loss /\
    target_losses 1 1 1%R
      (fun _ x s => (map (fun r => [Rsum r]) x, map (fun r => [Rsum r]) x))
      (fun x s => (map (fun r => [Rsum r]) x, map (fun r => [Rsum r]) x))
      [[1%R]] [0%R] [[1%R]] [0%R] [[1%R]; [1%R]] [0%R]
      (fun _ => [[[1%R]]; [[1%R]]]) 2 2 [[0%R]; [1%R]] [[1%R; 0%R]]
      [0%R; 0%R] [[[1%R]]] (set_entry 1 0 0%Z [[0]; [1]]%Z) [[1]; [0]]%Z
    = Some loss.
Proof.
  assert (Hc : cell_rowwise 1 1
                 (fun x s : list (list R) =>
                    (map (fun r => [Rsum r]) x, map (fun r => [Rsum r]) x))).
  { apply cell_rowwise_map. reflexivity. }
  assert (Hbin : shape3 2 1 1 [[[1%R]]; [[1%R]]]).
  { split; [reflexivity | repeat constructor]. }
  assert (HL : shape2 2 1 [[0%R]; [1%R]]).
  { split; [reflexivity | repeat constructor]. }
  assert (Hhs : shape3 1 1 1 [[[1%R]]]).
  { split; [reflexivity | repeat constructor]. }
  assert (Htok : shape2 2 1 [[0]; [1]]%Z).
  { split; [reflexivity | repeat constructor]. }
  assert (Hmask : shape2 2 1 [[1]; [0]]%Z).
  { split; [reflexivity | repeat constructor]. }
  assert (Hvalid : valid_mask 1 [[1]; [0]]%Z).
  { intros [|i] Hi; [reflexivity | lia]. }
  assert (Hvoc : Forall (Forall (in_vocab 2)) [[0]; [1]]%Z).
  { repeat match goal with |- Forall _ _ => constructor end;
      unfold in_vocab; simpl; lia. }
  assert (Hv : in_vocab 2 0%Z) by (unfold in_vocab; simpl; lia).
  apply (@padding_token_never_reaches_loss 1 1 1%R _ _
           [[1%R]] [0%R] [[1%R]] [0%R] [[1%R]; [1%R]] [0%R]
           (fun _ => [[[1%R]]; [[1%R]]]) 2 2 [[0%R]; [1%R]] [[1%R; 0%R]]
           [0%R; 0%R] [[[1%R]]] 2 1 [[0]; [1]]%Z [[1]; [0]]%Z 1 0 0%Z
           ltac:(lia) ltac:(lia) ltac:(lia) ltac:(lia) ltac:(reflexivity)
           (fun _ => Hc) Hc (fun _ => Hbin)
           ltac:(repeat constructor) eq_refl
           ltac:(repeat constructor) eq_refl HL
           ltac:(repeat constructor) eq_refl Hhs Htok Hmask Hvalid Hvoc Hv
           ltac:(lia) ltac:(simpl; lia)).
Defined.

(** ** A masked target token and the loss *)

Lemma leading_ones_le_zero_entry B T (mask : list (list Z)) t b :
  shape2 T B mask -> b < B ->
  valid_mask B (set_entry t b 0%Z mask) ->
  leading_ones (column b (set_entry t b 0%Z mask)) <= t.
Proof.
  intros Hmask Hb Hvalid.
  assert (Hm' : shape2 T B (set_entry t b 0%Z mask))
    by (apply shape2_set_entry; exact Hmask).
  destruct Hm' as [_ Hrows].
  pose proof (@prefix_of_ones_nth (column b (set_entry t b 0%Z mask)) t
                (Hvalid b Hb)) as Hn.
  rewrite (@nth_column _ (set_entry t b 0%Z mask) b t B 0%Z Hrows Hb) in Hn.
  rewrite nth_set_entry_zero in Hn.
  destruct (t <? leading_ones (column b (set_entry t b 0%Z mask))) eqn:E;
    [discriminate | apply Nat.ltb_ge in E; exact E].
Qed.

(** C3. A target token whose mask entry is 0 has no influence on the loss,
    in two senses.  In the loss graph of lines 146-153, for any logits:
    once the target-mask entry of position [(t, b)] is 0, the loss is
    produced and is the same whatever vocabulary index the target token of
    that position holds.  Through the whole target side of the graph
    (embedding lookup, dropout with the same draw in both runs, the decoder
    with cells that work example by example, the logits and the loss), where
    the token also enters the decoder as its input: the same holds provided
    that, with the entry set to 0, every column of the target mask is a run
    of 1s followed by 0s, so that the position lies at or past the length of
    its example. *)
Theorem masked_token_leaves_loss_unchanged
  size B keep_prob decoder_cells attn_gru W1 b1 W2 b2 Wc bc binary
  num_layers V L_dec Wl bl hs T Te tokens mask t b v :
  0 < size -> 0 < B -> 0 < T -> 0 < V -> (Z.of_nat T < 2 ^ 31)%Z ->
  (forall i, cell_rowwise size B (decoder_cells i)) ->
  cell_rowwise size B attn_gru ->
  (forall i, shape3 T B size (binary i)) ->
  Forall (fun r => length r = size) W1 -> length b1 = size ->
  Forall (fun r => length r = size) Wc -> length bc = size ->
  shape2 V size L_dec ->
  Forall (fun r => length r = V) Wl -> length bl = V ->
  shape3 Te B size hs ->
  shape2 T B tokens -> shape2 T B mask ->
  Forall (Forall (in_vocab V)) tokens -> in_vocab V v ->
  b < B ->
  (forall logits2d, shape2 (T * B) V logits2d ->
     exists loss,
       losses_of B logits2d tokens (set_entry t b 0%Z mask) = Some loss /\
       losses_of B logits2d (set_entry t b v tokens) (set_entry t b 0%Z mask)
       = Some loss) /\
  (valid_mask B (set_entry t b 0%Z mask) ->
     exists loss,
       target_losses size B keep_prob decoder_cells attn_gru W1 b1 W2 b2 Wc bc
         binary num_layers V L_dec Wl bl hs tokens (set_entry t b 0%Z mask)
       = Some loss /\
       target_losses size B keep_prob decoder_cells attn_gru W1 b1 W2 b2 Wc bc
         binary num_layers V L_dec Wl bl hs (set_entry t b v tokens)
         (set_entry t b 0%Z mask)
       = Some loss).
Proof.
  intros Hsize HB HT HV HT31 Hcells Hgru Hbin HW1 Hb1 HWc Hbc HL HWl Hbl Hhs
    Htok Hmask Hvoc Hv Hb.
  split.
  - intros logits2d Hlog.
    apply (@losses_of_masked_token V B T logits2d tokens mask t b v);
      assumption.
  - intros Hvalid.
    apply (@target_losses_padding_token size B keep_prob decoder_cells
             attn_gru W1 b1 W2 b2 Wc bc binary num_layers V L_dec Wl bl hs
             T Te tokens (set_entry t b 0%Z mask) t b v); try assumption.
    + apply shape2_set_entry. exact Hmask.
    + apply (@leading_ones_le_zero_entry B T mask t b); assumption.
Qed.

Lemma masked_token_leaves_loss_unchanged_witness :
  (exists loss,
     losses_of 1 [[0%R; 0%R]; [0%R; 0%R]; [0%R; 0%R]] [[0]; [1]; [0]]%Z
       (set_entry 2 0 0%Z [[1]; [1]; [1]]%Z) = Some loss /\
     losses_of 1 [[0%R; 0%R]; [0%R; 0%R]; [0%R; 0%R]]
       (set_entry 2 0 1%Z [[0]; [1]; [0]]%Z)
       (set_entry 2 0 0%Z [[1]; [1]; [1]]%Z) = Some loss) /\
  (exists loss,
     target_losses 1 1 1%R
       (fun _ x s => (map (fun r => [Rsum r]) x, map (fun r => [Rsum r]) x))
       (fun x s => (map (fun r => [Rsum r]) x, map (fun r => [Rsum r]) x))
       [[1%R]] [0%R] [[1%R]] [0%R] [[1%R]; [1%R]] [0%R]
       (fun _ => [[[1%R]]; [[1%R]]; [[1%R]]]) 1 2 [[0%R]; [1%R]]
       [[0%R; 1%R]] [0%R; 0%R] [[[0%R]]] [[0]; [1]; [0]]%Z
       (set_entry 2 0 0%Z [[1]; [1]; [1]]%Z) = Some loss /\
     target_losses 1 1 1%R
       (fun _ x s => (map (fun r => [Rsum r]) x, map (fun r => [Rsum r]) x))
       (fun x s => (map (fun r => [Rsum r]) x, map (fun r => [Rsum r]) x))
       [[1%R]] [0%R] [[1%R]] [0%R] [[1%R]; [1%R]] [0%R]
       (fun _ => [[[1%R]]; [[1%R]]; [[1%R]]]) 1 2 [[0%R]; [1%R]]
       [[0%R; 1%R]] [0%R; 0%R] [[[0%R]]]
       (set_entry 2 0 1%Z [[0]; [1]; [0]]%Z)
       (set_entry 2 0 0%Z [[1]; [1]; [1]]%Z) = Some loss).
Proof.
  assert (Hc : cell_rowwise 1 1
                 (fun x s : list (list R) =>
                    (map (fun r => [Rsum r]) x, map (fun r => [Rsum r]) x))).
  { apply cell_rowwise_map. reflexivity. }
  assert (Hbin : shape3 3 1 1 [[[1%R]]; [[1%R]]; [[1%R]]]).
  { split; [reflexivity | repeat constructor]. }
  assert (HL : shape2 2 1 [[0%R]; [1%R]]).
  { split; [reflexivity | repeat constructor]. }
  assert (Hhs : shape3 1 1 1 [[[0%R]]]).
  { split; [reflexivity | repeat constructor]. }
  assert (Htok : shape2 3 1 [[0]; [1]; [0]]%Z).
  { split; [reflexivity | repeat constructor]. }
  assert (Hmask : shape2 3 1 [[1]; [1]; [1]]%Z).
  { split; [reflexivity | repeat constructor]. }
  assert (Hvalid : valid_mask 1 (set_entry 2 0 0%Z [[1]; [1]; [1]]%Z)).
  { intros [|i] Hi; [reflexivity | lia]. }
  assert (Hvoc : Forall (Forall (in_vocab 2)) [[0]; [1]; [0]]%Z).
  { repeat match goal with |- Forall _ _ => constructor end;
      unfold in_vocab; simpl; lia. }
  assert (Hv : in_vocab 2 1%Z) by (unfold in_vocab; simpl; lia).
  assert (Hlog : shape2 (3 * 1) 2 [[0%R; 0%R]; [0%R; 0%R]; [0%R; 0%R]]).
  { split; [reflexivity | repeat constructor]. }
  destruct (@masked_token_leaves_loss_unchanged 1 1 1%R
              (fun _ x s =>
                 (map (fun r => [Rsum r]) x, map (fun r => [Rsum r]) x))
              (fun x s =>
                 (map (fun r => [Rsum r]) x, map (fun r => [Rsum r]) x))
              [[1%R]] [0%R] [[1%R]] [0%R] [[1%R]; [1%R]] [0%R]
              (fun _ => [[[1%R]]; [[1%R]]; [[1%R]]]) 1 2 [[0%R]; [1%R]]
              [[0%R; 1%R]] [0%R; 0%R] [[[0%R]]] 3 1 [[0]; [1]; [0]]%Z
              [[1]; [1]; [1]]%Z 2 0 1%Z
              ltac:(lia) ltac:(lia) ltac:(lia) ltac:(lia) ltac:(reflexivity)
              (fun _ => Hc) Hc (fun _ => Hbin)
              ltac:(repeat constructor) eq_refl
              ltac:(repeat constructor) eq_refl HL
              ltac:(repeat constructor) eq_refl Hhs Htok Hmask Hvoc Hv
              ltac:(lia)) as [Hgraph Hwhole].
  split; [exact (Hgraph _ Hlog) | exact (Hwhole Hvalid)].
Defined.

Lemma relu_0 : relu 0%R = 0%R.
Proof. unfold relu. apply Rmax_left. lra. Qed.

Lemma relu_1 : relu 1%R = 1%R.
Proof. unfold relu. apply Rmax_left. lra. Qed.

(** C3 (as stated) fails for a mask entry inside a sequence.  One example of
    three time steps, one attention layer, cells that hand their input on:
    with the mask entry of step 1 set to 0 and the entry of step 2 still 1,
    the length of the example is 2, so the token of step 1 is fed to the
    decoder, whose output at step 1 is scored against the token of step 2
    under the mask entry 1.  With the token 0 at step 1 the loss is
    [ln 2], with the token 1 it is [ln (1 + exp 1)]. *)
Lemma masked_token_inside_sequence_changes_loss :
  cell_rowwise 1 1
    (fun x s : list (list R) =>
       (map (fun r => [Rsum r]) x, map (fun r => [Rsum r]) x)) /\
  target_losses 1 1 1%R
    (fun _ x s => (map (fun r => [Rsum r]) x, map (fun r => [Rsum r]) x))
    (fun x s => (map (fun r => [Rsum r]) x, map (fun r => [Rsum r]) x))
    [[1%R]] [0%R] [[1%R]] [0%R] [[1%R]; [1%R]] [0%R]
    (fun _ => [[[1%R]]; [[1%R]]; [[1%R]]]) 1 2 [[0%R]; [1%R]]
    [[0%R; 1%R]] [0%R; 0%R] [[[0%R]]] [[0]; [0]; [0]]%Z
    (set_entry 1 0 0%Z [[1]; [1]; [1]]%Z) = Some (ln 2%R) /\
  target_losses 1 1 1%R
    (fun _ x s => (map (fun r => [Rsum r]) x, map (fun r => [Rsum r]) x))
    (fun x s => (map (fun r => [Rsum r]) x, map (fun r => [Rsum r]) x))
    [[1%R]] [0%R] [[1%R]] [0%R] [[1%R]; [1%R]] [0%R]
    (fun _ => [[[1%R]]; [[1%R]]; [[1%R]]]) 1 2 [[0%R]; [1%R]]
    [[0%R; 1%R]] [0%R; 0%R] [[[0%R]]] (set_entry 1 0 1%Z [[0]; [0]; [0]]%Z)
    (set_entry 1 0 0%Z [[1]; [1]; [1]]%Z) = Some (ln (1 + exp 1))%R /\
  (ln 2 <> ln (1 + exp 1))%R.
Proof.
  split; [apply cell_rowwise_map; reflexivity|].
  split; [| split].
  - cbv -[Rplus Rminus Rmult Rdiv Rinv Ropp exp ln tanh Rmax relu IZR INR].
    f_equal. simpl INR. unfold Rdiv.
    repeat rewrite ?Rmult_0_r, ?Rmult_0_l, ?Rplus_0_l, ?Rplus_0_r,
      ?Rmult_1_r, ?Rmult_1_l, ?Rinv_1, ?relu_0, ?exp_0, ?Rminus_0_r.
    replace (1 + 1)%R with 2%R by lra. reflexivity.
  - cbv -[Rplus Rminus Rmult Rdiv Rinv Ropp exp ln tanh Rmax relu IZR INR].
    f_equal. simpl INR. unfold Rdiv.
    repeat rewrite ?Rmult_0_r, ?Rmult_0_l, ?Rplus_0_l, ?Rplus_0_r,
      ?Rmult_1_r, ?Rmult_1_l, ?Rinv_1, ?relu_0, ?relu_1, ?exp_0,
      ?Rminus_0_r.
    reflexivity.
  - intros H. pose proof (exp_pos 1%R) as Hp.
    apply ln_inv in H; [| lra | lra].
    pose proof (exp_ineq1 1%R ltac:(lra)). lra.
Qed.

(** ** The encoder and the padding of the time axis *)

Lemma shape3_from_index (A : Type) T B n (x : list (list (list A))) :
  shape2 T B x ->
  (forall t b, t < T -> b < B -> length (nth b (nth t x []) []) = n) ->
  shape3 T B n x.
Proof.
  intros [HT Hr] Hv. split; [exact HT|].
  apply Forall_forall. intros row Hrow.
  destruct (In_nth _ _ [] Hrow) as (t & Ht & <-).
  rewrite Forall_forall in Hr.
  assert (HB : length (nth t x []) = B) by (apply Hr, nth_In; exact Ht).
  split; [exact HB|]. apply Forall_forall. intros v Hin.
  destruct (In_nth _ _ [] Hin) as (b & Hb & <-).
  apply Hv; lia.
Qed.

Lemma shape3_at3 (A : Type) T B n (x : list (list (list A))) t b :
  shape3 T B n x -> t < T -> b < B -> length (at3 x t b) = n.
Proof.
  intros [HT Hx] Ht Hb. unfold at3. rewrite Forall_forall in Hx.
  destruct (Hx (nth t x [])) as [HB Hv]; [apply nth_In; lia|].
  rewrite Forall_forall in Hv. apply Hv. apply nth_In. lia.
Qed.

Lemma bidirectional_rnn_shape3 n B (cfw cbw : rnn_cell) inputs lengths T :
  shape3 T B n inputs -> length lengths = B ->
  Forall (fun l => (0 <= l <= Z.of_nat T)%Z) lengths ->
  cell_rowwise n B cfw -> cell_rowwise n B cbw ->
  exists outputs output_state,
    bidirectional_rnn n B cfw cbw inputs lengths
    = Some (outputs, output_state) /\
    shape3 T B n outputs.
Proof.
  intros Hin Hl Hr Hfw Hbw.
  pose proof (@dynamic_rnn_shape3 n B cfw lengths T inputs Hl Hfw Hin) as Hsf.
  pose proof (@dynamic_rnn_shape3 n B cbw lengths T inputs Hl Hbw Hin) as Hsb.
  unfold bidirectional_rnn.
  destruct (dynamic_rnn n B cfw inputs lengths) as [ofw sfw].
  destruct (dynamic_rnn n B cbw inputs lengths) as [obw sbw].
  simpl in Hsf, Hsb.
  assert (Hsb2 : shape2 T B obw).
  { split; [apply Hsb | apply (shape3_rows Hsb)]. }
  destruct (@reverse_sequence_spec _ B T obw lengths Hsb2 Hl Hr)
    as (rev_bw & Hrev & Hshape & Hnth).
  rewrite Hrev. cbv beta iota delta [obind].
  eexists. eexists. split; [reflexivity|].
  assert (Hrev3 : shape3 T B n rev_bw).
  { apply shape3_from_index; [exact Hshape|]. intros t b Ht Hb.
    rewrite (Hnth t b [] Ht Hb).
    assert (Hlen : (0 <= nth b lengths 0 <= Z.of_nat T)%Z).
    { rewrite Forall_forall in Hr. apply Hr. apply nth_In. lia. }
    apply (@shape3_at3 _ T B n obw _ b Hsb); [| exact Hb].
    destruct (t <? Z.to_nat (nth b lengths 0%Z)) eqn:E; [| exact Ht].
    apply Nat.ltb_lt in E. lia. }
  unfold tadd.
  change (map2 (map2 vadd) ofw rev_bw)
    with (map2 (map2 (map2 Rplus)) ofw rev_bw).
  apply shape3_map2; assumption.
Qed.

Lemma sequence_length_bounds B T mask :
  shape2 T B mask -> (Z.of_nat T < 2 ^ 31)%Z -> valid_mask B mask ->
  Forall (fun l => (0 <= l <= Z.of_nat T)%Z) (sequence_length B mask).
Proof.
  intros Hs HT Hv. apply Forall_forall. intros l Hl.
  destruct (In_nth _ _ 0%Z Hl) as (b & Hb & <-).
  rewrite (@length_sequence_length B T mask Hs) in Hb.
  rewrite (@sequence_length_of_valid B T mask b Hs HT Hv Hb).
  pose proof (leading_ones_le (column b mask)) as Hle.
  destruct Hs as [HT' Hm].
  rewrite (@length_column _ mask b B Hm Hb), HT' in Hle. lia.
Qed.

Section EncoderFacts.
Variables size B : nat.
Variable keep_prob : R.
Variables fw bw : nat -> rnn_cell.
Variable Wd : nat -> list (list R).
Variable bd : nat -> list R.
Variable binary : nat -> list (list (list R)).
Hypothesis Hsize : 0 < size.
Hypothesis HB : 0 < B.
Hypothesis Hfw : forall i, cell_rowwise size B (fw i).
Hypothesis Hbw : forall i, cell_rowwise size B (bw i).
Hypothesis HWd : forall i, shape2 (2 * size) size (Wd i).
Hypothesis Hbd : forall i, length (bd i) = size.

Lemma encoder_layer_ok i T inp mask :
  shape3 T B size inp -> shape3 T B size (binary i) ->
  shape2 T B mask -> valid_mask B mask -> (Z.of_nat T < 2 ^ 31)%Z ->
  exists out st,
    bidirectional_rnn size B (fw i) (bw i)
      (dropout keep_prob (binary i) inp) (reduce_sum_axis0_i32 B mask)
    = Some (out, st) /\
    shape3 T B size out.
Proof.
  intros Hinp Hbin Hmask Hvalid HT.
  apply bidirectional_rnn_shape3.
  - apply shape3_dropout; assumption.
  - apply (@length_sequence_length B T mask Hmask).
  - apply (@sequence_length_bounds B T mask Hmask HT Hvalid).
  - apply Hfw.
  - apply Hbw.
Qed.

Lemma encoder_layers_spec n :
  forall i T inp mask prev,
    shape3 T B size inp -> shape2 T B mask -> valid_mask B mask ->
    (Z.of_nat T < 2 ^ 31)%Z ->
    (forall j, j <= n -> shape3 (T / 2 ^ j) B size (binary (i + j))) ->
    (T mod 2 ^ n = 0 ->
     exists out,
       encoder_layers size B keep_prob fw bw Wd bd binary (S n) i
         (Some (inp, mask)) prev = Some out /\
       shape3 (T / 2 ^ n) B size out) /\
    (T mod 2 ^ n <> 0 ->
     encoder_layers size B keep_prob fw bw Wd bd binary (S n) i
       (Some (inp, mask)) prev = None).
Proof.
  induction n as [|m IH]; intros i T inp mask prev Hinp Hmask Hvalid HT Hbin.
  - assert (Hb0 : shape3 T B size (binary i)).
    { specialize (Hbin 0 (Nat.le_refl 0)).
      rewrite Nat.add_0_r in Hbin. change (2 ^ 0) with 1 in Hbin.
      rewrite Nat.div_1_r in Hbin. exact Hbin. }
    destruct (@encoder_layer_ok i T inp mask Hinp Hb0 Hmask Hvalid HT)
      as (out & st & Hrun & Hout).
    split.
    + intros _. exists out. change (2 ^ 0) with 1. rewrite Nat.div_1_r.
      split; [| exact Hout].
      change (encoder_layers size B keep_prob fw bw Wd bd binary 1 i
                (Some (inp, mask)) prev)
        with (r <- bidirectional_rnn size B (fw i) (bw i)
                     (dropout keep_prob (binary i) inp)
                     (reduce_sum_axis0_i32 B mask) ;;
              let (out, _) := r in Some out).
      rewrite Hrun. reflexivity.
    + intros H. exfalso. apply H. change (2 ^ 0) with 1. apply Nat.mod_1_r.
  - assert (Hb0 : shape3 T B size (binary i)).
    { specialize (Hbin 0 (Nat.le_0_l _)).
      rewrite Nat.add_0_r in Hbin. change (2 ^ 0) with 1 in Hbin.
      rewrite Nat.div_1_r in Hbin. exact Hbin. }
    destruct (@encoder_layer_ok i T inp mask Hinp Hb0 Hmask Hvalid HT)
      as (out & st & Hrun & Hout).
    assert (Hstep :
      encoder_layers size B keep_prob fw bw Wd bd binary (S (S m)) i
        (Some (inp, mask)) prev
      = encoder_layers size B keep_prob fw bw Wd bd binary (S m) (S i)
          (downscale size B (Wd i) (bd i) out mask) (Some out)).
    { change (encoder_layers size B keep_prob fw bw Wd bd binary (S (S m)) i
                (Some (inp, mask)) prev)
        with (r <- bidirectional_rnn size B (fw i) (bw i)
                     (dropout keep_prob (binary i) inp)
                     (reduce_sum_axis0_i32 B mask) ;;
              let (out, _) := r in
              encoder_layers size B keep_prob fw bw Wd bd binary (S m) (S i)
                (downscale size B (Wd i) (bd i) out mask) (Some out)).
      rewrite Hrun. reflexivity. }
    rewrite Hstep. rewrite Nat.pow_succ_r'.
    destruct (Nat.Even_or_Odd T) as [[k Hk] | [k Hk]].
    + subst T.
      destruct (@downscale_inp_even size B (Wd i) (bd i) Hsize HB (HWd i)
                  (Hbd i) k out Hout) as (o' & Ho' & Hso' & _).
      destruct (@downscale_mask_valid_gen B k mask HB Hmask Hvalid)
        as (m' & Hm' & Hsm' & Hvm' & _).
      assert (Hd : downscale size B (Wd i) (bd i) out mask = Some (o', m')).
      { unfold downscale. rewrite Ho', Hm'. reflexivity. }
      rewrite Hd.
      rewrite Nat.Div0.mul_mod_distr_l, Nat.Div0.div_mul_cancel_l by lia.
      destruct (IH (S i) k o' m' (Some out) Hso' Hsm' Hvm') as [IHok IHno].
      * lia.
      * intros j Hj. specialize (Hbin (S j) (le_n_S _ _ Hj)).
        rewrite Nat.pow_succ_r', Nat.Div0.div_mul_cancel_l in Hbin by lia.
        replace (S i + j) with (i + S j) by lia. exact Hbin.
      * split.
        -- intros Hmod. apply IHok. lia.
        -- intros Hmod. apply IHno. lia.
    + subst T.
      destruct (@downscale_inp_odd size B (Wd i) (bd i) Hsize HB (HWd i)
                  (Hbd i) k out Hout) as [Hnone _].
      assert (Hd : downscale size B (Wd i) (bd i) out mask = None).
      { unfold downscale. rewrite Hnone. reflexivity. }
      rewrite Hd. split.
      * intros Hmod. exfalso.
        apply Nat.Div0.div_exact in Hmod. lia.
      * intros _. reflexivity.
Qed.
End EncoderFacts.

(** X10. An encoder of [n + 1] layers halves the time axis between layers
    but not after the last one.  On a well-formed batch of [T] time steps
    with a valid source mask it yields an encoder output exactly when
    [2 ^ n] divides [T], and that output then has [T / 2 ^ n] time steps;
    when [2 ^ n] does not divide [T] the graph fails at the first layer whose
    input has an odd number of time steps. *)
Theorem setup_encoder_needs_padded_time
  size B keep_prob fw bw Wd bd binary n T encoder_inputs source_mask :
  0 < size -> 0 < B ->
  (forall i, cell_rowwise size B (fw i)) ->
  (forall i, cell_rowwise size B (bw i)) ->
  (forall i, shape2 (2 * size) size (Wd i)) ->
  (forall i, length (bd i) = size) ->
  shape3 T B size encoder_inputs -> shape2 T B source_mask ->
  valid_mask B source_mask -> (Z.of_nat T < 2 ^ 31)%Z ->
  (forall j, j <= n -> shape3 (T / 2 ^ j) B size (binary j)) ->
  (T mod 2 ^ n = 0 ->
   exists out,
     setup_encoder size B keep_prob fw bw Wd bd binary (S n)
       encoder_inputs source_mask = Some out /\
     shape3 (T / 2 ^ n) B size out) /\
  (T mod 2 ^ n <> 0 ->
   setup_encoder size B keep_prob fw bw Wd bd binary (S n)
     encoder_inputs source_mask = None).
Proof.
  intros Hsize HB Hfw Hbw HWd Hbd Hinp Hmask Hvalid HT Hbin.
  unfold setup_encoder.
  apply (@encoder_layers_spec size B keep_prob fw bw Wd bd binary Hsize HB
           Hfw Hbw HWd Hbd n 0 T encoder_inputs source_mask None
           Hinp Hmask Hvalid HT).
  intros j Hj. simpl. apply Hbin. exact Hj.
Qed.

Lemma setup_encoder_needs_padded_time_witness :
  exists out,
    setup_encoder 1 1 1%R
      (fun _ x s => (map (fun r => [Rsum r]) x, map (fun r => [Rsum r]) x))
      (fun _ x s => (map (fun r => [Rsum r]) x, map (fun r => [Rsum r]) x))
      (fun _ => [[1%R]; [1%R]]) (fun _ => [0%R])
      (fun j => match j with
                | O => [[[1%R]]; [[1%R]]]
                | _ => [[[1%R]]]
                end)
      2 [[[1%R]]; [[2%R]]] [[1]; [1]]%Z = Some out /\
    shape3 1 1 1 out.
Proof.
  assert (Hc : cell_rowwise 1 1
                 (fun x s : list (list R) =>
                    (map (fun r => [Rsum r]) x, map (fun r => [Rsum r]) x))).
  { apply cell_rowwise_map. reflexivity. }
  assert (HW : shape2 (2 * 1) 1 [[1%R]; [1%R]]).
  { split; [reflexivity | repeat constructor]. }
  assert (Hinp : shape3 2 1 1 [[[1%R]]; [[2%R]]]).
  { split; [reflexivity | repeat constructor]. }
  assert (Hmask : shape2 2 1 [[1]; [1]]%Z).
  { split; [reflexivity | repeat constructor]. }
  assert (Hvalid : valid_mask 1 [[1]; [1]]%Z).
  { intros [|i] Hi; [reflexivity | lia]. }
  assert (Hbin : forall j, j <= 1 ->
            shape3 (2 / 2 ^ j) 1 1
              (match j with
               | O => [[[1%R]]; [[1%R]]]
               | _ => [[[1%R]]]
               end)).
  { intros [|[|j]] Hj; try lia; (split; [reflexivity | repeat constructor]). }
  destruct (@setup_encoder_needs_padded_time 1 1 1%R
              (fun _ x s =>
                 (map (fun r => [Rsum r]) x, map (fun r => [Rsum r]) x))
              (fun _ x s =>
                 (map (fun r => [Rsum r]) x, map (fun r => [Rsum r]) x))
              (fun _ => [[1%R]; [1%R]]) (fun _ => [0%R])
              (fun j => match j with
                        | O => [[[1%R]]; [[1%R]]]
                        | _ => [[[1%R]]]
                        end)
              1 2 [[[1%R]]; [[2%R]]] [[1]; [1]]%Z
              ltac:(lia) ltac:(lia) (fun _ => Hc) (fun _ => Hc)
              (fun _ => HW) (fun _ => eq_refl) Hinp Hmask Hvalid
              ltac:(reflexivity) Hbin) as [Hok _].
  exact (Hok eq_refl).
Defined.

(** X11. Source tokens stored at or past an example's length never reach
    the encoder output: on a well-formed batch with a valid source mask and
    cells that work example by example, replacing such a token by any
    vocabulary index leaves the result of the source side unchanged, whatever
    the number of layers. *)
Theorem source_padding_never_reaches_encoder
  size B keep_prob fw bw Wd bd binary num_layers V L_enc T tokens mask t b v :
  (Z.of_nat T < 2 ^ 31)%Z ->
  cell_rowwise size B (fw 0) -> cell_rowwise size B (bw 0) ->
  shape3 T B size (binary 0) -> shape2 V size L_enc ->
  shape2 T B tokens -> shape2 T B mask -> valid_mask B mask ->
  Forall (Forall (in_vocab V)) tokens -> in_vocab V v ->
  b < B -> leading_ones (column b mask) <= t ->
  source_encoding size B keep_prob fw bw Wd bd binary num_layers L_enc
    (set_entry t b v tokens) mask
  = source_encoding size B keep_prob fw bw Wd bd binary num_layers L_enc
      tokens mask.
Proof.
  intros HT Hfw Hbw Hbin HL Htok Hmask Hvalid Hvoc Hv Hb Hlen.
  set (lengths := sequence_length B mask).
  assert (Hl : length lengths = B)
    by (apply (@length_sequence_length B T mask Hmask)).
  assert (Hlb : nth b lengths 0%Z = Z.of_nat (leading_ones (column b mask))).
  { apply (@sequence_length_of_valid B T mask b Hmask HT Hvalid Hb). }
  assert (Htok' : shape2 T B (set_entry t b v tokens))
    by (apply shape2_set_entry; exact Htok).
  assert (Hvoc' : Forall (Forall (in_vocab V)) (set_entry t b v tokens)).
  { apply Forall_set_entry; [| exact Hvoc].
    intros row Hrow. apply Forall_set_nth; assumption. }
  set (g := fun tok : Z => nth (Z.to_nat tok) L_enc []).
  set (x := map (map g) tokens).
  set (x' := map (map g) (set_entry t b v tokens)).
  assert (Hx : shape3 T B size x)
    by (apply (@embedded_shape3 V size L_enc T B tokens HL Htok Hvoc)).
  assert (Hx' : shape3 T B size x')
    by (apply (@embedded_shape3 V size L_enc T B _ HL Htok' Hvoc')).
  assert (Hag : agree_within lengths x x').
  { unfold x'. rewrite map_set_entry. apply agree_within_set_entry. lia. }
  unfold source_encoding. destruct HL as [HLlen _].
  rewrite (@embedding_lookup_ok V L_enc tokens HLlen Hvoc).
  rewrite (@embedding_lookup_ok V L_enc _ HLlen Hvoc').
  cbv beta iota delta [obind]. fold g. fold x. fold x'.
  unfold setup_encoder. destruct num_layers as [|n]; [reflexivity|].
  change (encoder_layers size B keep_prob fw bw Wd bd binary (S n) 0
            (Some (x', mask)) None)
    with (r <- bidirectional_rnn size B (fw 0) (bw 0)
                 (dropout keep_prob (binary 0) x') lengths ;;
          let (out, _) := r in
          encoder_layers size B keep_prob fw bw Wd bd binary n 1
            (downscale size B (Wd 0) (bd 0) out mask) (Some out)).
  change (encoder_layers size B keep_prob fw bw Wd bd binary (S n) 0
            (Some (x, mask)) None)
    with (r <- bidirectional_rnn size B (fw 0) (bw 0)
                 (dropout keep_prob (binary 0) x) lengths ;;
          let (out, _) := r in
          encoder_layers size B keep_prob fw bw Wd bd binary n 1
            (downscale size B (Wd 0) (bd 0) out mask) (Some out)).
  pose proof (@shape3_dropout keep_prob T B size (binary 0) x Hx Hbin) as Hd.
  pose proof (@shape3_dropout keep_prob T B size (binary 0) x' Hx' Hbin)
    as Hd'.
  pose proof (@agree_within_dropout keep_prob T B size (binary 0) lengths
                x x' Hx Hx' Hbin Hag) as Hda.
  unfold bidirectional_rnn.
  rewrite <- (@dynamic_rnn_agree size B (fw 0) lengths T _ _
                Hl Hfw Hd Hd' Hda).
  rewrite <- (@dynamic_rnn_agree size B (bw 0) lengths T _ _
                Hl Hbw Hd Hd' Hda).
  reflexivity.
Qed.

Lemma source_padding_never_reaches_encoder_witness :
  source_encoding 1 1 1%R
    (fun _ x s => (map (fun r => [Rsum r]) x, map (fun r => [Rsum r]) x))
    (fun _ x s => (map (fun r => [Rsum r]) x, map (fun r => [Rsum r]) x))
    (fun _ => [[1%R]; [1%R]]) (fun _ => [0%R])
    (fun _ => [[[1%R]]; [[1%R]]]) 1 [[0%R]; [1%R]]
    (set_entry 1 0 0%Z [[0]; [1]]%Z) [[1]; [0]]%Z
  = source_encoding 1 1 1%R
      (fun _ x s => (map (fun r => [Rsum r]) x, map (fun r => [Rsum r]) x))
      (fun _ x s => (map (fun r => [Rsum r]) x, map (fun r => [Rsum r]) x))
      (fun _ => [[1%R]; [1%R]]) (fun _ => [0%R])
      (fun _ => [[[1%R]]; [[1%R]]]) 1 [[0%R]; [1%R]]
      [[0]; [1]]%Z [[1]; [0]]%Z.
Proof.
  assert (Hc : cell_rowwise 1 1
                 (fun x s : list (list R) =>
                    (map (fun r => [Rsum r]) x, map (fun r => [Rsum r]) x))).
  { apply cell_rowwise_map. reflexivity. }
  assert (Hbin : shape3 2 1 1 [[[1%R]]; [[1%R]]]).
  { split; [reflexivity | repeat constructor]. }
  assert (HL : shape2 2 1 [[0%R]; [1%R]]).
  { split; [reflexivity | repeat constructor]. }
  assert (Htok : shape2 2 1 [[0]; [1]]%Z).
  { split; [reflexivity | repeat constructor]. }
  assert (Hmask : shape2 2 1 [[1]; [0]]%Z).
  { split; [reflexivity | repeat constructor]. }
  assert (Hvalid : valid_mask 1 [[1]; [0]]%Z).
  { intros [|i] Hi; [reflexivity | lia]. }
  assert (Hvoc : Forall (Forall (in_vocab 2)) [[0]; [1]]%Z).
  { repeat match goal with |- Forall _ _ => constructor end;
      unfold in_vocab; simpl; lia. }
  assert (Hv : in_vocab 2 0%Z) by (unfold in_vocab; simpl; lia).
  apply (@source_padding_never_reaches_encoder 1 1 1%R _ _ _ _
           (fun _ => [[[1%R]]; [[1%R]]]) 1 2 [[0%R]; [1%R]] 2
           [[0]; [1]]%Z [[1]; [0]]%Z 1 0 0%Z
           ltac:(reflexivity) Hc Hc Hbin HL Htok Hmask Hvalid Hvoc Hv
           ltac:(lia) ltac:(simpl; lia)).
Defined.

(** ** No encoder position is left without attention *)

Open Scope R_scope.

(** X12. Every attention weight is strictly between 0 and 1, at every
    encoder time step of every example: the source mask plays no part in
    the weights, so the encoder positions that hold padding receive a
    positive weight as well. *)
Theorem attention_weights_strictly_positive B T phi_hs gamma_h :
  shape2 T B phi_hs -> length gamma_h = B ->
  forall t b, (t < T)%nat -> (b < B)%nat ->
    0 < nth b (nth t (attention_weights B phi_hs gamma_h) []) 0 < 1.
Proof.
  intros Hphi Hg t b Ht Hb.
  destruct (@column_attention_weights B T phi_hs gamma_h b Hphi Hg Hb)
    as (Hw & Hwl & Hcol).
  cbv zeta in Hcol.
  rewrite <- (@nth_column _ (attention_weights B phi_hs gamma_h) b t B 0
                Hw Hb).
  rewrite Hcol.
  set (scores := map (fun phi => dot phi (nth b gamma_h []))
                   (column b phi_hs)) in *.
  set (m := match scores with
            | [] => 0
            | x :: r => fold_left Rmax r x
            end) in *.
  set (e := map (fun x => exp (x - m)) scores) in *.
  assert (Hlen : length e = T).
  { unfold e, scores. rewrite !length_map.
    destruct Hphi as [HT Hr]. rewrite (@length_column _ phi_hs b B Hr Hb).
    exact HT. }
  assert (Hpos : Forall (fun y => 0 <= y) e).
  { apply Forall_forall. intros y Hy. apply in_map_iff in Hy.
    destruct Hy as (z & <- & _). apply Rlt_le, exp_pos. }
  rewrite (nth_map_lt _ _ 0) by lia.
  assert (Hin : In (nth t e 0) e) by (apply nth_In; lia).
  assert (He : 0 < nth t e 0).
  { apply in_map_iff in Hin. destruct Hin as (z & <- & _). apply exp_pos. }
  pose proof (@Rsum_ge_member e (nth t e 0) Hpos Hin) as Hle.
  unfold attn_epsilon.
  assert (Hden : 0 < 1 / 1000000 + Rsum e) by lra.
  split.
  - apply Rdiv_lt_0_compat; assumption.
  - apply Rmult_lt_reg_r with (r := 1 / 1000000 + Rsum e); [exact Hden|].
    unfold Rdiv at 1. rewrite Rmult_assoc, Rinv_l by lra. lra.
Qed.

Lemma attention_weights_strictly_positive_witness :
  0 < nth 0 (nth 1 (attention_weights 1 [[[1]]; [[5]]] [[1]]) []) 0 < 1.
Proof.
  assert (Hs : shape2 2 1 [[[1]]; [[5]]]).
  { split; [reflexivity | repeat constructor]. }
  apply (@attention_weights_strictly_positive 1 2 [[[1]]; [[5]]] [[1]]
           Hs eq_refl 1%nat 0%nat); lia.
Defined.

(** ** The decoder output past the target lengths *)

Close Scope R_scope.

Lemma cell_rowwise_batch n B (cell : rnn_cell) :
  cell_rowwise n B cell -> cell_batch B cell.
Proof.
  intros [Hshape _] x s Hx Hs. destruct (Hshape x s Hx Hs) as [[H1 _] H2].
  split; assumption.
Qed.

(** X13. The decoder yields an output of the shape (T, B, size) of its
    input, and at every time step at or past an example's target length the
    output of that example is the zero vector, whatever the numbers of
    layers, the cells and the dropout draw. *)
Theorem setup_decoder_zero_past_target_length
  size B keep_prob decoder_cells attn_gru W1 b1 W2 b2 Wc bc binary
  num_layers hs T Te decoder_inputs target_length :
  0 < size -> length target_length = B ->
  (forall i, cell_rowwise size B (decoder_cells i)) ->
  cell_rowwise size B attn_gru ->
  (forall i, shape3 T B size (binary i)) ->
  Forall (fun r => length r = size) W1 -> length b1 = size ->
  Forall (fun r => length r = size) Wc -> length bc = size ->
  shape3 Te B size hs -> shape3 T B size decoder_inputs ->
  exists out,
    setup_decoder size B keep_prob decoder_cells attn_gru W1 b1 W2 b2 Wc bc
      binary num_layers hs decoder_inputs target_length = Some out /\
    shape3 T B size out /\
    forall t b, t < T -> b < B ->
      (nth b target_length 0 <= Z.of_nat t)%Z ->
      at3 out t b = repeat 0%R size.
Proof.
  intros Hsize Hl Hcells Hgru Hbin HW1 Hb1 HWc Hbc Hhs Hx.
  unfold setup_decoder.
  destruct (@GRUCellAttn_init_rows size B W1 b1 Te hs Hsize HW1 Hb1 Hhs)
    as (phi & Hphi & Hps & _).
  rewrite Hphi. cbv beta iota zeta delta [obind].
  destruct (@decoder_layers_agree size B keep_prob decoder_cells binary T
              target_length Hl Hcells Hbin (num_layers - 1) 0
              decoder_inputs decoder_inputs Hx Hx
              (agree_within_refl target_length decoder_inputs)) as [Hd _].
  set (y := decoder_layers size B keep_prob decoder_cells binary
              (num_layers - 1) 0 decoder_inputs target_length) in *.
  assert (Hcell : cell_rowwise size B
                    (GRUCellAttn_call size B attn_gru W2 b2 Wc bc hs phi)).
  { apply (@GRUCellAttn_call_rowwise size B attn_gru W2 b2 Wc bc hs phi Te);
      try assumption.
    - destruct Hhs as [H1 H2]. split; [exact H1|].
      eapply Forall_impl; [| exact H2]. simpl. tauto.
    - destruct Hps as [H1 H2]. split; [exact H1|].
      eapply Forall_impl; [| exact H2]. simpl. tauto. }
  pose proof (@shape3_dropout keep_prob T B size (binary (num_layers - 1)) y
                Hd (Hbin _)) as Hy.
  pose proof (@dynamic_rnn_shape3 size B _ target_length T _ Hl Hcell Hy)
    as Hout.
  assert (Hz : length (zero_state size B) = B)
    by (unfold zero_state; apply repeat_length).
  pose proof (@rnn_steps_zero_beyond size B _ target_length Hl
                (cell_rowwise_batch Hcell)
                (dropout keep_prob (binary (num_layers - 1)) y) 0
                (zero_state size B) (shape3_rows Hy) Hz) as Hzero.
  unfold dynamic_rnn in *.
  destruct (rnn_steps size B
              (GRUCellAttn_call size B attn_gru W2 b2 Wc bc hs phi)
              target_length 0
              (dropout keep_prob (binary (num_layers - 1)) y)
              (zero_state size B)) as [out st].
  simpl in Hout, Hzero. exists out.
  split; [reflexivity|]. split; [exact Hout|].
  intros t b Ht Hb Hlen. apply Hzero; try assumption.
  destruct Hy as [HyT _]. rewrite HyT. exact Ht.
Qed.

Lemma setup_decoder_zero_past_target_length_witness :
  exists out,
    setup_decoder 1 1 1%R
      (fun _ x s => (map (fun r => [Rsum r]) x, map (fun r => [Rsum r]) x))
      (fun x s => (map (fun r => [Rsum r]) x, map (fun r => [Rsum r]) x))
      [[1%R]] [0%R] [[1%R]] [0%R] [[1%R]; [1%R]] [0%R]
      (fun _ => [[[1%R]]; [[1%R]]]) 2 [[[1%R]]] [[[3%R]]; [[4%R]]] [1%Z]
    = Some out /\
    at3 out 1 0 = [0%R].
Proof.
  assert (Hc : cell_rowwise 1 1
                 (fun x s : list (list R) =>
                    (map (fun r => [Rsum r]) x, map (fun r => [Rsum r]) x))).
  { apply cell_rowwise_map. reflexivity. }
  assert (Hbin : shape3 2 1 1 [[[1%R]]; [[1%R]]]).
  { split; [reflexivity | repeat constructor]. }
  assert (Hhs : shape3 1 1 1 [[[1%R]]]).
  { split; [reflexivity | repeat constructor]. }
  assert (Hx : shape3 2 1 1 [[[3%R]]; [[4%R]]]).
  { split; [reflexivity | repeat constructor]. }
  destruct (@setup_decoder_zero_past_target_length 1 1 1%R _ _
              [[1%R]] [0%R] [[1%R]] [0%R] [[1%R]; [1%R]] [0%R]
              (fun _ => [[[1%R]]; [[1%R]]]) 2 [[[1%R]]] 2 1
              [[[3%R]]; [[4%R]]] [1%Z]
              ltac:(lia) eq_refl (fun _ => Hc) Hc (fun _ => Hbin)
              ltac:(repeat constructor) eq_refl
              ltac:(repeat constructor) eq_refl Hhs Hx)
    as (out & Hrun & _ & Hzero).
  exists out. split; [exact Hrun|].
  apply (Hzero 1 0); simpl; lia.
Defined.
